(** * Journal-club extraction scripts: a shallow embedding

    The development follows the Python sources under
    [lib/journal-club-core]:

    - [pdffigures2-python.py]  (classes [BoundingBox], [Figure],
      [PDFFigures2Python], function [main]);
    - [pymupdf-extractor.py]   (class [PyMuPDFExtractor], function [main]);
    - [pdf-fetcher-python-fallback.py] (function [main]);
    - [universal-text-sanitizer.py] (class [UniversalTextSanitizer]).

    Page coordinates are Python floats in the source.  They are modelled as
    exact rationals [Q]: every finite double is a rational, comparisons are
    the same, and the rounding of a float subtraction or product is not
    modelled.  [float('inf')] is modelled by [None] in an [option Q].

    Python strings of the extractors are modelled by [string]; the
    sanitizer, which works on individual Unicode code points, uses lists of
    code points.  Calls into external libraries whose behaviour is not in
    the repository (the [re] engine, base64, ftfy, ...) are variables of
    the enclosing section. *)

From Stdlib Require Import QArith Qabs Qminmax.
From Stdlib Require Import List String Ascii Bool Arith ZArith Lia Lqa.
From Stdlib Require Import Permutation Sorted DecimalString.
Import ListNotations.

Set Implicit Arguments.

(* ------------------------------------------------------------------ *)
(** * Rational comparisons as booleans *)

Module QB.
Local Open Scope Q_scope.

(** Python's [x < y] on coordinates. *)
Definition ltb (x y : Q) : bool := negb (Qle_bool y x).
(** Python's [x > y]. *)
Definition gtb (x y : Q) : bool := ltb y x.
(** Python's [x >= y]. *)
Definition geb (x y : Q) : bool := Qle_bool y x.
(** Python's [x <= y]. *)
Definition leb (x y : Q) : bool := Qle_bool x y.

(** [min(...)] and [max(...)] of a non-empty Python generator, the first
    element given apart. *)
Definition min_list (x : Q) (l : list Q) : Q := fold_left Qmin l x.
Definition max_list (x : Q) (l : list Q) : Q := fold_left Qmax l x.

End QB.

(* ------------------------------------------------------------------ *)
(** * Python string operations used by the extractors *)

Module PyStr.
Local Open Scope string_scope.

Definition is_upper (c : ascii) : bool :=
  let n := nat_of_ascii c in (65 <=? n)%nat && (n <=? 90)%nat.

Definition is_lower (c : ascii) : bool :=
  let n := nat_of_ascii c in (97 <=? n)%nat && (n <=? 122)%nat.

Definition lower_char (c : ascii) : ascii :=
  if is_upper c then ascii_of_nat (nat_of_ascii c + 32) else c.

Definition upper_char (c : ascii) : ascii :=
  if is_lower c then ascii_of_nat (nat_of_ascii c - 32) else c.

(** [s.lower()]. *)
Fixpoint lower (s : string) : string :=
  match s with
  | EmptyString => EmptyString
  | String c r => String (lower_char c) (lower r)
  end.

(** [s.title()]: the first letter of every run of letters in upper case,
    the others in lower case. *)
Fixpoint title_from (prev_cased : bool) (s : string) : string :=
  match s with
  | EmptyString => EmptyString
  | String c r =>
      let cased := is_upper c || is_lower c in
      String (if prev_cased then lower_char c else upper_char c)
             (title_from cased r)
  end.

Definition title (s : string) : string := title_from false s.

(** [s.startswith(p)]. *)
Fixpoint startswith (p s : string) : bool :=
  match p, s with
  | EmptyString, _ => true
  | String a p', String b s' => Ascii.eqb a b && startswith p' s'
  | String _ _, EmptyString => false
  end.

(** [sub in s]. *)
Fixpoint contains (sub s : string) : bool :=
  startswith sub s ||
  match s with
  | EmptyString => false
  | String _ r => contains sub r
  end.

(** [s.replace(old, new)] for a non-empty [old]: occurrences are replaced
    from left to right and do not overlap.  [skip] counts the characters
    of a matched occurrence that are still to be passed over. *)
Fixpoint replace_from (old new : string) (skip : nat) (s : string) : string :=
  match s with
  | EmptyString => EmptyString
  | String c r =>
      match skip with
      | S k => replace_from old new k r
      | O =>
          if startswith old s
          then new ++ replace_from old new (String.length old - 1) r
          else String c (replace_from old new 0 r)
      end
  end.

Definition replace (old new s : string) : string := replace_from old new 0 s.

(** The ASCII characters Python's [str.strip()] removes. *)
Definition is_space (c : ascii) : bool :=
  let n := nat_of_ascii c in
  (n =? 32)%nat || ((9 <=? n)%nat && (n <=? 13)%nat)
  || ((28 <=? n)%nat && (n <=? 31)%nat).

Fixpoint lstrip (s : string) : string :=
  match s with
  | EmptyString => EmptyString
  | String c r => if is_space c then lstrip r else s
  end.

Fixpoint rstrip (s : string) : string :=
  match s with
  | EmptyString => EmptyString
  | String c r =>
      match rstrip r with
      | EmptyString => if is_space c then EmptyString else String c EmptyString
      | r' => String c r'
      end
  end.

(** [s.strip()]. *)
Definition strip (s : string) : string := rstrip (lstrip s).

(** [str(n)] for a non-negative integer. *)
Definition str_of_nat (n : nat) : string :=
  NilZero.string_of_uint (Nat.to_uint n).

(** [''.join(l)]. *)
Definition join (l : list string) : string :=
  fold_right String.append EmptyString l.

End PyStr.

(* ------------------------------------------------------------------ *)
(** * Outcomes of code that may raise *)

(** [Raise e] stands for an exception whose [str(e)] is [e]. *)
Inductive exc (A : Type) : Type :=
| Raise (e : string)
| Return (a : A).
Arguments Raise {A} e.
Arguments Return {A} a.

Definition bind {A B} (m : exc A) (k : A -> exc B) : exc B :=
  match m with
  | Raise e => Raise e
  | Return a => k a
  end.

(** Membership of an index in a Python [set] of integers. *)
Definition mem (i : nat) (s : list nat) : bool := existsb (Nat.eqb i) s.

(** [enumerate(l)] from a start index. *)
Fixpoint enumerate_from {A} (k : nat) (l : list A) : list (nat * A) :=
  match l with
  | [] => []
  | a :: r => (k, a) :: enumerate_from (S k) r
  end.

Definition enumerate {A} (l : list A) : list (nat * A) := enumerate_from 0 l.

(* ------------------------------------------------------------------ *)
(** * PyMuPDF values the scripts read *)

Module fitz.
Local Open Scope Q_scope.

(** [fitz.Rect]. *)
Record Rect := mkRect { x0 : Q; y0 : Q; x1 : Q; y1 : Q }.

(** [Rect.width] and [Rect.height], which PyMuPDF documents as
    [max(x1 - x0, 0)] and [max(y1 - y0, 0)]. *)
Definition width (r : Rect) : Q := Qmax (x1 r - x0 r) 0.
Definition height (r : Rect) : Q := Qmax (y1 r - y0 r) 0.

Definition is_zero (q : Q) : bool := Qeq_bool q 0.

(** Truth value of a rectangle ([Rect.__bool__]): false only when all
    four coordinates are zero. *)
Definition Rect_bool (r : Rect) : bool :=
  negb (is_zero (x0 r) && is_zero (y0 r) && is_zero (x1 r) && is_zero (y1 r)).

(** One entry of [page.get_drawings()]: the ['rect'] key, when present, and
    the length of the ['items'] list, when present. *)
Record Drawing := mkDrawing { rect : option Rect; items : option nat }.

(** One span of a text line: ['text'] and ['bbox'], each possibly absent. *)
Record Span := mkSpan { span_text : option string; span_bbox : option Rect }.

(** One line of a text block. *)
Record Line := mkLine { line_bbox : Rect; spans : list Span }.

(** One block of [page.get_text("dict")]: ['type'] (0 for text), ['bbox']
    and ['lines']. *)
Record Block := mkBlock { block_type : Z; block_bbox : Rect; lines : list Line }.

(** One entry of [page.get_images()], with what the scripts ask PyMuPDF
    about it: [page.get_image_rects(xref)], [page.get_image_bbox(img)], the
    size of [fitz.Pixmap(doc, xref)] and the base64 text of its PNG bytes. *)
Record Image := mkImage {
  xref : nat;
  image_rects : list Rect;
  image_bbox : Rect;
  pix_width : Z;
  pix_height : Z;
  png_base64 : string
}.

(** A page: its text dictionary, plain text, images, drawings and
    [page.rect]. *)
Record Page := mkPage {
  blocks : list Block;
  page_text : string;
  images : list Image;
  drawings : list Drawing;
  page_rect : Rect
}.

End fitz.

(* ------------------------------------------------------------------ *)
(** * pdffigures2-python.py *)

(** [BoundingBox] dataclass. *)
Record BoundingBox := mkBoundingBox { x1 : Q; y1 : Q; x2 : Q; y2 : Q }.

(** [Figure] dataclass. *)
Record Figure := mkFigure {
  figure_type : string;
  name : string;
  caption : string;
  page : nat;
  bbox : BoundingBox;
  image_data : option string
}.

Module PDFFigures2Python.
Local Open Scope Q_scope.
Local Open Scope string_scope.
Import QB.

(** [BoundingBox.area]. *)
Definition area (b : BoundingBox) : Q := (x2 b - x1 b) * (y2 b - y1 b).

(** [BoundingBox.expand]. *)
Definition expand (b : BoundingBox) (pixels : Q) : BoundingBox :=
  mkBoundingBox (x1 b - pixels) (y1 b - pixels) (x2 b + pixels) (y2 b + pixels).

(** [BoundingBox( *t )] for a 4-tuple [t = (x0, y0, x1, y1)] of the text
    dictionary; such tuples are carried as [fitz.Rect] records. *)
Definition BoundingBox_of (t : fitz.Rect) : BoundingBox :=
  mkBoundingBox (fitz.x0 t) (fitz.y0 t) (fitz.x1 t) (fitz.y1 t).

(** A caption dictionary: keys ['type'], ['text'], ['bbox'], ['match']. *)
Record Caption := mkCaption {
  ctype : string;
  ctext : string;
  cbbox : BoundingBox;
  cmatch : string
}.

Definition figure_patterns : list string :=
  [ "\b(Figure|Fig\.?)\s+(\d+|[IVX]+)\.?\s*";
    "\b(FIGURE|FIG\.?)\s+(\d+|[IVX]+)\.?\s*";
    "\b(Supplementary\s+Figure|Appendix\s+Figure)\s+(\S+)" ].

Definition table_patterns : list string :=
  [ "\b(Table|Tbl\.?)\s+(\d+|[IVX]+)\.?\s*";
    "\b(TABLE|TBL\.?)\s+(\d+|[IVX]+)\.?\s*";
    "\b(Supplementary\s+Table|Appendix\s+Table)\s+(\S+)" ].

Definition continuation_words : list string :=
  [ "continued"; "cont."; "cont'd"; "continuation" ].

(** One element of [results['figures']]. *)
Record OutBBox := mkOutBBox {
  o_x1 : Q; o_y1 : Q; o_x2 : Q; o_y2 : Q; o_width : Q; o_height : Q
}.

Record OutFigure := mkOutFigure {
  o_type : string;
  o_pageNumber : nat;
  o_name : string;
  o_caption : string;
  o_bbox : OutBBox;
  o_image : option string;
  o_source : string
}.

(** The [results] dictionary, without [processing_time]. *)
Record Results := mkResults {
  success : bool;
  figures : list OutFigure;
  error : option string
}.

(** State of the loop of [_find_nearest_caption]. *)
Record nearest_state := mkNearest {
  best_caption : option Caption;
  best_distance : option Q  (* [None] is [float('inf')] *)
}.

(** State of the loop of [_merge_multipage_elements]: the [Figure] objects
    of the input list at their positions ([store], the captions of which
    the loop updates in place), the positions of the objects appended to
    [merged], and [skip_indices]. *)
Record merge_state := mkMerge {
  store : list Figure;
  merged : list nat;
  skip_indices : list nat
}.

Section Extractor.

(** [re.match(pattern, text, flags)]: [Some (match.group())] on a match
    at the start of [text]; the boolean is [re.IGNORECASE]. *)
Variable re_match : bool -> string -> string -> option string.

(** [page.get_pixmap(matrix=fitz.Matrix(z, z), clip=clip)] as the base64
    text of its PNG bytes. *)
Variable render_base64 : fitz.Page -> Q -> fitz.Rect -> string.

(** The first pattern of the list that matches. *)
Fixpoint first_match (ignorecase : bool) (patterns : list string)
  (text : string) : option string :=
  match patterns with
  | [] => None
  | p :: ps =>
      match re_match ignorecase p text with
      | Some m => Some m
      | None => first_match ignorecase ps text
      end
  end.

(** The loop over the spans of a line in [_find_captions]: the text joined
    and the bounding box extended. *)
Fixpoint scan_spans (ss : list fitz.Span) (text : string)
  (bb : option fitz.Rect) : string * option fitz.Rect :=
  match ss with
  | [] => (text, bb)
  | sp :: rest =>
      let text' := text ++ match fitz.span_text sp with
                           | Some t => t | None => "" end in
      let bb' :=
        match bb with
        | None => fitz.span_bbox sp
        | Some b =>
            let s := match fitz.span_bbox sp with
                     | Some s => s
                     | None => fitz.mkRect (fitz.x1 b) (fitz.y0 b)
                                           (fitz.x1 b) (fitz.y1 b)
                     end in
            Some (fitz.mkRect (Qmin (fitz.x0 b) (fitz.x0 s))
                              (Qmin (fitz.y0 b) (fitz.y0 s))
                              (Qmax (fitz.x1 b) (fitz.x1 s))
                              (Qmax (fitz.y1 b) (fitz.y1 s)))
        end in
      scan_spans rest text' bb'
  end.

Definition line_captions (line : fitz.Line) : list Caption :=
  match scan_spans (fitz.spans line) "" None with
  | (text, Some bb) =>
      if String.eqb text "" then []
      else
        (match first_match true figure_patterns text with
         | Some m => [mkCaption "Figure" text (BoundingBox_of bb) m]
         | None => []
         end)
        ++
        (match first_match true table_patterns text with
         | Some m => [mkCaption "Table" text (BoundingBox_of bb) m]
         | None => []
         end)
  | (_, None) => []
  end.

Definition _find_captions (blocks : list fitz.Block) : list Caption :=
  flat_map (fun block =>
              if Z.eqb (fitz.block_type block) 0
              then flat_map line_captions (fitz.lines block)
              else [])
           blocks.

(** The vertical distance computed in [_find_nearest_caption]. *)
Definition vertical_distance (figure_bbox caption_bbox : BoundingBox) : Q :=
  if gtb (y1 caption_bbox) (y2 figure_bbox)
  then y1 caption_bbox - y2 figure_bbox
  else if ltb (y2 caption_bbox) (y1 figure_bbox)
       then y1 figure_bbox - y2 caption_bbox
       else 0.

(** [distance < best_distance], the latter starting at infinity. *)
Definition lt_best (distance : Q) (best : option Q) : bool :=
  match best with
  | None => true
  | Some b => ltb distance b
  end.

Definition nearest_step (figure_bbox : BoundingBox) (st : nearest_state)
  (caption : Caption) : nearest_state :=
  let caption_bbox := cbbox caption in
  if gtb (Qabs (x1 caption_bbox - x1 figure_bbox)) 100 then st
  else
    let distance := vertical_distance figure_bbox caption_bbox in
    if lt_best distance (best_distance st) && ltb distance 100
    then mkNearest (Some caption) (Some distance)
    else st.

Definition _find_nearest_caption (figure_bbox : BoundingBox)
  (captions : list Caption) : option Caption :=
  best_caption
    (fold_left (nearest_step figure_bbox) captions (mkNearest None None)).

(** The loop over the lines of one block in [_extract_full_caption]; the
    [break] leaves this loop only. *)
Fixpoint full_caption_lines (ls : list fitz.Line) (caption_text : string)
  (caption_bbox : BoundingBox) : string * BoundingBox :=
  match ls with
  | [] => (caption_text, caption_bbox)
  | line :: rest =>
      let line_bbox := BoundingBox_of (fitz.line_bbox line) in
      if gtb (y1 line_bbox) (y2 caption_bbox)
         && ltb (y1 line_bbox - y2 caption_bbox) 20
         && ltb (Qabs (x1 line_bbox - x1 caption_bbox)) 50
      then
        let line_text :=
          PyStr.join (map (fun sp => match fitz.span_text sp with
                                     | Some t => t | None => "" end)
                          (fitz.spans line)) in
        if existsb (fun p => match re_match false p line_text with
                             | Some _ => true | None => false end)
                   (figure_patterns ++ table_patterns)
        then (caption_text, caption_bbox)
        else full_caption_lines rest (caption_text ++ " " ++ line_text)
                                line_bbox
      else full_caption_lines rest caption_text caption_bbox
  end.

Fixpoint full_caption_blocks (bs : list fitz.Block) (caption_text : string)
  (caption_bbox : BoundingBox) : string :=
  match bs with
  | [] => caption_text
  | block :: rest =>
      if Z.eqb (fitz.block_type block) 0
      then let '(t, b) := full_caption_lines (fitz.lines block)
                                             caption_text caption_bbox in
           full_caption_blocks rest t b
      else full_caption_blocks rest caption_text caption_bbox
  end.

Definition _extract_full_caption (page : fitz.Page) (caption_info : Caption)
  : string :=
  PyStr.strip (full_caption_blocks (fitz.blocks page) (ctext caption_info)
                                   (cbbox caption_info)).

Definition data_uri (b64 : string) : string :=
  "data:image/png;base64," ++ b64.

(** The loop of [_extract_images] from position [img_index]. *)
Fixpoint extract_images_from (page : fitz.Page) (captions : list Caption)
  (page_num : nat) (img_index : nat) (image_list : list fitz.Image)
  : list Figure :=
  match image_list with
  | [] => []
  | img :: rest =>
      let continue := extract_images_from page captions page_num
                                          (S img_index) rest in
      match fitz.image_rects img with
      | [] => continue
      | rect :: _ =>
          let bbox := mkBoundingBox (fitz.x0 rect) (fitz.y0 rect)
                                    (fitz.x1 rect) (fitz.y1 rect) in
          if ltb (area bbox) 10000 then continue
          else if (fitz.pix_width img <? 100)%Z
                  || (fitz.pix_height img <? 100)%Z then continue
          else
            let img_base64 := fitz.png_base64 img in
            let '(fig_type, caption_text, name) :=
              match _find_nearest_caption bbox captions with
              | Some caption_info =>
                  (ctype caption_info,
                   _extract_full_caption page caption_info,
                   PyStr.strip (cmatch caption_info))
              | None =>
                  ("Figure", "",
                   "Figure " ++ PyStr.str_of_nat (img_index + 1))
              end in
            mkFigure fig_type name caption_text page_num bbox
                     (Some (data_uri img_base64))
            :: continue
      end
  end.

Definition _extract_images (page : fitz.Page) (captions : list Caption)
  (page_num : nat) : list Figure :=
  extract_images_from page captions page_num 0 (fitz.images page).

(** [_bbox_in_region]. *)
Definition _bbox_in_region (bbox region : BoundingBox) : bool :=
  geb (x1 bbox) (x1 region) && geb (y1 bbox) (y1 region)
  && leb (x2 bbox) (x2 region) && leb (y2 bbox) (y2 region).

(** The search rectangle below a table caption. *)
Definition search_bbox (caption_bbox : BoundingBox) : BoundingBox :=
  mkBoundingBox (x1 caption_bbox - 50) (y2 caption_bbox)
                (x2 caption_bbox + 200) (y2 caption_bbox + 500).

(** The text blocks collected for a table caption. *)
Definition table_blocks (blocks : list fitz.Block)
  (caption_bbox : BoundingBox) : list fitz.Block :=
  filter (fun block =>
            Z.eqb (fitz.block_type block) 0
            && _bbox_in_region (BoundingBox_of (fitz.block_bbox block))
                               (search_bbox caption_bbox))
         blocks.

(** The body of the loop of [_extract_tables] for one table caption. *)
Definition table_figure (page : fitz.Page) (blocks : list fitz.Block)
  (page_num : nat) (caption_info : Caption) : list Figure :=
  let caption_bbox := cbbox caption_info in
  match table_blocks blocks caption_bbox with
  | [] => []
  | b :: bs =>
      let bbs := map (fun b => BoundingBox_of (fitz.block_bbox b)) bs in
      let b0 := BoundingBox_of (fitz.block_bbox b) in
      let min_x := min_list (x1 b0) (map x1 bbs) in
      let min_y := min_list (y1 b0) (map y1 bbs) in
      let max_x := max_list (x2 b0) (map x2 bbs) in
      let max_y := max_list (y2 b0) (map y2 bbs) in
      let table_bbox := mkBoundingBox min_x (y1 caption_bbox) max_x max_y in
      let clip := fitz.mkRect (x1 table_bbox) (y1 table_bbox)
                              (x2 table_bbox) (y2 table_bbox) in
      let img_base64 := render_base64 page 2 clip in
      let caption_text := _extract_full_caption page caption_info in
      [ mkFigure "Table" (PyStr.strip (cmatch caption_info)) caption_text
                 page_num table_bbox (Some (data_uri img_base64)) ]
  end.

Definition _extract_tables (page : fitz.Page) (blocks : list fitz.Block)
  (captions : list Caption) (page_num : nat) : list Figure :=
  let table_captions :=
    filter (fun c => String.eqb (ctype c) "Table") captions in
  flat_map (table_figure page blocks page_num) table_captions.

(** [drawing.get('rect')] when it is present and true. *)
Definition true_rect (d : fitz.Drawing) : option fitz.Rect :=
  match fitz.rect d with
  | Some r => if fitz.Rect_bool r then Some r else None
  | None => None
  end.

(** The closeness test of [_group_drawings]. *)
Definition close_enough (rect1 rect2 : fitz.Rect) : bool :=
  ltb (Qabs (fitz.x0 rect1 - fitz.x0 rect2)) 200
  && ltb (Qabs (fitz.y0 rect1 - fitz.y0 rect2)) 200.

(** The inner loop of [_group_drawings], over [enumerate(drawings)],
    for the seed at position [i] with rectangle [rect1]. *)
Fixpoint group_inner (i : nat) (rect1 : fitz.Rect)
  (js : list (nat * fitz.Drawing)) (group : list fitz.Drawing)
  (used : list nat) : list fitz.Drawing * list nat :=
  match js with
  | [] => (group, used)
  | (j, other) :: rest =>
      if mem j used || Nat.eqb j i then group_inner i rect1 rest group used
      else
        match true_rect other with
        | None => group_inner i rect1 rest group used
        | Some rect2 =>
            if close_enough rect1 rect2
            then group_inner i rect1 rest (group ++ [other]) (j :: used)
            else group_inner i rect1 rest group used
        end
  end.

(** The outer loop of [_group_drawings]. *)
Fixpoint group_outer (all : list (nat * fitz.Drawing))
  (todo : list (nat * fitz.Drawing)) (groups : list (list fitz.Drawing))
  (used : list nat) : list (list fitz.Drawing) :=
  match todo with
  | [] => groups
  | (i, drawing) :: rest =>
      if mem i used then group_outer all rest groups used
      else
        let used1 := i :: used in
        match true_rect drawing with
        | None => group_outer all rest groups used1
        | Some rect1 =>
            let '(group, used2) := group_inner i rect1 all [drawing] used1 in
            group_outer all rest (groups ++ [group]) used2
        end
  end.

Definition _group_drawings (drawings : list fitz.Drawing)
  : list (list fitz.Drawing) :=
  match drawings with
  | [] => []
  | _ => group_outer (enumerate drawings) (enumerate drawings) [] []
  end.

(** [d.get('rect', page.rect)]. *)
Definition rect_or (page : fitz.Page) (d : fitz.Drawing) : fitz.Rect :=
  match fitz.rect d with
  | Some r => r
  | None => fitz.page_rect page
  end.

(** The bounding box computed for a non-empty group. *)
Definition group_bbox (page : fitz.Page) (d : fitz.Drawing)
  (ds : list fitz.Drawing) : BoundingBox :=
  let r0 := rect_or page d in
  let rs := map (rect_or page) ds in
  mkBoundingBox (min_list (fitz.x0 r0) (map fitz.x0 rs))
                (min_list (fitz.y0 r0) (map fitz.y0 rs))
                (max_list (fitz.x1 r0) (map fitz.x1 rs))
                (max_list (fitz.y1 r0) (map fitz.y1 rs)).

(** The body of the loop of [_extract_vector_graphics] for one group. *)
Definition vector_figure (page : fitz.Page) (captions : list Caption)
  (page_num : nat) (group : list fitz.Drawing) : list Figure :=
  if (List.length group <? 5)%nat then []
  else
    match group with
    | [] => []
    | d :: ds =>
        let bbox := group_bbox page d ds in
        if ltb (area bbox) 10000 then []
        else
          match _find_nearest_caption bbox captions with
          | None => []
          | Some caption_info =>
              let fig_type := ctype caption_info in
              let caption_text := _extract_full_caption page caption_info in
              let name := PyStr.strip (cmatch caption_info) in
              let clip := fitz.mkRect (x1 bbox) (y1 bbox) (x2 bbox) (y2 bbox) in
              let img_base64 := render_base64 page 2 clip in
              [ mkFigure fig_type name caption_text page_num bbox
                         (Some (data_uri img_base64)) ]
          end
    end.

Definition _extract_vector_graphics (page : fitz.Page)
  (captions : list Caption) (page_num : nat) : list Figure :=
  match fitz.drawings page with
  | [] => []
  | drawings =>
      flat_map (vector_figure page captions page_num)
               (_group_drawings drawings)
  end.

(** [any(word in fig.caption.lower() for word in self.continuation_words)]. *)
Definition is_continuation (caption : string) : bool :=
  existsb (fun word => PyStr.contains word (PyStr.lower caption))
          continuation_words.

(** [for j in range(i-1, -1, -1)]: the first position below [i], going
    down, whose figure has the name [target]. *)
Fixpoint find_original (figures : list Figure) (target : string) (i : nat)
  : option nat :=
  match i with
  | O => None
  | S j =>
      match nth_error figures j with
      | Some f =>
          if String.eqb (name f) target then Some j
          else find_original figures target j
      | None => find_original figures target j
      end
  end.

Definition set_caption (f : Figure) (c : string) : Figure :=
  mkFigure (figure_type f) (name f) c (page f) (bbox f) (image_data f).

(** [figures[j].caption += ' ' + text]. *)
Fixpoint append_caption (figures : list Figure) (j : nat) (text : string)
  : list Figure :=
  match figures, j with
  | [], _ => []
  | f :: r, O => set_caption f (caption f ++ " " ++ text) :: r
  | f :: r, S k => f :: append_caption r k text
  end.

(** One iteration of the loop of [_merge_multipage_elements]. *)
Definition merge_step (st : merge_state) (i : nat) : merge_state :=
  if mem i (skip_indices st) then st
  else
    match nth_error (store st) i with
    | None => st
    | Some fig =>
        let st1 :=
          if is_continuation (caption fig)
          then
            match find_original (store st)
                    (PyStr.strip (PyStr.replace "continued" "" (name fig))) i
            with
            | Some j =>
                mkMerge (append_caption (store st) j (caption fig))
                        (merged st) (i :: skip_indices st)
            | None => st
            end
          else st in
        if mem i (skip_indices st1) then st1
        else mkMerge (store st1) (merged st1 ++ [i]) (skip_indices st1)
    end.

Definition merge_loop (figures : list Figure) : merge_state :=
  fold_left merge_step (seq 0 (List.length figures)) (mkMerge figures [] []).

(** The objects of [merged] as they are when the function returns. *)
Definition collect (st : merge_state) : list Figure :=
  flat_map (fun i => match nth_error (store st) i with
                     | Some f => [f]
                     | None => []
                     end)
           (merged st).

Definition _merge_multipage_elements (figures : list Figure) : list Figure :=
  collect (merge_loop figures).

Definition _extract_from_page (page : fitz.Page) (page_num : nat)
  : list Figure :=
  let blocks := fitz.blocks page in
  let captions := _find_captions blocks in
  _extract_images page captions page_num
  ++ _extract_tables page blocks captions page_num
  ++ _extract_vector_graphics page captions page_num.

(** The conversion of one figure to the output format. *)
Definition to_output (fig : Figure) : OutFigure :=
  mkOutFigure (PyStr.lower (figure_type fig))
              (page fig + 1)
              (name fig)
              (caption fig)
              (mkOutBBox (x1 (bbox fig)) (y1 (bbox fig))
                         (x2 (bbox fig)) (y2 (bbox fig))
                         (x2 (bbox fig) - x1 (bbox fig))
                         (y2 (bbox fig) - y1 (bbox fig)))
              (image_data fig)
              "pdffigures2-python".

(** The loop over the pages inside the [try] block.  A document is what
    [fitz.open] gives: an exception, or its pages, each of which is the
    page's data or the exception a PyMuPDF call raises while the page is
    processed. *)
Fixpoint pages_loop (page_num : nat) (doc : list (exc fitz.Page))
  (all_figures : list Figure) : exc (list Figure) :=
  match doc with
  | [] => Return all_figures
  | p :: rest =>
      bind p (fun page =>
        pages_loop (S page_num) rest
                   (all_figures ++ _extract_from_page page page_num))
  end.

Definition extract (pdf : exc (list (exc fitz.Page))) : Results :=
  match bind pdf (fun doc => pages_loop 0 doc []) with
  | Return all_figures =>
      mkResults true
                (map to_output (_merge_multipage_elements all_figures))
                None
  | Raise e => mkResults false [] (Some e)
  end.

(** [main]: what is printed on standard output and the exit code of the
    process.  [main] returns normally after printing, so the interpreter
    exits with code 0. *)
Definition main (pdf : exc (list (exc fitz.Page))) : list Results * Z :=
  let results := extract pdf in
  ([results], 0%Z).

End Extractor.
End PDFFigures2Python.

(* ------------------------------------------------------------------ *)
(** * pymupdf-extractor.py *)

Module PyMuPDFExtractor.
Local Open Scope Q_scope.
Local Open Scope string_scope.
Import QB.

Definition table_keywords : list string :=
  [ "\bTable\s+\d+"; "\bTABLE\s+\d+";
    "\bTable\s+[IVX]+"; "\bTABLE\s+[IVX]+";
    "\bSupplementary Table"; "\bAppendix Table" ].

Definition figure_keywords : list string :=
  [ "\bFigure\s+\d+"; "\bFIGURE\s+\d+"; "\bFig\.\s+\d+";
    "\bFigure\s+[IVX]+"; "\bFIGURE\s+[IVX]+";
    "\bSupplementary Figure"; "\bAppendix Figure";
    "\bDiagram\s+\d+"; "\bChart\s+\d+"; "\bGraph\s+\d+" ].

(** One dictionary built by [find_elements]. *)
Record Match := mkMatch {
  m_text : string;
  m_start : nat;
  m_end : nat;
  m_type : string;
  m_y : Q
}.

Record OutBBox := mkOutBBox {
  o_x1 : Q; o_y1 : Q; o_x2 : Q; o_y2 : Q; o_width : Q; o_height : Q
}.

Record OutFigure := mkOutFigure {
  o_type : string;
  o_pageNumber : nat;
  o_caption : string;
  o_bbox : OutBBox;
  o_image : string;
  o_source : string
}.

Record Results := mkResults {
  success : bool;
  figures : list OutFigure;
  error : option string
}.

Section Extractor.

(** [re.finditer(pattern, text)]: for each match its [group()], [start()]
    and [end()]. *)
Variable re_finditer : string -> string -> list (string * nat * nat).

(** The base64 text of the PNG that PIL writes for an image. *)
Variable pil_base64 : fitz.Image -> string.

(** The base64 text of [fitz.Pixmap(pix, clip)], where [pix] is the page
    rendered with [fitz.Matrix(z, z)]. *)
Variable crop_base64 : fitz.Page -> Q -> fitz.Rect -> string.

Definition find_elements (text : string) (patterns : list string)
  (element_type : string) : list Match :=
  flat_map (fun pattern =>
              map (fun m => let '(g, s, e) := m in
                            mkMatch g s e element_type 0)
                  (re_finditer pattern text))
           patterns.

(** The first match whose [y] is within 50 of the image's lower edge. *)
Definition near_match (img_rect : fitz.Rect) (found : list Match)
  : option Match :=
  find (fun m => ltb (Qabs (fitz.y1 img_rect - m_y m)) 50) found.

Definition data_uri (b64 : string) : string :=
  "data:image/png;base64," ++ b64.

(** [caption or default]. *)
Definition or_default (caption default : string) : string :=
  if String.eqb caption "" then default else caption.

(** The body of the loop over the images of a page. *)
Definition image_record (tables_found figures_found : list Match)
  (page_num : nat) (img : fitz.Image) : list OutFigure :=
  if (fitz.pix_width img <? 100)%Z || (fitz.pix_height img <? 100)%Z
  then []
  else
    let img_rect := fitz.image_bbox img in
    let img_base64 := pil_base64 img in
    let '(element_type, caption) :=
      match near_match img_rect tables_found with
      | Some table_match => ("table", m_text table_match)
      | None =>
          match near_match img_rect figures_found with
          | Some fig_match => ("figure", m_text fig_match)
          | None => ("figure", "")
          end
      end in
    [ mkOutFigure element_type (page_num + 1)
        (or_default caption
           (PyStr.title element_type ++ " on page "
            ++ PyStr.str_of_nat (page_num + 1)))
        (mkOutBBox (fitz.x0 img_rect) (fitz.y0 img_rect)
                   (fitz.x1 img_rect) (fitz.y1 img_rect)
                   (fitz.x1 img_rect - fitz.x0 img_rect)
                   (fitz.y1 img_rect - fitz.y0 img_rect))
        (data_uri img_base64)
        "pymupdf" ].

(** The body of the loop over the drawings of a page. *)
Definition drawing_record (page : fitz.Page) (page_num : nat)
  (drawing : fitz.Drawing) : list OutFigure :=
  match fitz.items drawing with
  | None => []
  | Some n =>
      if (10 <? n)%nat then
        let rect := match fitz.rect drawing with
                    | Some r => r
                    | None => fitz.page_rect page
                    end in
        if ltb (fitz.width rect) 100 || ltb (fitz.height rect) 100 then []
        else
          let clip := fitz.mkRect (fitz.x0 rect * 2) (fitz.y0 rect * 2)
                                  (fitz.x1 rect * 2) (fitz.y1 rect * 2) in
          let img_base64 := crop_base64 page 2 clip in
          [ mkOutFigure "figure" (page_num + 1)
              ("Diagram/Chart on page " ++ PyStr.str_of_nat (page_num + 1))
              (mkOutBBox (fitz.x0 rect) (fitz.y0 rect)
                         (fitz.x1 rect) (fitz.y1 rect)
                         (fitz.width rect) (fitz.height rect))
              (data_uri img_base64)
              "pymupdf_drawing" ]
      else []
  end.

(** The records one page appends to [results['figures']]. *)
Definition page_records (page : fitz.Page) (page_num : nat)
  : list OutFigure :=
  let text := fitz.page_text page in
  let tables_found := find_elements text table_keywords "table" in
  let figures_found := find_elements text figure_keywords "figure" in
  flat_map (image_record tables_found figures_found page_num)
           (fitz.images page)
  ++ flat_map (drawing_record page page_num) (fitz.drawings page).

(** The loop over the pages inside the [try] block: the records appended
    so far, and the exception that ended the loop, if one did.  A page of
    the document is its data or the exception a PyMuPDF call raises while
    it is processed. *)
Fixpoint pages_loop (page_num : nat) (doc : list (exc fitz.Page))
  (acc : list OutFigure) : list OutFigure * option string :=
  match doc with
  | [] => (acc, None)
  | Raise e :: _ => (acc, Some e)
  | Return page :: rest =>
      pages_loop (S page_num) rest (acc ++ page_records page page_num)
  end.

Definition extract (pdf : exc (list (exc fitz.Page))) : Results :=
  match pdf with
  | Raise e => mkResults false [] (Some e)
  | Return doc =>
      match pages_loop 0 doc [] with
      | (figs, None) => mkResults true figs None
      | (figs, Some e) => mkResults false figs (Some e)
      end
  end.

(** [main]: what is printed on standard output and the exit code of the
    process; [main] returns normally after printing. *)
Definition main (pdf : exc (list (exc fitz.Page))) : list Results * Z :=
  let results := extract pdf in
  ([results], 0%Z).

End Extractor.
End PyMuPDFExtractor.

(* ------------------------------------------------------------------ *)
(** * pdf-fetcher-python-fallback.py *)

Module PdfFetcher.
Local Open Scope string_scope.

(** What a [fetch_*] function gives back to [main]: an exception, [None],
    or a dictionary with the keys ['success'], ['pdf'] and ['source']. *)
Inductive fetched :=
| Raises
| ReturnsNone
| ReturnsDict (success : bool) (pdf : string) (source : string).

(** The JSON objects [main] prints. *)
Inductive Output :=
| Success (source : string) (pdf_base64 : string)
| Failure (error : string).

(** A run of [main]: the sources called, in order, the objects printed on
    standard output, and the exit code. *)
Record Run := mkRun {
  called : list string;
  stdout : list Output;
  exit_code : Z
}.

Section Fetcher.

(** [base64.b64encode(b).decode('utf-8')]. *)
Variable b64encode : string -> string.

(** The network functions, each from a DOI to what it gives back. *)
Variables fetch_from_unpaywall fetch_from_libkey fetch_from_pubmed_central
  fetch_from_direct_pmc_api fetch_from_europe_pmc fetch_from_biorxiv_medrxiv
  fetch_from_doi_org_redirect fetch_html_from_pmc
  fetch_html_from_journal_site : string -> fetched.

Definition sources : list (string * (string -> fetched)) :=
  [ ("Unpaywall", fetch_from_unpaywall);
    ("LibKey Resolver", fetch_from_libkey);
    ("PubMed Central", fetch_from_pubmed_central);
    ("PMC Direct API", fetch_from_direct_pmc_api);
    ("Europe PMC", fetch_from_europe_pmc);
    ("bioRxiv/medRxiv", fetch_from_biorxiv_medrxiv);
    ("DOI.org redirect", fetch_from_doi_org_redirect);
    ("PMC HTML Full Text", fetch_html_from_pmc);
    ("Universal Journal HTML", fetch_html_from_journal_site) ].

(** The loop over the sources, followed by the report of total failure. *)
Fixpoint try_sources (srcs : list (string * (string -> fetched)))
  (doi : string) (called : list string) : Run :=
  match srcs with
  | [] =>
      mkRun called [Failure "All Python fallback sources failed"] 1
  | (source_name, fetch_func) :: rest =>
      let called' := (called ++ [source_name])%list in
      match fetch_func doi with
      | ReturnsDict true pdf source =>
          mkRun called' [Success source (b64encode pdf)] 0
      | ReturnsDict false _ _ => try_sources rest doi called'
      | ReturnsNone => try_sources rest doi called'
      | Raises => try_sources rest doi called'
      end
  end.

(** [main], from [sys.argv]. *)
Definition main (argv : list string) : Run :=
  match argv with
  | _ :: doi :: _ => try_sources sources doi []
  | _ => mkRun [] [Failure "No DOI provided"] 1
  end.

End Fetcher.
End PdfFetcher.

(* ------------------------------------------------------------------ *)
(** * universal-text-sanitizer.py *)

Module UniversalTextSanitizer.
Local Open Scope N_scope.

(** A Python string as the list of its Unicode code points. *)
Definition pystr := list N.

(** The code points of an ASCII literal. *)
Definition cp (s : string) : pystr :=
  map (fun c => N.of_nat (nat_of_ascii c)) (list_ascii_of_string s).

(** [self.replacements], in insertion order.  The source writes the key of
    the no-break space twice (as ['\u00a0'] and as ['\xa0']), which is one entry
    of the dictionary. *)
Definition replacements : list (N * pystr) :=
  [
    (0x202F, cp " ");
    (0x2009, cp " ");
    (0x200A, cp " ");
    (0x2008, cp " ");
    (0x2007, cp " ");
    (0x2006, cp " ");
    (0x2005, cp " ");
    (0x2004, cp " ");
    (0x2003, cp " ");
    (0x2002, cp " ");
    (0x00A0, cp " ");
    (0x200B, cp "");
    (0x200C, cp "");
    (0x200D, cp "");
    (0xFEFF, cp "");
    (0x2060, cp "");
    (0x2010, cp "-");
    (0x2011, cp "-");
    (0x2012, cp "-");
    (0x2013, cp "-");
    (0x2014, cp "--");
    (0x2212, cp "-");
    (0x2018, cp "'");
    (0x2019, cp "'");
    (0x201A, cp "'");
    (0x201B, cp "'");
    (0x201C, [34]);
    (0x201D, [34]);
    (0x201E, [34]);
    (0x201F, [34]);
    (0x301D, [34]);
    (0x301E, [34]);
    (0x2264, cp "<=");
    (0x2265, cp ">=");
    (0x2260, cp "!=");
    (0x00B1, cp "+/-");
    (0x00D7, cp "x");
    (0x00F7, cp "/");
    (0x221E, cp "infinity");
    (0x2248, cp "~");
    (0x2026, cp "...");
    (0x2022, cp "*");
    (0x2023, cp ">");
    (0x2043, cp "-");
    (0x204C, cp "!!");
    (0x2047, cp "??");
    (0x00BD, cp "1/2");
    (0x2153, cp "1/3");
    (0x2154, cp "2/3");
    (0x00BC, cp "1/4");
    (0x00BE, cp "3/4");
    (0x215B, cp "1/8");
    (0x215C, cp "3/8");
    (0x215D, cp "5/8");
    (0x215E, cp "7/8");
    (0x2190, cp "<-");
    (0x2192, cp "->");
    (0x2194, cp "<->");
    (0x21D2, cp "=>");
    (0x00A9, cp "(c)");
    (0x00AE, cp "(R)");
    (0x2122, cp "(TM)");
    (0x00B0, cp " degrees");
    (0x03BC, cp "u");
    (0x03B1, cp "alpha");
    (0x03B2, cp "beta");
    (0x0394, cp "Delta")
  ].

Definition ligatures : list (N * pystr) :=
  [ (0xFB00, cp "ff"); (0xFB01, cp "fi"); (0xFB02, cp "fl");
    (0xFB03, cp "ffi"); (0xFB04, cp "ffl"); (0xFB05, cp "st");
    (0xFB06, cp "st"); (0x0153, cp "oe"); (0x0152, cp "OE");
    (0x00E6, cp "ae"); (0x00C6, cp "AE") ].

(** [text.replace(old, new)] for a one-character [old]. *)
Definition replace_char (old : N) (new : pystr) (text : pystr) : pystr :=
  flat_map (fun c => if c =? old then new else [c]) text.

(** [for old, new in table.items(): text = text.replace(old, new)]. *)
Definition replace_all (table : list (N * pystr)) (text : pystr) : pystr :=
  fold_left (fun t on => replace_char (fst on) (snd on) t) table text.

(** The class [[\x00-\x08\x0B\x0C\x0E-\x1F\x7F-\x9F]]. *)
Definition is_control (c : N) : bool :=
  (c <=? 0x08) || (c =? 0x0B) || (c =? 0x0C)
  || ((0x0E <=? c) && (c <=? 0x1F)) || ((0x7F <=? c) && (c <=? 0x9F)).

(** Python's Unicode white space: [\s] of [re] and what [str.strip]
    removes. *)
Definition isspace (c : N) : bool :=
  ((0x09 <=? c) && (c <=? 0x0D)) || ((0x1C <=? c) && (c <=? 0x20))
  || (c =? 0x85) || (c =? 0xA0) || (c =? 0x1680)
  || ((0x2000 <=? c) && (c <=? 0x200A))
  || (c =? 0x2028) || (c =? 0x2029) || (c =? 0x202F)
  || (c =? 0x205F) || (c =? 0x3000).

(** [re.sub(r'\s+', ' ', text)]: [in_run] tells that the previous
    character was white space. *)
Fixpoint collapse_spaces (in_run : bool) (text : pystr) : pystr :=
  match text with
  | [] => []
  | c :: r =>
      if isspace c
      then if in_run then collapse_spaces true r
           else 32 :: collapse_spaces true r
      else c :: collapse_spaces false r
  end.

Fixpoint lstrip (text : pystr) : pystr :=
  match text with
  | [] => []
  | c :: r => if isspace c then lstrip r else text
  end.

Fixpoint rstrip (text : pystr) : pystr :=
  match text with
  | [] => []
  | c :: r =>
      match rstrip r with
      | [] => if isspace c then [] else [c]
      | r' => c :: r'
      end
  end.

(** [text.strip()]. *)
Definition strip (text : pystr) : pystr := rstrip (lstrip text).

(** The test of step 9 on one character. *)
Definition xml_safe (c : N) : bool :=
  ((32 <=? c) && (c <=? 126)) || ((160 <=? c) && (c <=? 255))
  || (c =? 10) || (c =? 13) || (c =? 9).

(** A surrogate code point, which [str.encode('utf-8')] refuses. *)
Definition is_surrogate (c : N) : bool := (0xD800 <=? c) && (c <=? 0xDFFF).

Section Sanitizer.

(** [ftfy.fix_text], [unicodedata.normalize('NFC', _)] and [html.unescape]:
    [None] when the call raises. *)
Variable ftfy_fix_text : pystr -> option pystr.
Variable unicodedata_normalize_NFC : pystr -> option pystr.
Variable html_unescape : pystr -> option pystr.

(** The class [\w] of [re] on Unicode strings. *)
Variable re_word : N -> bool.

(** [try: text = f(text) except: pass]. *)
Definition try_pass (f : pystr -> option pystr) (text : pystr) : pystr :=
  match f text with
  | Some t => t
  | None => text
  end.

(** [re.sub(r'\bC\b', new, text)] for one literal character [C]:
    [prev_word] tells that the previous character is a word character;
    the ends of the text count as non-word. *)
Fixpoint sub_bounded (ch : N) (new : pystr) (prev_word : bool)
  (text : pystr) : pystr :=
  match text with
  | [] => []
  | c :: r =>
      let next_word := match r with
                       | [] => false
                       | n :: _ => re_word n
                       end in
      (if (c =? ch) && xorb prev_word (re_word c)
          && xorb (re_word c) next_word
       then new else [c])
      ++ sub_bounded ch new (re_word c) r
  end.

(** Step 7, for a context other than ['title']. *)
Definition ocr_fixes (text : pystr) : pystr :=
  let text := sub_bounded 108 (cp "1") false text in
  let text := sub_bounded 79 (cp "0") false text in
  let text := replace_char 0xFB01 (cp "fi") text in
  replace_char 0xFB02 (cp "fl") text.

(** Step 9. *)
Definition xml_clean (text : pystr) : pystr :=
  map (fun char => if xml_safe char then char else 32) text.

(** [sanitize(text, context)].  [text] is a string or [None]; the result
    is the returned string, or the exception that step 10 lets through
    ([str.encode] raises [UnicodeEncodeError], which the handler for
    [UnicodeDecodeError] does not catch). *)
Definition sanitize (text : option pystr) (context : string) : exc pystr :=
  match text with
  | None => Return []
  | Some [] => Return []
  | Some text =>
      let text := try_pass ftfy_fix_text text in
      let text := try_pass unicodedata_normalize_NFC text in
      let text := try_pass html_unescape text in
      let text := replace_all replacements text in
      let text := filter (fun c => negb (is_control c)) text in
      let text := replace_all ligatures text in
      let text := if String.eqb context "title" then text
                  else ocr_fixes text in
      let text := collapse_spaces false text in
      let text := strip text in
      let text := if String.eqb context "title"
                     || String.eqb context "content"
                  then xml_clean text else text in
      if existsb is_surrogate text
      then Raise "UnicodeEncodeError"
      else Return text
  end.

(** [sanitize_for_filename]. *)
Definition sanitize_for_filename (text : option pystr) : exc pystr :=
  bind (sanitize text "title") (fun text =>
    let invalid_chars := [60; 62; 58; 34; 47; 92; 124; 63; 42] in
    let text := replace_all (map (fun c => (c, [95])) invalid_chars) text in
    let text := firstn 200 text in
    let fix strip_end (t : pystr) : pystr :=
      match t with
      | [] => []
      | c :: r =>
          match strip_end r with
          | [] => if (c =? 46) || (c =? 32) then [] else [c]
          | r' => c :: r'
          end
      end in
    Return (strip_end text)).

End Sanitizer.
End UniversalTextSanitizer.

(* ================================================================== *)
(** * Properties *)

(** Checks of the string operations on the texts the merge pass meets. *)
Module PyStrExamples.
Local Open Scope string_scope.

Example lower_caption :
  PyStr.lower "Table 3 (Continued)" = "table 3 (continued)".
Proof. reflexivity. Qed.

Example contains_marker :
  PyStr.contains "cont'd" "table 3 (cont'd)" = true.
Proof. reflexivity. Qed.

Example replace_continued :
  PyStr.replace "continued" "" "Table 3 continued" = "Table 3 ".
Proof. reflexivity. Qed.

Example replace_twice :
  PyStr.replace "ab" "x" "abcabab" = "xcxx".
Proof. reflexivity. Qed.

Example strip_both : PyStr.strip "  Table 3. " = "Table 3.".
Proof. reflexivity. Qed.

Example title_word : PyStr.title "table" = "Table".
Proof. reflexivity. Qed.

Example str_of_twelve : PyStr.str_of_nat 12 = "12".
Proof. reflexivity. Qed.

End PyStrExamples.

(** ** Facts about the rational comparisons *)

Module QBFacts.
Import QB.
Local Open Scope Q_scope.

Lemma ltb_lt x y : ltb x y = true <-> x < y.
Proof.
  unfold ltb. rewrite negb_true_iff, <- not_true_iff_false, Qle_bool_iff.
  split; [apply Qnot_le_lt | apply Qlt_not_le].
Qed.

Lemma ltb_ge x y : ltb x y = false <-> y <= x.
Proof.
  unfold ltb. rewrite negb_false_iff. apply Qle_bool_iff.
Qed.

Lemma gtb_gt x y : gtb x y = true <-> y < x.
Proof. apply ltb_lt. Qed.

Lemma gtb_le x y : gtb x y = false <-> x <= y.
Proof. apply ltb_ge. Qed.

Lemma leb_le x y : leb x y = true <-> x <= y.
Proof. apply Qle_bool_iff. Qed.

Lemma geb_ge x y : geb x y = true <-> y <= x.
Proof. apply Qle_bool_iff. Qed.

Lemma min_list_le_acc l : forall x, min_list x l <= x.
Proof.
  induction l as [|y l IH]; intros x; simpl.
  - apply Qle_refl.
  - eapply Qle_trans; [apply IH | apply Q.le_min_l].
Qed.

Lemma min_list_lower l : forall x y, In y (x :: l) -> min_list x l <= y.
Proof.
  induction l as [|z l IH]; intros x y Hin; simpl.
  - destruct Hin as [<- | []]. apply Qle_refl.
  - destruct Hin as [<- | [<- | Hin]].
    + eapply Qle_trans; [apply min_list_le_acc | apply Q.le_min_l].
    + eapply Qle_trans; [apply min_list_le_acc | apply Q.le_min_r].
    + apply IH. now right.
Qed.

Lemma Qmin_either x y : Qmin x y = x \/ Qmin x y = y.
Proof.
  unfold Qmin, GenericMinMax.gmin. destruct (x ?= y); auto.
Qed.

Lemma Qmax_either x y : Qmax x y = x \/ Qmax x y = y.
Proof.
  unfold Qmax, GenericMinMax.gmax. destruct (x ?= y); auto.
Qed.

Lemma min_list_In l : forall x, In (min_list x l) (x :: l).
Proof.
  induction l as [|z l IH]; intros x.
  - now left.
  - change (min_list x (z :: l)) with (min_list (Qmin x z) l).
    destruct (IH (Qmin x z)) as [H | H].
    + rewrite <- H. destruct (Qmin_either x z) as [-> | ->];
        [now left | right; now left].
    + right. now right.
Qed.

Lemma max_list_ge_acc l : forall x, x <= max_list x l.
Proof.
  induction l as [|y l IH]; intros x; simpl.
  - apply Qle_refl.
  - eapply Qle_trans; [apply Q.le_max_l | apply IH].
Qed.

Lemma max_list_upper l : forall x y, In y (x :: l) -> y <= max_list x l.
Proof.
  induction l as [|z l IH]; intros x y Hin; simpl.
  - destruct Hin as [<- | []]. apply Qle_refl.
  - destruct Hin as [<- | [<- | Hin]].
    + eapply Qle_trans; [apply Q.le_max_l | apply max_list_ge_acc].
    + eapply Qle_trans; [apply Q.le_max_r | apply max_list_ge_acc].
    + apply IH. now right.
Qed.

Lemma max_list_In l : forall x, In (max_list x l) (x :: l).
Proof.
  induction l as [|z l IH]; intros x.
  - now left.
  - change (max_list x (z :: l)) with (max_list (Qmax x z) l).
    destruct (IH (Qmax x z)) as [H | H].
    + rewrite <- H. destruct (Qmax_either x z) as [-> | ->];
        [now left | right; now left].
    + right. now right.
Qed.


End QBFacts.

(** ** The nearest-caption rule of [_find_nearest_caption] *)

Module NearestCaption.
Import QB QBFacts PDFFigures2Python.
Local Open Scope Q_scope.

(** The caption starts within 100 units of the element's left edge. *)
Definition aligned (figure_bbox : BoundingBox) (c : Caption) : Prop :=
  Qabs (x1 (cbbox c) - x1 figure_bbox) <= 100.

(** The vertical gap between an element and a caption. *)
Definition gap (figure_bbox : BoundingBox) (c : Caption) : Q :=
  vertical_distance figure_bbox (cbbox c).

(** A caption candidate qualifies for an element. *)
Definition qualifies (figure_bbox : BoundingBox) (c : Caption) : Prop :=
  aligned figure_bbox c /\ gap figure_bbox c < 100.

(** [c] is the qualifying caption of [captions] with the least gap, the
    earliest one among those with that gap. *)
Definition nearest_in (figure_bbox : BoundingBox) (captions : list Caption)
  (c : Caption) : Prop :=
  qualifies figure_bbox c /\
  exists before after,
    captions = before ++ c :: after /\
    (forall c', In c' before -> qualifies figure_bbox c' ->
                gap figure_bbox c < gap figure_bbox c') /\
    (forall c', In c' after -> qualifies figure_bbox c' ->
                gap figure_bbox c <= gap figure_bbox c').

(** What the loop has established after the captions [seen]. *)
Definition nearest_inv (figure_bbox : BoundingBox) (seen : list Caption)
  (st : nearest_state) : Prop :=
  match best_caption st, best_distance st with
  | None, None => forall c, In c seen -> ~ qualifies figure_bbox c
  | Some c, Some d => d = gap figure_bbox c /\ nearest_in figure_bbox seen c
  | _, _ => False
  end.

Lemma gap_nonneg fb c : 0 <= gap fb c.
Proof.
  unfold gap, vertical_distance.
  destruct (gtb _ _) eqn:E1.
  - apply gtb_gt in E1. lra.
  - destruct (ltb _ _) eqn:E2.
    + apply ltb_lt in E2. lra.
    + lra.
Qed.

Lemma nearest_step_inv fb seen st c :
  nearest_inv fb seen st ->
  nearest_inv fb (seen ++ [c]) (nearest_step fb st c).
Proof.
  unfold nearest_inv, nearest_step. intros Hinv.
  destruct (gtb (Qabs (x1 (cbbox c) - x1 fb)) 100) eqn:Ealign.
  - (* not aligned: skipped *)
    apply gtb_gt in Ealign.
    assert (Hnq : ~ qualifies fb c).
    { intros [Ha _]. unfold aligned in Ha. lra. }
    destruct (best_caption st) as [b|], (best_distance st) as [d|];
      try contradiction.
    + destruct Hinv as [Hd [Hq (l1 & l2 & Hs & H1 & H2)]].
      split; [exact Hd|]. split; [exact Hq|].
      exists l1, (l2 ++ [c]). split.
      * rewrite Hs, <- app_assoc. reflexivity.
      * split; [exact H1|]. intros c' Hin Hq'.
        apply in_app_iff in Hin. destruct Hin as [Hin | [<- | []]].
        -- now apply H2.
        -- contradiction.
    + intros c' Hin. apply in_app_iff in Hin.
      destruct Hin as [Hin | [<- | []]]; [now apply Hinv | exact Hnq].
  - apply gtb_le in Ealign.
    destruct (lt_best (vertical_distance fb (cbbox c)) (best_distance st)
              && ltb (vertical_distance fb (cbbox c)) 100) eqn:Etake.
    + (* the caption becomes the best one *)
      apply andb_true_iff in Etake. destruct Etake as [Elt Enear].
      apply ltb_lt in Enear. cbn [best_caption best_distance].
      split; [reflexivity|].
      assert (Hq : qualifies fb c) by (split; assumption).
      split; [exact Hq|].
      exists seen, []. split; [reflexivity|]. split; [|intros ? []].
      intros c' Hin Hq'.
      destruct (best_caption st) as [b|], (best_distance st) as [d|];
        try contradiction.
      * destruct Hinv as [Hd [Hqb (l1 & l2 & Hs & H1 & H2)]].
        cbn [lt_best] in Elt. apply ltb_lt in Elt. fold (gap fb c) in Elt.
        subst seen d. apply in_app_iff in Hin.
        destruct Hin as [Hin | [<- | Hin]].
        -- specialize (H1 _ Hin Hq'). lra.
        -- exact Elt.
        -- specialize (H2 _ Hin Hq'). lra.
      * exfalso. exact (Hinv _ Hin Hq').
    + (* the caption does not improve on the best one *)
      apply andb_false_iff in Etake.
      destruct (best_caption st) as [b|], (best_distance st) as [d|];
        try contradiction.
      * destruct Hinv as [Hd [Hqb (l1 & l2 & Hs & H1 & H2)]].
        split; [exact Hd|]. split; [exact Hqb|].
        exists l1, (l2 ++ [c]). split.
        -- rewrite Hs, <- app_assoc. reflexivity.
        -- split; [exact H1|]. intros c' Hin Hq'.
           apply in_app_iff in Hin. destruct Hin as [Hin | [<- | []]].
           ++ now apply H2.
           ++ destruct Etake as [E | E].
              ** cbn [lt_best] in E. apply ltb_ge in E.
                 fold (gap fb c) in E. subst d. exact E.
              ** apply ltb_ge in E. destruct Hq' as [_ Hq'].
                 unfold gap in Hq'. lra.
      * intros c' Hin. apply in_app_iff in Hin.
        destruct Hin as [Hin | [<- | []]]; [now apply Hinv|].
        intros [_ Hq']. destruct Etake as [E | E].
        -- cbn [lt_best] in E. discriminate.
        -- apply ltb_ge in E. unfold gap in Hq'. lra.
Qed.

Lemma nearest_fold_inv fb cs : forall seen st,
  nearest_inv fb seen st ->
  nearest_inv fb (seen ++ cs) (fold_left (nearest_step fb) cs st).
Proof.
  induction cs as [|c cs IH]; intros seen st Hinv; simpl.
  - now rewrite app_nil_r.
  - replace (seen ++ c :: cs) with ((seen ++ [c]) ++ cs)
      by (rewrite <- app_assoc; reflexivity).
    apply IH, nearest_step_inv, Hinv.
Qed.

(** The result of [_find_nearest_caption], characterised. *)
Lemma find_nearest_caption_spec fb captions :
  match _find_nearest_caption fb captions with
  | Some c => nearest_in fb captions c
  | None => forall c, In c captions -> ~ qualifies fb c
  end.
Proof.
  unfold _find_nearest_caption.
  pose proof (@nearest_fold_inv fb captions [] (mkNearest None None)) as H.
  simpl app in H. unfold nearest_inv at 2 in H.
  specialize (H ltac:(cbn; intros ? [])).
  destruct (best_caption _) as [b|], (best_distance _) as [d|];
    try contradiction.
  - apply H.
  - exact H.
Qed.

End NearestCaption.

(** ** The image loop of [_extract_images] *)

Module ImageLoop.
Import QB QBFacts PDFFigures2Python NearestCaption.
Local Open Scope Q_scope.

(** The bounding box the loop builds from a placement rectangle. *)
Definition placement (rect : fitz.Rect) : BoundingBox :=
  mkBoundingBox (fitz.x0 rect) (fitz.y0 rect) (fitz.x1 rect) (fitz.y1 rect).

(** An image passes the size thresholds of the loop. *)
Definition passes (img : fitz.Image) (rect : fitz.Rect) : Prop :=
  (exists more, fitz.image_rects img = rect :: more) /\
  10000 <= area (placement rect) /\
  (100 <= fitz.pix_width img)%Z /\ (100 <= fitz.pix_height img)%Z.

(** An image is skipped by the loop. *)
Definition skipped (img : fitz.Image) : Prop :=
  fitz.image_rects img = [] \/
  (exists rect more, fitz.image_rects img = rect :: more /\
                     area (placement rect) < 10000) \/
  (fitz.pix_width img < 100)%Z \/ (fitz.pix_height img < 100)%Z.

(** The figure built for an image at position [img_index]. *)
Definition image_figure (re_match : bool -> string -> string -> option string)
  (page : fitz.Page) (captions : list Caption) (page_num img_index : nat)
  (img : fitz.Image) (rect : fitz.Rect) : Figure :=
  let data := Some (data_uri (fitz.png_base64 img)) in
  match _find_nearest_caption (placement rect) captions with
  | Some c =>
      mkFigure (ctype c) (PyStr.strip (cmatch c))
               (_extract_full_caption re_match page c)
               page_num (placement rect) data
  | None =>
      mkFigure "Figure"
               ("Figure " ++ PyStr.str_of_nat (img_index + 1))%string
               "" page_num (placement rect) data
  end.

Section Facts.
Variable re_match : bool -> string -> string -> option string.
Variable page : fitz.Page.
Variable captions : list Caption.
Variable page_num : nat.

Let loop := extract_images_from re_match page captions page_num.

Lemma loop_passes k img rect rest :
  passes img rect ->
  loop k (img :: rest)
  = image_figure re_match page captions page_num k img rect
    :: loop (S k) rest.
Proof.
  intros [[more Hr] [Ha [Hw Hh]]].
  unfold loop, image_figure. cbn [extract_images_from]. rewrite Hr.
  fold (placement rect).
  replace (ltb (area (placement rect)) 10000) with false
    by (symmetry; apply ltb_ge; exact Ha).
  replace (fitz.pix_width img <? 100)%Z with false
    by (symmetry; apply Z.ltb_ge; exact Hw).
  replace (fitz.pix_height img <? 100)%Z with false
    by (symmetry; apply Z.ltb_ge; exact Hh).
  cbn [orb].
  destruct (_find_nearest_caption (placement rect) captions); reflexivity.
Qed.

Lemma loop_skipped k img rest :
  skipped img -> loop k (img :: rest) = loop (S k) rest.
Proof.
  unfold loop. cbn [extract_images_from].
  intros [Hnone | [(rect & more & Hr & Ha) | Hpix]].
  - now rewrite Hnone.
  - rewrite Hr. fold (placement rect).
    apply ltb_lt in Ha. now rewrite Ha.
  - destruct (fitz.image_rects img) as [|rect more]; [reflexivity|].
    destruct (ltb _ _); [reflexivity|].
    replace ((fitz.pix_width img <? 100)%Z || (fitz.pix_height img <? 100)%Z)
      with true; [reflexivity|].
    symmetry. apply orb_true_iff.
    destruct Hpix as [H | H]; [left | right]; now apply Z.ltb_lt.
Qed.

Lemma loop_app l1 : forall k l2,
  loop k (l1 ++ l2) = loop k l1 ++ loop (k + List.length l1) l2.
Proof.
  unfold loop.
  induction l1 as [|img l1 IH]; intros k l2.
  - simpl. now rewrite Nat.add_0_r.
  - cbn [app extract_images_from List.length].
    replace (k + S (List.length l1))%nat with (S k + List.length l1)%nat
      by lia.
    destruct (fitz.image_rects img) as [|rect more]; [apply IH|].
    destruct (ltb _ _); [apply IH|].
    destruct (_ || _); [apply IH|].
    destruct (_find_nearest_caption _ _);
      cbn [app]; f_equal; apply IH.
Qed.

Lemma loop_nth l : forall start k img rect,
  nth_error l k = Some img ->
  passes img rect ->
  In (image_figure re_match page captions page_num (start + k) img rect)
     (loop start l).
Proof.
  intros start k img rect Hnth Hp.
  destruct (nth_error_split l k Hnth) as (l1 & l2 & -> & Hlen).
  rewrite loop_app, Hlen, (loop_passes _ _ Hp).
  apply in_or_app. right. now left.
Qed.

End Facts.
End ImageLoop.

(** ** Example page used to exercise the image rules *)

Module Examples.
Import PDFFigures2Python.
Local Open Scope Q_scope.
Local Open Scope string_scope.

(** A regular-expression engine that never matches. *)
Definition no_match (ignorecase : bool) (pattern text : string)
  : option string := None.

Definition no_render (page : fitz.Page) (zoom : Q) (clip : fitz.Rect)
  : string := "".

(** A 200 x 150 photograph with a 400 x 300 pixmap. *)
Definition photo_rect : fitz.Rect := fitz.mkRect 72 100 272 250.
Definition photo : fitz.Image :=
  fitz.mkImage 7 [photo_rect] photo_rect 400 300 "UE5H".

(** A 50 x 50 icon, although its pixmap is 200 x 200 pixels. *)
Definition icon_rect : fitz.Rect := fitz.mkRect 72 300 122 350.
Definition icon : fitz.Image :=
  fitz.mkImage 9 [icon_rect] icon_rect 200 200 "aWNvbg==".

(** A large placement whose pixmap is only 80 pixels wide. *)
Definition thumb_rect : fitz.Rect := fitz.mkRect 300 100 500 300.
Definition thumb : fitz.Image :=
  fitz.mkImage 11 [thumb_rect] thumb_rect 80 300 "dGh1bWI=".

(** Two captions under the photograph, 30 and 10 units below it, and one
    far to the right. *)
Definition cap_far : Caption :=
  mkCaption "Figure" "Figure 2. Far" (mkBoundingBox 80 280 260 292)
            "Figure 2. ".
Definition cap_near : Caption :=
  mkCaption "Figure" "Figure 1. Near" (mkBoundingBox 72 260 260 272)
            "Figure 1. ".
Definition cap_aside : Caption :=
  mkCaption "Table" "Table 1. Aside" (mkBoundingBox 400 255 500 265)
            "Table 1. ".

Definition captions : list Caption := [cap_far; cap_near; cap_aside].

Definition page_of (imgs : list fitz.Image) : fitz.Page :=
  fitz.mkPage [] "" imgs [] (fitz.mkRect 0 0 612 792).

End Examples.

(** C1.  For an image of the page that passes the size thresholds of
    [_extract_images] (a placement rectangle of area at least 10000 and a
    pixmap at least 100 pixels wide and high), the caption is chosen by
    [_find_nearest_caption] among the candidates whose start x differs from
    the image's x1 by at most 100 and whose vertical gap (0 on vertical
    overlap) is strictly below 100: the chosen one qualifies, has a gap
    strictly smaller than every qualifying candidate scanned before it and
    at most that of every qualifying candidate scanned after it, and the
    image is emitted with that caption's type, name and text; a candidate
    is chosen whenever one qualifies; and when none qualifies the image is
    emitted as type Figure with empty caption and the name
    [Figure <index + 1>]. *)
Theorem C1_image_caption_rule
  (re_match : bool -> string -> string -> option string)
  (page : fitz.Page) (captions : list PDFFigures2Python.Caption)
  (page_num k : nat) (img : fitz.Image) (rect : fitz.Rect) :
  nth_error (fitz.images page) k = Some img ->
  ImageLoop.passes img rect ->
  let b := ImageLoop.placement rect in
  let data := Some (PDFFigures2Python.data_uri (fitz.png_base64 img)) in
  let out := PDFFigures2Python._extract_images re_match page captions
                                               page_num in
  (forall c,
      PDFFigures2Python._find_nearest_caption b captions = Some c ->
      NearestCaption.nearest_in b captions c /\
      In (mkFigure (PDFFigures2Python.ctype c)
                   (PyStr.strip (PDFFigures2Python.cmatch c))
                   (PDFFigures2Python._extract_full_caption re_match page c)
                   page_num b data) out) /\
  ((exists c, In c captions /\ NearestCaption.qualifies b c) ->
   exists c, PDFFigures2Python._find_nearest_caption b captions = Some c) /\
  ((forall c, In c captions -> ~ NearestCaption.qualifies b c) ->
   PDFFigures2Python._find_nearest_caption b captions = None /\
   In (mkFigure "Figure" ("Figure " ++ PyStr.str_of_nat (k + 1))%string ""
                page_num b data) out).
Proof.
  intros Hnth Hp b data out.
  pose proof (NearestCaption.find_nearest_caption_spec b captions) as Hspec.
  pose proof (ImageLoop.loop_nth re_match page captions page_num
                (fitz.images page) 0 k Hnth Hp) as Hin.
  cbn [Nat.add] in Hin. unfold ImageLoop.image_figure in Hin.
  fold b in Hin. fold data in Hin.
  change (PDFFigures2Python.extract_images_from re_match page captions
            page_num 0 (fitz.images page)) with out in Hin.
  destruct (PDFFigures2Python._find_nearest_caption b captions) as [c0|].
  - split; [|split].
    + intros c [= <-]. split; assumption.
    + intros _. now exists c0.
    + intros Hnone. exfalso.
      destruct Hspec as [Hq (l1 & l2 & -> & _)].
      apply (Hnone c0); [apply in_or_app; right; now left | exact Hq].
  - split; [|split].
    + intros c [=].
    + intros (c & Hc & Hq). exfalso. exact (Hspec c Hc Hq).
    + intros _. split; [reflexivity | exact Hin].
Qed.

(** C1 on the example page: of the two qualifying captions under the
    photograph the nearer one, scanned second, is chosen. *)
Lemma C1_image_caption_rule_witness :
  PDFFigures2Python._find_nearest_caption
    (ImageLoop.placement Examples.photo_rect) Examples.captions
  = Some Examples.cap_near /\
  In (mkFigure "Figure" "Figure 1." "Figure 1. Near" 0
               (ImageLoop.placement Examples.photo_rect)
               (Some "data:image/png;base64,UE5H"%string))
     (PDFFigures2Python._extract_images Examples.no_match
        (Examples.page_of [Examples.icon; Examples.photo])
        Examples.captions 0).
Proof.
  assert (Hp : ImageLoop.passes Examples.photo Examples.photo_rect).
  { split; [exists []; reflexivity|].
    split; [vm_compute; discriminate|].
    split; vm_compute; discriminate. }
  destruct (C1_image_caption_rule Examples.no_match
              (Examples.page_of [Examples.icon; Examples.photo])
              Examples.captions 0 1 eq_refl Hp) as [Hsome _].
  split; [reflexivity|].
  exact (proj2 (Hsome Examples.cap_near eq_refl)).
Defined.

(** C3.  In [pdffigures2-python.py] an image whose placement rectangle has
    an area below 10000 square units (a 50 x 50 image, say), or whose
    pixmap is narrower or shorter than 100 pixels, contributes no record:
    whatever the captions are, the output of [_extract_images] is made of
    the records of the images before it and of those after it.  In
    [pymupdf-extractor.py] an image whose pixmap is narrower or shorter
    than 100 pixels contributes no record to the records of its page. *)
Theorem C3_small_images_excluded
  (re_match : bool -> string -> string -> option string)
  (re_finditer : string -> string -> list (string * nat * nat))
  (pil_base64 : fitz.Image -> string)
  (crop_base64 : fitz.Page -> Q -> fitz.Rect -> string)
  (page : fitz.Page) (captions : list PDFFigures2Python.Caption)
  (page_num : nat) (before after : list fitz.Image) (img : fitz.Image) :
  fitz.images page = before ++ img :: after ->
  ((exists rect more,
       fitz.image_rects img = rect :: more /\
       (PDFFigures2Python.area (ImageLoop.placement rect) < 10000)%Q) \/
   (fitz.pix_width img < 100)%Z \/ (fitz.pix_height img < 100)%Z ->
   PDFFigures2Python._extract_images re_match page captions page_num
   = PDFFigures2Python.extract_images_from re_match page captions page_num
       0 before
     ++ PDFFigures2Python.extract_images_from re_match page captions page_num
          (S (List.length before)) after) /\
  ((fitz.pix_width img < 100)%Z \/ (fitz.pix_height img < 100)%Z ->
   let tables_found :=
     PyMuPDFExtractor.find_elements re_finditer (fitz.page_text page)
       PyMuPDFExtractor.table_keywords "table" in
   let figures_found :=
     PyMuPDFExtractor.find_elements re_finditer (fitz.page_text page)
       PyMuPDFExtractor.figure_keywords "figure" in
   let record :=
     PyMuPDFExtractor.image_record pil_base64 tables_found figures_found
       page_num in
   PyMuPDFExtractor.page_records re_finditer pil_base64 crop_base64 page
     page_num
   = flat_map record before ++ flat_map record after
     ++ flat_map (PyMuPDFExtractor.drawing_record crop_base64 page page_num)
          (fitz.drawings page)).
Proof.
  intros Himgs. split.
  - intros Hsmall.
    unfold PDFFigures2Python._extract_images. rewrite Himgs.
    rewrite ImageLoop.loop_app. f_equal. cbn [Nat.add].
    apply ImageLoop.loop_skipped. right. exact Hsmall.
  - intros Hpix tables_found figures_found record.
    unfold PyMuPDFExtractor.page_records. rewrite Himgs.
    fold tables_found. fold figures_found. fold record.
    rewrite flat_map_app. cbn [flat_map].
    assert (Hnil : record img = []).
    { unfold record, PyMuPDFExtractor.image_record.
      replace ((fitz.pix_width img <? 100)%Z
               || (fitz.pix_height img <? 100)%Z) with true; [reflexivity|].
      symmetry. apply orb_true_iff.
      destruct Hpix as [H | H]; [left | right]; now apply Z.ltb_lt. }
    rewrite Hnil. cbn [app]. now rewrite <- app_assoc.
Qed.

(** C3 on the example page: the 50 x 50 icon and the image with an
    80-pixel pixmap leave no record. *)
Lemma C3_small_images_excluded_witness :
  PDFFigures2Python._extract_images Examples.no_match
    (Examples.page_of [Examples.photo; Examples.icon; Examples.thumb])
    Examples.captions 0
  = PDFFigures2Python.extract_images_from Examples.no_match
      (Examples.page_of [Examples.photo; Examples.icon; Examples.thumb])
      Examples.captions 0 0 [Examples.photo]
    ++ PDFFigures2Python.extract_images_from Examples.no_match
         (Examples.page_of [Examples.photo; Examples.icon; Examples.thumb])
         Examples.captions 0 2 [Examples.thumb]
  /\
  PyMuPDFExtractor.page_records (fun _ _ => []) (fun _ => "cG5n"%string)
    (fun _ _ _ => ""%string)
    (Examples.page_of [Examples.photo; Examples.thumb]) 0
  = flat_map (PyMuPDFExtractor.image_record (fun _ => "cG5n"%string) [] [] 0)
      [Examples.photo].
Proof.
  split.
  - refine (proj1 (C3_small_images_excluded Examples.no_match
                     (fun _ _ => []) (fun _ => ""%string)
                     (fun _ _ _ => ""%string)
                     (Examples.page_of
                        [Examples.photo; Examples.icon; Examples.thumb])
                     Examples.captions 0 [Examples.photo] [Examples.thumb]
                     Examples.icon eq_refl) _).
    left. exists Examples.icon_rect, []. split; [reflexivity|].
    vm_compute. reflexivity.
  - refine (proj2 (C3_small_images_excluded Examples.no_match
                     (fun _ _ => []) (fun _ => "cG5n"%string)
                     (fun _ _ _ => ""%string)
                     (Examples.page_of [Examples.photo; Examples.thumb])
                     Examples.captions 0 [Examples.photo] []
                     Examples.thumb eq_refl) _).
    left. vm_compute. reflexivity.
Defined.

(** ** Union bounding boxes *)

Module Union.
Import QB QBFacts.
Local Open Scope Q_scope.

(** [u] is the union bounding box of the boxes [bs]: it contains each of
    them and each of its four edges is the edge of one of them. *)
Definition union_of (u : BoundingBox) (bs : list BoundingBox) : Prop :=
  (forall b, In b bs ->
             x1 u <= x1 b /\ y1 u <= y1 b /\ x2 b <= x2 u /\ y2 b <= y2 u) /\
  (exists b, In b bs /\ x1 b = x1 u) /\
  (exists b, In b bs /\ y1 b = y1 u) /\
  (exists b, In b bs /\ x2 b = x2 u) /\
  (exists b, In b bs /\ y2 b = y2 u).

(** The union bounding box of a non-empty list of boxes, computed. *)
Definition union_bbox (b : BoundingBox) (bs : list BoundingBox)
  : BoundingBox :=
  mkBoundingBox (min_list (x1 b) (map x1 bs)) (min_list (y1 b) (map y1 bs))
                (max_list (x2 b) (map x2 bs)) (max_list (y2 b) (map y2 bs)).

Lemma in_map_cons {A} (f : A -> Q) b bs q :
  In q (f b :: map f bs) -> exists c, In c (b :: bs) /\ f c = q.
Proof.
  intros [<- | Hin].
  - exists b. split; [now left | reflexivity].
  - apply in_map_iff in Hin. destruct Hin as (c & <- & Hc).
    exists c. split; [now right | reflexivity].
Qed.

Lemma union_bbox_is_union b bs : union_of (union_bbox b bs) (b :: bs).
Proof.
  unfold union_of, union_bbox. cbn [x1 y1 x2 y2].
  split; [|split; [|split; [|split]]].
  - intros c Hc.
    assert (Hf : forall f : BoundingBox -> Q, In (f c) (f b :: map f bs)).
    { intros f. destruct Hc as [<- | Hc]; [now left|].
      right. now apply in_map. }
    repeat split.
    + apply min_list_lower, Hf.
    + apply min_list_lower, Hf.
    + apply max_list_upper, Hf.
    + apply max_list_upper, Hf.
  - apply in_map_cons, min_list_In.
  - apply in_map_cons, min_list_In.
  - apply in_map_cons, max_list_In.
  - apply in_map_cons, max_list_In.
Qed.

End Union.

(** ** The table search of [_extract_tables] *)

Module Tables.
Import QB QBFacts PDFFigures2Python.
Local Open Scope Q_scope.
Local Open Scope string_scope.

(** One text block 10 units under a caption, and one block elsewhere. *)
Definition caption : Caption :=
  mkCaption "Table" "Table 2. Outcomes" (mkBoundingBox 100 100 200 110)
            "Table 2. ".
Definition body : fitz.Block :=
  fitz.mkBlock 0 (fitz.mkRect 100 120 250 300) [].
Definition body2 : fitz.Block :=
  fitz.mkBlock 0 (fitz.mkRect 90 310 380 400) [].
Definition elsewhere : fitz.Block :=
  fitz.mkBlock 0 (fitz.mkRect 10 120 250 300) [].
Definition picture : fitz.Block :=
  fitz.mkBlock 1 (fitz.mkRect 100 120 250 300) [].
Definition blocks : list fitz.Block := [elsewhere; body; picture; body2].
Definition page : fitz.Page :=
  fitz.mkPage blocks "" [] [] (fitz.mkRect 0 0 612 792).

Lemma table_blocks_spec blocks cb b :
  In b (table_blocks blocks cb) <->
  In b blocks /\ fitz.block_type b = 0%Z /\
  x1 cb - 50 <= fitz.x0 (fitz.block_bbox b) /\
  y2 cb <= fitz.y0 (fitz.block_bbox b) /\
  fitz.x1 (fitz.block_bbox b) <= x2 cb + 200 /\
  fitz.y1 (fitz.block_bbox b) <= y2 cb + 500.
Proof.
  unfold table_blocks. rewrite filter_In.
  unfold _bbox_in_region, search_bbox, BoundingBox_of.
  cbn [x1 y1 x2 y2].
  rewrite !andb_true_iff, Z.eqb_eq, !geb_ge, !leb_le. tauto.
Qed.

End Tables.

(** C5, as stated, fails: for the caption of [Tables.caption] the blocks
    collected are [Tables.body] and [Tables.body2], whose union bounding
    box starts at y = 120, while the record emitted for the table starts
    at y = 100, the top of the caption. *)
Lemma C5_table_bbox_counterexample :
  exists f,
    PDFFigures2Python._extract_tables Examples.no_match Examples.no_render
      Tables.page Tables.blocks [Tables.caption] 0 = [f] /\
    PDFFigures2Python.table_blocks Tables.blocks
      (PDFFigures2Python.cbbox Tables.caption)
    = [Tables.body; Tables.body2] /\
    Union.union_of (mkBoundingBox 90 120 380 400)
      (map (fun b => PDFFigures2Python.BoundingBox_of (fitz.block_bbox b))
           [Tables.body; Tables.body2]) /\
    ~ (y1 (bbox f) == 120)%Q.
Proof.
  eexists. split; [reflexivity|]. split; [reflexivity|]. split.
  - exact (Union.union_bbox_is_union
             (PDFFigures2Python.BoundingBox_of (fitz.block_bbox Tables.body))
             [PDFFigures2Python.BoundingBox_of
                (fitz.block_bbox Tables.body2)]).
  - vm_compute. discriminate.
Qed.

(** C5, amended.  [_extract_tables] handles the captions of type Table
    one by one.  For such a caption the blocks collected are exactly the
    text blocks (type 0) of the page whose bounding box lies within the
    rectangle from 50 units left of the caption's x1 to 200 units right of
    its x2 and from its bottom edge y2 to 500 units below.  When none is
    collected no record is emitted for the caption; otherwise exactly one
    record of type Table is emitted, whose left, right and bottom edges
    are those of the union bounding box of the collected blocks and whose
    top edge is the top edge y1 of the caption. *)
Theorem C5_table_region
  (re_match : bool -> string -> string -> option string)
  (render_base64 : fitz.Page -> Q -> fitz.Rect -> string)
  (page : fitz.Page) (blocks : list fitz.Block)
  (captions : list PDFFigures2Python.Caption) (page_num : nat)
  (c : PDFFigures2Python.Caption) :
  let cb := PDFFigures2Python.cbbox c in
  let collected := PDFFigures2Python.table_blocks blocks cb in
  let emitted :=
    PDFFigures2Python.table_figure re_match render_base64 page blocks
      page_num c in
  PDFFigures2Python._extract_tables re_match render_base64 page blocks
    captions page_num
  = flat_map (PDFFigures2Python.table_figure re_match render_base64 page
                blocks page_num)
      (filter (fun c => String.eqb (PDFFigures2Python.ctype c) "Table")
              captions) /\
  (forall b,
      In b collected <->
      In b blocks /\ fitz.block_type b = 0%Z /\
      (x1 cb - 50 <= fitz.x0 (fitz.block_bbox b))%Q /\
      (y2 cb <= fitz.y0 (fitz.block_bbox b))%Q /\
      (fitz.x1 (fitz.block_bbox b) <= x2 cb + 200)%Q /\
      (fitz.y1 (fitz.block_bbox b) <= y2 cb + 500)%Q) /\
  match collected with
  | [] => emitted = []
  | _ :: _ =>
      exists f u,
        emitted = [f] /\ figure_type f = "Table"%string /\
        Union.union_of u
          (map (fun b => PDFFigures2Python.BoundingBox_of (fitz.block_bbox b))
               collected) /\
        x1 (bbox f) = x1 u /\ x2 (bbox f) = x2 u /\ y2 (bbox f) = y2 u /\
        y1 (bbox f) = y1 cb
  end.
Proof.
  intros cb collected emitted. split; [reflexivity|]. split.
  - intros b. apply Tables.table_blocks_spec.
  - unfold emitted, PDFFigures2Python.table_figure. fold cb. fold collected.
    destruct collected as [|b bs]; [reflexivity|].
    eexists. eexists. split; [reflexivity|]. split; [reflexivity|]. split.
    + cbn [map]. apply Union.union_bbox_is_union.
    + cbn [bbox x1 x2 y2 y1 Union.union_bbox]. rewrite !map_map.
      repeat split; reflexivity.
Qed.

(** ** The merge pass [_merge_multipage_elements] *)

Module Merge.
Import PDFFigures2Python.
Local Open Scope string_scope.

(** [fig.name.replace('continued', '').strip()]. *)
Definition target_name (fig : Figure) : string :=
  PyStr.strip (PyStr.replace "continued" "" (name fig)).

(** The position of the record into which the record at position [i] is
    merged, if it is merged. *)
Definition original_of (figures : list Figure) (i : nat) : option nat :=
  match nth_error figures i with
  | Some fig =>
      if is_continuation (caption fig)
      then find_original figures (target_name fig) i
      else None
  | None => None
  end.

(** The record at position [i] is dropped from the output. *)
Definition dropped (figures : list Figure) (i : nat) : bool :=
  match original_of figures i with
  | Some _ => true
  | None => false
  end.

Definition caption_at (figures : list Figure) (m : nat) : string :=
  match nth_error figures m with
  | Some g => caption g
  | None => ""
  end.

(** The text appended for the continuation records at positions [ms]:
    for each one a space and its caption. *)
Definition appended (figures : list Figure) (ms : list nat) : string :=
  fold_right (fun m acc => " " ++ caption_at figures m ++ acc) "" ms.

Definition merges_into (figures : list Figure) (k m : nat) : bool :=
  match original_of figures m with
  | Some j => Nat.eqb j k
  | None => false
  end.

(** The positions below [bound] of the records merged into the record at
    position [k], in increasing order. *)
Definition continuations_of (figures : list Figure) (k bound : nat)
  : list nat :=
  filter (merges_into figures k) (seq 0 bound).

(** The record at position [k] once the records below [bound] have been
    visited. *)
Definition final_figure (figures : list Figure) (bound k : nat) (f : Figure)
  : Figure :=
  set_caption f
    (caption f ++ appended figures (continuations_of figures k bound)).

(** The positions of the records that are kept. *)
Definition kept (figures : list Figure) : list nat :=
  filter (fun k => negb (dropped figures k))
         (seq 0 (List.length figures)).

(** The merge pass as a function of the input list alone. *)
Definition merge_spec (figures : list Figure) : list Figure :=
  flat_map (fun k => match nth_error figures k with
                     | Some f =>
                         [final_figure figures (List.length figures) k f]
                     | None => []
                     end)
           (kept figures).

(** What holds when the loop has visited the positions below [i]. *)
Record inv (figures : list Figure) (i : nat) (st : merge_state) : Prop := {
  inv_length : List.length (store st) = List.length figures;
  inv_store : forall k f, nth_error figures k = Some f ->
      nth_error (store st) k = Some (final_figure figures i k f);
  inv_skip : forall k,
      mem k (skip_indices st) = (k <? i)%nat && dropped figures k;
  inv_merged :
      merged st = filter (fun k => negb (dropped figures k)) (seq 0 i)
}.

Lemma append_assoc (a b c : string) : (a ++ b) ++ c = a ++ (b ++ c).
Proof. induction a as [|x a IH]; simpl; [reflexivity | now rewrite IH]. Qed.

Lemma append_empty_r (a : string) : a ++ "" = a.
Proof. induction a as [|x a IH]; simpl; [reflexivity | now rewrite IH]. Qed.

Lemma set_caption_same f : set_caption f (caption f) = f.
Proof. now destruct f. Qed.

Lemma find_original_lt figures t : forall i j,
  find_original figures t i = Some j -> (j < i)%nat.
Proof.
  induction i as [|i IH]; intros j H; simpl in H; [discriminate|].
  destruct (nth_error figures i) as [f|].
  - destruct (String.eqb (name f) t).
    + injection H as <-. lia.
    + specialize (IH _ H). lia.
  - specialize (IH _ H). lia.
Qed.

(** [find_original] returns the nearest position below [i] whose record
    has the name looked for. *)
Lemma find_original_spec figures t : forall i,
  match find_original figures t i with
  | Some j =>
      (j < i)%nat /\
      (exists f, nth_error figures j = Some f /\ name f = t) /\
      (forall k g, (j < k < i)%nat -> nth_error figures k = Some g ->
                   name g <> t)
  | None =>
      forall k g, (k < i)%nat -> nth_error figures k = Some g -> name g <> t
  end.
Proof.
  induction i as [|i IH]; simpl.
  - intros k g Hk. lia.
  - destruct (nth_error figures i) as [f|] eqn:Hf.
    + destruct (String.eqb (name f) t) eqn:He.
      * apply String.eqb_eq in He. split; [lia|]. split.
        -- now exists f.
        -- intros k g Hk. lia.
      * apply String.eqb_neq in He.
        destruct (find_original figures t i) as [j|].
        -- destruct IH as [Hj [Hex Hbetween]].
           split; [lia|]. split; [exact Hex|].
           intros k g Hk Hg.
           destruct (Nat.eq_dec k i) as [-> | Hne].
           ++ rewrite Hf in Hg. injection Hg as <-. exact He.
           ++ apply (Hbetween k g); [lia | exact Hg].
        -- intros k g Hk Hg.
           destruct (Nat.eq_dec k i) as [-> | Hne].
           ++ rewrite Hf in Hg. injection Hg as <-. exact He.
           ++ apply (IH k g); [lia | exact Hg].
    + destruct (find_original figures t i) as [j|].
      * destruct IH as [Hj [Hex Hbetween]].
        split; [lia|]. split; [exact Hex|].
        intros k g Hk Hg.
        destruct (Nat.eq_dec k i) as [-> | Hne].
        -- rewrite Hf in Hg. discriminate.
        -- apply (Hbetween k g); [lia | exact Hg].
      * intros k g Hk Hg.
        destruct (Nat.eq_dec k i) as [-> | Hne].
        -- rewrite Hf in Hg. discriminate.
        -- apply (IH k g); [lia | exact Hg].
Qed.

Lemma find_original_names l l' t : forall i,
  (forall k, (k < i)%nat ->
             option_map name (nth_error l k)
             = option_map name (nth_error l' k)) ->
  find_original l t i = find_original l' t i.
Proof.
  induction i as [|i IH]; intros H; simpl; [reflexivity|].
  pose proof (H i ltac:(lia)) as Hi.
  rewrite IH by (intros k Hk; apply H; lia).
  destruct (nth_error l i) as [f|], (nth_error l' i) as [f'|];
    simpl in Hi; try discriminate; [|reflexivity].
  injection Hi as ->. reflexivity.
Qed.

Lemma original_of_lt figures i j : original_of figures i = Some j -> (j < i)%nat.
Proof.
  unfold original_of. destruct (nth_error figures i) as [f|]; [|discriminate].
  destruct (is_continuation (caption f)); [|discriminate].
  apply find_original_lt.
Qed.

Lemma continuations_of_ge figures k i :
  (i <= k)%nat -> continuations_of figures k i = [].
Proof.
  intros Hik. unfold continuations_of.
  induction i as [|i IH]; [reflexivity|].
  rewrite seq_S, filter_app, IH by lia. cbn [Nat.add filter app].
  unfold merges_into. destruct (original_of figures i) as [j|] eqn:Ho;
    [|reflexivity].
  apply original_of_lt in Ho.
  replace (Nat.eqb j k) with false; [reflexivity|].
  symmetry. apply Nat.eqb_neq. lia.
Qed.

Lemma continuations_of_S figures k i :
  continuations_of figures k (S i)
  = (continuations_of figures k i
     ++ if merges_into figures k i then [i] else [])%list.
Proof.
  unfold continuations_of. rewrite seq_S, filter_app. cbn [Nat.add filter].
  now destruct (merges_into figures k i).
Qed.

Lemma appended_app figures ms ms' :
  appended figures (ms ++ ms') = appended figures ms ++ appended figures ms'.
Proof.
  induction ms as [|m ms IH]; [reflexivity|].
  cbn [app appended fold_right]. fold (appended figures (ms ++ ms')).
  fold (appended figures ms). rewrite IH.
  cbn [append]. f_equal. now rewrite append_assoc.
Qed.

Lemma final_figure_ge figures i k f :
  (i <= k)%nat -> final_figure figures i k f = f.
Proof.
  intros H. unfold final_figure. rewrite continuations_of_ge by exact H.
  cbn [appended fold_right]. rewrite append_empty_r. apply set_caption_same.
Qed.

Lemma append_caption_length l : forall j t,
  List.length (append_caption l j t) = List.length l.
Proof.
  induction l as [|f l IH]; intros [|j] t; simpl; auto.
Qed.

Lemma append_caption_eq l : forall j t f,
  nth_error l j = Some f ->
  nth_error (append_caption l j t) j
  = Some (set_caption f (caption f ++ " " ++ t)).
Proof.
  induction l as [|g l IH]; intros [|j] t f H; simpl in *; try discriminate.
  - now injection H as ->.
  - now apply IH.
Qed.

Lemma append_caption_ne l : forall j t k,
  k <> j -> nth_error (append_caption l j t) k = nth_error l k.
Proof.
  induction l as [|g l IH]; intros [|j] t [|k] H; simpl; try reflexivity.
  - contradiction.
  - apply IH. lia.
Qed.

Lemma inv_init figures : inv figures 0 (mkMerge figures [] []).
Proof.
  constructor; cbn [store merged skip_indices].
  - reflexivity.
  - intros k f Hk. rewrite final_figure_ge by lia. exact Hk.
  - intros k. reflexivity.
  - reflexivity.
Qed.

Lemma inv_names figures i st : inv figures i st ->
  forall k, option_map name (nth_error (store st) k)
            = option_map name (nth_error figures k).
Proof.
  intros Hinv k. destruct (nth_error figures k) as [f|] eqn:Hf.
  - rewrite (inv_store Hinv _ Hf). reflexivity.
  - apply nth_error_None in Hf. rewrite <- (inv_length Hinv) in Hf.
    apply nth_error_None in Hf. now rewrite Hf.
Qed.

Lemma inv_step figures i st :
  (i < List.length figures)%nat ->
  inv figures i st -> inv figures (S i) (merge_step st i).
Proof.
  intros Hi Hinv.
  destruct (nth_error figures i) as [fig|] eqn:Hfig;
    [|apply nth_error_None in Hfig; lia].
  assert (Hcur : nth_error (store st) i = Some fig).
  { rewrite (inv_store Hinv _ Hfig), final_figure_ge by lia. reflexivity. }
  assert (Hnoskip : mem i (skip_indices st) = false).
  { rewrite (inv_skip Hinv).
    replace (i <? i)%nat with false by (symmetry; apply Nat.ltb_ge; lia).
    reflexivity. }
  assert (Hfind : find_original (store st) (target_name fig) i
                  = find_original figures (target_name fig) i).
  { apply find_original_names. intros k _. apply (inv_names Hinv). }
  assert (Hltb : forall k, (k <? S i)%nat = Nat.eqb k i || (k <? i)%nat).
  { intros k. destruct (Nat.eqb_spec k i) as [-> | Hne]; cbn [orb].
    - apply Nat.ltb_lt. lia.
    - destruct (Nat.ltb_spec k i), (Nat.ltb_spec k (S i));
        reflexivity || lia. }
  unfold merge_step. rewrite Hnoskip, Hcur. fold (target_name fig).
  rewrite Hfind.
  assert (Horig : original_of figures i
                  = if is_continuation (caption fig)
                    then find_original figures (target_name fig) i
                    else None).
  { unfold original_of. now rewrite Hfig. }
  destruct (is_continuation (caption fig)
            && match find_original figures (target_name fig) i with
               | Some _ => true | None => false end) eqn:Hdrop.
  - (* the record is merged into an earlier one *)
    apply andb_true_iff in Hdrop. destruct Hdrop as [Hcont Hsome].
    rewrite Hcont in *.
    destruct (find_original figures (target_name fig) i) as [j|] eqn:Hj;
      [|discriminate].
    assert (Hji : (j < i)%nat) by (apply (find_original_lt _ _ _ Hj)).
    cbn [skip_indices store merged mem existsb].
    rewrite Nat.eqb_refl. cbn [orb].
    constructor; cbn [store merged skip_indices].
    + rewrite append_caption_length. apply (inv_length Hinv).
    + intros k f Hk. unfold final_figure.
      rewrite continuations_of_S. unfold merges_into. rewrite Horig.
      destruct (Nat.eqb_spec j k) as [-> | Hne].
      * rewrite (@append_caption_eq _ _ (caption fig) _ (inv_store Hinv _ Hk)).
        unfold final_figure, set_caption. cbn [caption figure_type name page
                                               bbox image_data].
        rewrite appended_app. cbn [appended fold_right].
        unfold caption_at. rewrite Hfig.
        rewrite append_empty_r, append_assoc. reflexivity.
      * rewrite append_caption_ne by congruence.
        rewrite (inv_store Hinv _ Hk), app_nil_r. reflexivity.
    + intros k. cbn [mem existsb]. fold (mem k (skip_indices st)).
      rewrite (inv_skip Hinv), Hltb.
      destruct (Nat.eqb_spec k i) as [-> | Hne]; cbn [orb]; [|reflexivity].
      unfold dropped. rewrite Horig. reflexivity.
    + rewrite seq_S, filter_app. cbn [Nat.add filter].
      unfold dropped at 2. rewrite Horig. cbn [negb].
      rewrite app_nil_r. apply (inv_merged Hinv).
  - (* the record is kept *)
    assert (Hnone : original_of figures i = None).
    { rewrite Horig. apply andb_false_iff in Hdrop.
      destruct (is_continuation (caption fig)); [|reflexivity].
      destruct Hdrop as [? | Hd]; [discriminate|].
      now destruct (find_original figures (target_name fig) i). }
    assert (Hst1 :
      (if is_continuation (caption fig)
       then match find_original figures (target_name fig) i with
            | Some j =>
                mkMerge (append_caption (store st) j (caption fig))
                        (merged st) (i :: skip_indices st)
            | None => st
            end
       else st) = st).
    { rewrite Horig in Hnone.
      destruct (is_continuation (caption fig)); [|reflexivity].
      now rewrite Hnone. }
    rewrite Hst1, Hnoskip.
    constructor; cbn [store merged skip_indices].
    + apply (inv_length Hinv).
    + intros k f Hk. unfold final_figure.
      rewrite continuations_of_S. unfold merges_into. rewrite Hnone.
      rewrite app_nil_r. apply (inv_store Hinv _ Hk).
    + intros k. rewrite (inv_skip Hinv), Hltb.
      destruct (Nat.eqb_spec k i) as [-> | Hne]; cbn [orb]; [|reflexivity].
      unfold dropped. rewrite Hnone.
      now rewrite andb_false_r.
    + rewrite seq_S, filter_app. cbn [Nat.add filter].
      unfold dropped at 2. rewrite Hnone. cbn [negb].
      now rewrite (inv_merged Hinv).
Qed.

Lemma inv_prefix figures : forall i,
  (i <= List.length figures)%nat ->
  inv figures i (fold_left merge_step (seq 0 i) (mkMerge figures [] [])).
Proof.
  induction i as [|i IH]; intros Hi.
  - apply inv_init.
  - rewrite seq_S, fold_left_app. cbn [Nat.add fold_left].
    apply inv_step; [lia | apply IH; lia].
Qed.

Lemma inv_final figures :
  inv figures (List.length figures) (merge_loop figures).
Proof. apply inv_prefix. lia. Qed.

(** [_merge_multipage_elements] computes [merge_spec]. *)
Lemma merge_refines figures :
  _merge_multipage_elements figures = merge_spec figures.
Proof.
  unfold _merge_multipage_elements, collect, merge_spec, kept.
  pose proof (inv_final figures) as Hinv.
  rewrite (inv_merged Hinv).
  apply flat_map_ext. intros k.
  destruct (nth_error figures k) as [f|] eqn:Hf.
  - now rewrite (inv_store Hinv _ Hf).
  - apply nth_error_None in Hf. rewrite <- (inv_length Hinv) in Hf.
    apply nth_error_None in Hf. now rewrite Hf.
Qed.

Lemma kept_iff figures i :
  In i (kept figures) <->
  (i < List.length figures)%nat /\ dropped figures i = false.
Proof.
  unfold kept. rewrite filter_In, in_seq, negb_true_iff. intuition lia.
Qed.

Lemma continuations_of_iff figures k bound m :
  In m (continuations_of figures k bound) <->
  (m < bound)%nat /\ original_of figures m = Some k.
Proof.
  unfold continuations_of, merges_into. rewrite filter_In, in_seq.
  destruct (original_of figures m) as [j|].
  - rewrite Nat.eqb_eq. split.
    + intros [H ->]. split; [lia | reflexivity].
    + intros [H [= ->]]. split; [lia | reflexivity].
  - split; [intros [_ H] | intros [_ H]]; discriminate.
Qed.

(** A record merged into another one is a later record whose caption has
    a continuation marker. *)
Lemma original_of_continuation figures m k :
  original_of figures m = Some k ->
  (k < m)%nat /\
  exists g, nth_error figures m = Some g /\
            is_continuation (caption g) = true.
Proof.
  intros H. split; [now apply original_of_lt in H|].
  unfold original_of in H.
  destruct (nth_error figures m) as [g|]; [|discriminate].
  exists g. split; [reflexivity|].
  now destruct (is_continuation (caption g)).
Qed.

Lemma filter_seq_sorted (p : nat -> bool) : forall len start,
  StronglySorted lt (filter p (seq start len)).
Proof.
  induction len as [|len IH]; intros start; cbn [seq filter].
  - constructor.
  - destruct (p start); [|apply IH].
    constructor; [apply IH|].
    apply Forall_forall. intros x Hx.
    apply filter_In in Hx. destruct Hx as [Hx _].
    apply in_seq in Hx. lia.
Qed.

(** The positions of a filtered segment split around one of them. *)
Lemma filter_seq_split (p : nat -> bool) bound i :
  (i < bound)%nat -> p i = true ->
  filter p (seq 0 bound)
  = (filter p (seq 0 i) ++ i :: filter p (seq (S i) (bound - S i)))%list.
Proof.
  intros Hi Hp.
  replace bound with (i + (1 + (bound - S i)))%nat at 1 by lia.
  rewrite seq_app, filter_app, seq_app, filter_app.
  cbn [Nat.add seq filter]. rewrite Hp.
  replace (i + 1)%nat with (S i) by lia. reflexivity.
Qed.

End Merge.

(** ** Example records for the merge pass *)

Module MergeExamples.
Local Open Scope Q_scope.
Local Open Scope string_scope.

Definition table3 : Figure :=
  mkFigure "Table" "Table 3" "Table 3. Baseline characteristics" 4
           (mkBoundingBox 72 100 500 400) (Some "data:image/png;base64,QQ==").

Definition table3_continued : Figure :=
  mkFigure "Table" "Table 3" "Table 3 (continued)" 5
           (mkBoundingBox 72 90 500 300) (Some "data:image/png;base64,Qg==").

Definition figure1 : Figure :=
  mkFigure "Figure" "Figure 1" "Figure 1. Flow of participants" 2
           (mkBoundingBox 72 100 400 350) None.

End MergeExamples.

(** C2, as stated, fails on its last clause: the caption of
    [MergeExamples.table3] has no continuation marker, yet the record does
    not pass through unchanged, since the caption of the continuation
    record that follows it is appended to its own. *)
Lemma C2_continuation_merge_counterexample :
  PDFFigures2Python.is_continuation (caption MergeExamples.table3) = false /\
  PDFFigures2Python._merge_multipage_elements
    [MergeExamples.table3; MergeExamples.table3_continued]
  = [PDFFigures2Python.set_caption MergeExamples.table3
       "Table 3. Baseline characteristics Table 3 (continued)"] /\
  ~ In MergeExamples.table3
       (PDFFigures2Python._merge_multipage_elements
          [MergeExamples.table3; MergeExamples.table3_continued]).
Proof.
  split; [reflexivity|]. split; [reflexivity|].
  intros [H | []]. discriminate H.
Qed.

(** C2, amended.  The output of [_merge_multipage_elements] consists of
    the records that are kept, in their order, each with its final
    caption.  A record whose caption contains a continuation marker
    (compared in lower case) and for which some earlier record has its
    name with ["continued"] removed and white space stripped is not kept;
    the nearest preceding record with that name receives its text: the
    caption that record has when the continuation is visited is followed
    by one space and the full caption of the continuation (later
    continuations may append more).  A record whose caption has no marker
    is always kept, with its own caption followed by the text of the
    continuations merged into it, and it is unchanged when there is no
    such continuation. *)
Theorem C2_continuation_merge (figures : list Figure) (i : nat)
  (fig : Figure) :
  nth_error figures i = Some fig ->
  let n := List.length figures in
  let out := PDFFigures2Python._merge_multipage_elements figures in
  out = flat_map (fun k => match nth_error figures k with
                           | Some f => [Merge.final_figure figures n k f]
                           | None => []
                           end)
                 (Merge.kept figures) /\
  (PDFFigures2Python.is_continuation (caption fig) = true ->
   (exists j g, (j < i)%nat /\ nth_error figures j = Some g /\
                name g = Merge.target_name fig) ->
   ~ In i (Merge.kept figures) /\
   exists j g before after,
     (j < i)%nat /\ nth_error figures j = Some g /\
     name g = Merge.target_name fig /\
     (forall k h, (j < k < i)%nat -> nth_error figures k = Some h ->
                  name h <> Merge.target_name fig) /\
     Merge.continuations_of figures j n = before ++ i :: after /\
     (forall m, In m before -> (m < i)%nat) /\
     (forall m, In m after -> (i < m)%nat) /\
     caption (Merge.final_figure figures n j g)
     = ((caption g ++ Merge.appended figures before)
        ++ " " ++ caption fig ++ Merge.appended figures after)%string) /\
  (PDFFigures2Python.is_continuation (caption fig) = false ->
   In i (Merge.kept figures) /\
   caption (Merge.final_figure figures n i fig)
   = (caption fig
      ++ Merge.appended figures (Merge.continuations_of figures i n))%string /\
   (Merge.continuations_of figures i n = [] ->
    Merge.final_figure figures n i fig = fig)).
Proof.
  intros Hfig n out.
  assert (Hi : (i < n)%nat).
  { apply nth_error_Some. rewrite Hfig. discriminate. }
  split; [apply Merge.merge_refines|]. split.
  - intros Hcont (j0 & g0 & Hj0 & Hg0 & Hn0).
    assert (Horig : Merge.original_of figures i
                    = PDFFigures2Python.find_original figures
                        (Merge.target_name fig) i).
    { unfold Merge.original_of. now rewrite Hfig, Hcont. }
    pose proof (Merge.find_original_spec figures (Merge.target_name fig) i)
      as Hspec.
    destruct (PDFFigures2Python.find_original figures
                (Merge.target_name fig) i) as [j|].
    2:{ exfalso. exact (Hspec j0 g0 Hj0 Hg0 Hn0). }
    destruct Hspec as [Hj [(g & Hg & Hname) Hnear]].
    split.
    + rewrite Merge.kept_iff. unfold Merge.dropped. rewrite Horig.
      intros [_ H]. discriminate.
    + assert (Hp : Merge.merges_into figures j i = true).
      { unfold Merge.merges_into. rewrite Horig. apply Nat.eqb_refl. }
      pose proof (Merge.filter_seq_split (Merge.merges_into figures j)
                    Hi Hp) as Hsplit.
      exists j, g,
        (filter (Merge.merges_into figures j) (seq 0 i)),
        (filter (Merge.merges_into figures j) (seq (S i) (n - S i))).
      repeat split; try assumption.
      * intros m Hm. apply filter_In in Hm. destruct Hm as [Hm _].
        apply in_seq in Hm. lia.
      * intros m Hm. apply filter_In in Hm. destruct Hm as [Hm _].
        apply in_seq in Hm. lia.
      * unfold Merge.final_figure, Merge.continuations_of.
        fold n. rewrite Hsplit.
        cbn [caption PDFFigures2Python.set_caption].
        rewrite Merge.appended_app.
        change (Merge.appended figures
                  (i :: filter (Merge.merges_into figures j)
                               (seq (S i) (n - S i))))
          with (" " ++ Merge.caption_at figures i
                ++ Merge.appended figures
                     (filter (Merge.merges_into figures j)
                             (seq (S i) (n - S i))))%string.
        unfold Merge.caption_at. rewrite Hfig.
        now rewrite Merge.append_assoc.
  - intros Hcont.
    assert (Horig : Merge.original_of figures i = None).
    { unfold Merge.original_of. now rewrite Hfig, Hcont. }
    split; [|split].
    + rewrite Merge.kept_iff. unfold Merge.dropped. rewrite Horig.
      split; [exact Hi | reflexivity].
    + reflexivity.
    + intros Hnone. unfold Merge.final_figure. rewrite Hnone.
      cbn [Merge.appended fold_right].
      rewrite Merge.append_empty_r. apply Merge.set_caption_same.
Qed.

(** C2, amended, on three records: the continuation of Table 3 is dropped
    and its caption appended to that of Table 3. *)
Lemma C2_continuation_merge_witness :
  PDFFigures2Python._merge_multipage_elements
    [MergeExamples.table3; MergeExamples.figure1;
     MergeExamples.table3_continued]
  = [PDFFigures2Python.set_caption MergeExamples.table3
       "Table 3. Baseline characteristics Table 3 (continued)";
     MergeExamples.figure1] /\
  ~ In 2%nat (Merge.kept [MergeExamples.table3; MergeExamples.figure1;
                          MergeExamples.table3_continued]).
Proof.
  pose proof (C2_continuation_merge
                [MergeExamples.table3; MergeExamples.figure1;
                 MergeExamples.table3_continued]
                2 eq_refl) as [Hout [Hdrop _]].
  split.
  - rewrite Hout. reflexivity.
  - apply Hdrop; [reflexivity|].
    exists 0%nat, MergeExamples.table3.
    split; [lia|]. split; reflexivity.
Defined.

(** ** Frame of the merge pass *)

Module MergeFrame.
Import PDFFigures2Python.
Local Open Scope string_scope.

(** The record [out] of the output stems from the record at position [k]
    of the input: all fields but the caption are those of the input
    record, and the caption is the input caption followed by the appended
    text (a space and the full caption, for each one) of later records
    whose caption has a continuation marker. *)
Definition stems_from (figures : list Figure) (k : nat) (out : Figure)
  : Prop :=
  exists f conts,
    nth_error figures k = Some f /\
    figure_type out = figure_type f /\
    name out = name f /\
    page out = page f /\
    bbox out = bbox f /\
    image_data out = image_data f /\
    caption out = caption f ++ Merge.appended figures conts /\
    Forall (fun m => (k < m)%nat /\
                     exists g, nth_error figures m = Some g /\
                               is_continuation (caption g) = true)
           conts.

Lemma final_stems_from figures k f :
  nth_error figures k = Some f ->
  stems_from figures k
    (Merge.final_figure figures (List.length figures) k f).
Proof.
  intros Hf.
  exists f, (Merge.continuations_of figures k (List.length figures)).
  repeat split; try assumption.
  apply Forall_forall. intros m Hm.
  apply Merge.continuations_of_iff in Hm. destruct Hm as [_ Hm].
  now apply Merge.original_of_continuation.
Qed.

Lemma positions_stem figures : forall ks,
  Forall (fun k => (k < List.length figures)%nat) ks ->
  Forall2 (stems_from figures) ks
    (flat_map (fun k => match nth_error figures k with
                        | Some f =>
                            [Merge.final_figure figures
                               (List.length figures) k f]
                        | None => []
                        end) ks).
Proof.
  induction ks as [|k ks IH]; intros Hall; cbn [flat_map].
  - constructor.
  - inversion Hall as [|? ? Hk Hks]; subst.
    destruct (nth_error figures k) as [f|] eqn:Hf.
    + cbn [app]. constructor; [now apply final_stems_from | now apply IH].
    + apply nth_error_None in Hf. lia.
Qed.

(** The output of the merge pass, record by record. *)
Lemma merge_stems figures :
  exists positions : list nat,
    StronglySorted lt positions /\
    Forall2 (stems_from figures) positions
            (_merge_multipage_elements figures).
Proof.
  exists (Merge.kept figures). split.
  - apply Merge.filter_seq_sorted.
  - rewrite Merge.merge_refines. apply positions_stem.
    apply Forall_forall. intros k Hk.
    now apply Merge.kept_iff in Hk.
Qed.

End MergeFrame.

(** C9.  The records returned by [_merge_multipage_elements] stem from
    input records at strictly increasing positions, so their relative
    order is that of the input; each has the [figure_type], [name], [page],
    [bbox] and [image_data] of the input record it stems from, and its
    caption is the input caption followed by the text appended for later
    continuation records. *)
Theorem C9_merge_frame (figures : list Figure) :
  exists positions : list nat,
    StronglySorted lt positions /\
    Forall2 (MergeFrame.stems_from figures) positions
            (PDFFigures2Python._merge_multipage_elements figures).
Proof.
  exact (MergeFrame.merge_stems figures).
Qed.

(** ** Bounding boxes in the output *)

Module BBoxOutput.
Import QB QBFacts.
Local Open Scope Q_scope.

(** The [bbox] object written for the box [(a, b, c, d)]: the four
    coordinates as they are, and their differences. *)
Definition plain (a b c d : Q) : PDFFigures2Python.OutBBox :=
  PDFFigures2Python.mkOutBBox a b c d (c - a) (d - b).

Definition plain' (a b c d : Q) : PyMuPDFExtractor.OutBBox :=
  PyMuPDFExtractor.mkOutBBox a b c d (c - a) (d - b).

(** Where the bounding box of a figure of [pdffigures2-python.py] comes
    from: the first placement rectangle of an image, the region found
    under a table caption, or the rectangles of a group of drawings. *)
Definition from_geometry
  (re_match : bool -> string -> string -> option string)
  (page : fitz.Page) (b : BoundingBox) : Prop :=
  (exists img rect more,
      In img (fitz.images page) /\ fitz.image_rects img = rect :: more /\
      b = ImageLoop.placement rect) \/
  (exists c blk blks,
      In c (PDFFigures2Python._find_captions re_match (fitz.blocks page)) /\
      PDFFigures2Python.table_blocks (fitz.blocks page)
        (PDFFigures2Python.cbbox c) = blk :: blks /\
      let u := Union.union_bbox
                 (PDFFigures2Python.BoundingBox_of (fitz.block_bbox blk))
                 (map (fun x => PDFFigures2Python.BoundingBox_of
                                  (fitz.block_bbox x)) blks) in
      b = mkBoundingBox (x1 u) (y1 (PDFFigures2Python.cbbox c))
                        (x2 u) (y2 u)) \/
  (exists d ds,
      In (d :: ds)
         (PDFFigures2Python._group_drawings (fitz.drawings page)) /\
      b = PDFFigures2Python.group_bbox page d ds).

Section Facts.
Variable re_match : bool -> string -> string -> option string.
Variable render_base64 : fitz.Page -> Q -> fitz.Rect -> string.

Lemma images_geometry page captions page_num : forall imgs k f,
  In f (PDFFigures2Python.extract_images_from re_match page captions
          page_num k imgs) ->
  exists img rect more,
    In img imgs /\ fitz.image_rects img = rect :: more /\
    bbox f = ImageLoop.placement rect.
Proof.
  induction imgs as [|img imgs IH]; intros k f Hin;
    cbn [PDFFigures2Python.extract_images_from] in Hin; [destruct Hin|].
  assert (Hrest : In f (PDFFigures2Python.extract_images_from re_match page
                          captions page_num (S k) imgs) ->
                  exists img0 rect more,
                    In img0 (img :: imgs) /\
                    fitz.image_rects img0 = rect :: more /\
                    bbox f = ImageLoop.placement rect).
  { intros H. destruct (IH _ _ H) as (i0 & r & m & Hi & Hr & Hb).
    exists i0, r, m. split; [now right | now split]. }
  destruct (fitz.image_rects img) as [|rect more] eqn:Hr; [now apply Hrest|].
  destruct (ltb _ _); [now apply Hrest|].
  destruct (_ || _); [now apply Hrest|].
  destruct (PDFFigures2Python._find_nearest_caption _ captions);
    (destruct Hin as [<- | Hin]; [|now apply Hrest]);
    exists img, rect, more; (split; [now left | now split]).
Qed.

Lemma page_geometry page page_num f :
  In f (PDFFigures2Python._extract_from_page re_match render_base64 page
          page_num) ->
  from_geometry re_match page (bbox f).
Proof.
  unfold PDFFigures2Python._extract_from_page. intros Hin.
  apply in_app_or in Hin. destruct Hin as [Hin | Hin].
  - left. unfold PDFFigures2Python._extract_images in Hin.
    exact (images_geometry _ _ _ _ _ _ Hin).
  - apply in_app_or in Hin. destruct Hin as [Hin | Hin].
    + right. left. unfold PDFFigures2Python._extract_tables in Hin.
      apply in_flat_map in Hin. destruct Hin as (c & Hc & Hin).
      apply filter_In in Hc. destruct Hc as [Hc _].
      unfold PDFFigures2Python.table_figure in Hin.
      destruct (PDFFigures2Python.table_blocks _ _) as [|blk blks] eqn:Hb;
        [destruct Hin|].
      destruct Hin as [<- | []].
      exists c, blk, blks. split; [exact Hc|]. split; [exact Hb|].
      cbn [bbox Union.union_bbox x1 y1 x2 y2]. now rewrite !map_map.
    + right. right.
      unfold PDFFigures2Python._extract_vector_graphics in Hin.
      destruct (fitz.drawings page) as [|d0 ds0] eqn:Hd; [destruct Hin|].
      apply in_flat_map in Hin. destruct Hin as (g & Hg & Hin).
      unfold PDFFigures2Python.vector_figure in Hin.
      destruct (List.length g <? 5)%nat; [destruct Hin|].
      destruct g as [|d ds]; [destruct Hin|].
      destruct (ltb _ _); [destruct Hin|].
      destruct (PDFFigures2Python._find_nearest_caption _ _);
        [|destruct Hin].
      destruct Hin as [<- | []].
      exists d, ds. split; [exact Hg | reflexivity].
Qed.

Lemma pages_loop_origin : forall doc page_num acc figs f,
  PDFFigures2Python.pages_loop re_match render_base64 page_num doc acc
  = Return figs ->
  In f figs ->
  In f acc \/
  exists k page,
    nth_error doc k = Some (Return page) /\
    In f (PDFFigures2Python._extract_from_page re_match render_base64 page
            (page_num + k)).
Proof.
  induction doc as [|p doc IH]; intros page_num acc figs f Hloop Hin;
    cbn [PDFFigures2Python.pages_loop] in Hloop.
  - injection Hloop as <-. now left.
  - destruct p as [e|page]; cbn [bind] in Hloop; [discriminate|].
    destruct (IH _ _ _ _ Hloop Hin) as [Hacc | (k & pg & Hk & Hf)].
    + apply in_app_or in Hacc. destruct Hacc as [Hacc | Hnew];
        [now left|].
      right. exists 0%nat, page. rewrite Nat.add_0_r. now split.
    + right. exists (S k), pg.
      replace (page_num + S k)%nat with (S page_num + k)%nat by lia.
      now split.
Qed.

End Facts.

Lemma Forall2_in_r {A B} (R : A -> B -> Prop) l l' b :
  Forall2 R l l' -> In b l' -> exists a, In a l /\ R a b.
Proof.
  induction 1 as [|a0 b0 l l' HR HF IH]; intros Hin; [destruct Hin|].
  destruct Hin as [<- | Hin].
  - exists a0. split; [now left | exact HR].
  - destruct (IH Hin) as (a & Ha & HRa). exists a. split; [now right | exact HRa].
Qed.

End BBoxOutput.

Module BBoxOutputPyMuPDF.
Import QB QBFacts.
Local Open Scope Q_scope.

(** Where the rectangle of a record of [pymupdf-extractor.py] comes from:
    the bounding box of an image of the page, or the rectangle of one of
    its drawings (the page rectangle when the drawing has none). *)
Definition from_geometry (page : fitz.Page) (r : fitz.Rect) : Prop :=
  (exists img, In img (fitz.images page) /\ r = fitz.image_bbox img) \/
  (exists d, In d (fitz.drawings page) /\
             r = match fitz.rect d with
                 | Some r => r
                 | None => fitz.page_rect page
                 end).

Lemma width_plain r :
  ltb (fitz.width r) 100 = false -> fitz.width r = fitz.x1 r - fitz.x0 r.
Proof.
  intros H. apply ltb_ge in H. unfold fitz.width in *.
  destruct (Qmax_either (fitz.x1 r - fitz.x0 r) 0) as [E | E];
    [exact E|].
  rewrite E in H. exfalso. revert H. apply Qlt_not_le. reflexivity.
Qed.

Lemma height_plain r :
  ltb (fitz.height r) 100 = false -> fitz.height r = fitz.y1 r - fitz.y0 r.
Proof.
  intros H. apply ltb_ge in H. unfold fitz.height in *.
  destruct (Qmax_either (fitz.y1 r - fitz.y0 r) 0) as [E | E];
    [exact E|].
  rewrite E in H. exfalso. revert H. apply Qlt_not_le. reflexivity.
Qed.

Section Facts.
Variable re_finditer : string -> string -> list (string * nat * nat).
Variable pil_base64 : fitz.Image -> string.
Variable crop_base64 : fitz.Page -> Q -> fitz.Rect -> string.

Lemma records_geometry page page_num out :
  In out (PyMuPDFExtractor.page_records re_finditer pil_base64 crop_base64
            page page_num) ->
  exists r, from_geometry page r /\
            PyMuPDFExtractor.o_bbox out
            = BBoxOutput.plain' (fitz.x0 r) (fitz.y0 r)
                                (fitz.x1 r) (fitz.y1 r).
Proof.
  unfold PyMuPDFExtractor.page_records. intros Hin.
  apply in_app_or in Hin. destruct Hin as [Hin | Hin];
    apply in_flat_map in Hin.
  - destruct Hin as (img & Himg & Hin).
    exists (fitz.image_bbox img). split; [left; now exists img|].
    unfold PyMuPDFExtractor.image_record in Hin.
    destruct (_ || _); [destruct Hin|].
    destruct (PyMuPDFExtractor.near_match _ _);
      [|destruct (PyMuPDFExtractor.near_match _ _)];
      destruct Hin as [<- | []]; reflexivity.
  - destruct Hin as (d & Hd & Hin).
    unfold PyMuPDFExtractor.drawing_record in Hin.
    destruct (fitz.items d) as [n|]; [|destruct Hin].
    destruct (10 <? n)%nat; [|destruct Hin].
    set (r := match fitz.rect d with
              | Some r => r
              | None => fitz.page_rect page
              end) in *.
    destruct (ltb (fitz.width r) 100) eqn:Hw; [destruct Hin|].
    destruct (ltb (fitz.height r) 100) eqn:Hh; [destruct Hin|].
    cbn [orb] in Hin. destruct Hin as [<- | []].
    exists r. split; [right; now exists d|].
    cbn [PyMuPDFExtractor.o_bbox]. unfold BBoxOutput.plain'.
    now rewrite (width_plain _ Hw), (height_plain _ Hh).
Qed.

Lemma records_loop_origin : forall doc page_num acc out,
  In out (fst (PyMuPDFExtractor.pages_loop re_finditer pil_base64
                 crop_base64 page_num doc acc)) ->
  In out acc \/
  exists k page,
    nth_error doc k = Some (Return page) /\
    In out (PyMuPDFExtractor.page_records re_finditer pil_base64
              crop_base64 page (page_num + k)).
Proof.
  induction doc as [|p doc IH]; intros page_num acc out Hin;
    cbn [PyMuPDFExtractor.pages_loop] in Hin.
  - now left.
  - destruct p as [e|page]; [now left|].
    destruct (IH _ _ _ Hin) as [Hacc | (k & pg & Hk & Hf)].
    + apply in_app_or in Hacc. destruct Hacc as [Hacc | Hnew];
        [now left|].
      right. exists 0%nat, page. rewrite Nat.add_0_r. now split.
    + right. exists (S k), pg.
      replace (page_num + S k)%nat with (S page_num + k)%nat by lia.
      now split.
Qed.

End Facts.
End BBoxOutputPyMuPDF.

(** C8.  Every record of the output of either extractor carries in its
    [bbox] object the coordinates of the box computed from the page
    geometry, as they are (the zoom factor 2 used for rendering does not
    enter them), and [width] and [height] are [x2 - x1] and [y2 - y1].
    For [pdffigures2-python.py] the box is the first placement rectangle
    of an image, the region found under a table caption or the box of a
    group of drawings of some page of the document; for
    [pymupdf-extractor.py] it is the bounding box of an image or the
    rectangle of a drawing of some page. *)
Theorem C8_bbox_round_trip
  (re_match : bool -> string -> string -> option string)
  (render_base64 : fitz.Page -> Q -> fitz.Rect -> string)
  (re_finditer : string -> string -> list (string * nat * nat))
  (pil_base64 : fitz.Image -> string)
  (crop_base64 : fitz.Page -> Q -> fitz.Rect -> string)
  (pdf : exc (list (exc fitz.Page))) :
  (forall out,
      In out (PDFFigures2Python.figures
                (PDFFigures2Python.extract re_match render_base64 pdf)) ->
      exists doc k page b,
        pdf = Return doc /\ nth_error doc k = Some (Return page) /\
        BBoxOutput.from_geometry re_match page b /\
        PDFFigures2Python.o_bbox out
        = BBoxOutput.plain (x1 b) (y1 b) (x2 b) (y2 b)) /\
  (forall out,
      In out (PyMuPDFExtractor.figures
                (PyMuPDFExtractor.extract re_finditer pil_base64
                   crop_base64 pdf)) ->
      exists doc k page r,
        pdf = Return doc /\ nth_error doc k = Some (Return page) /\
        BBoxOutputPyMuPDF.from_geometry page r /\
        PyMuPDFExtractor.o_bbox out
        = BBoxOutput.plain' (fitz.x0 r) (fitz.y0 r) (fitz.x1 r) (fitz.y1 r)).
Proof.
  split.
  - intros out Hin. unfold PDFFigures2Python.extract in Hin.
    destruct pdf as [e|doc]; cbn [bind] in Hin; [destruct Hin|].
    destruct (PDFFigures2Python.pages_loop re_match render_base64 0 doc [])
      as [e|figs] eqn:Hloop; cbn [PDFFigures2Python.figures] in Hin;
      [destruct Hin|].
    apply in_map_iff in Hin. destruct Hin as (f' & <- & Hf').
    destruct (MergeFrame.merge_stems figs) as (positions & _ & Hstem).
    destruct (@BBoxOutput.Forall2_in_r _ _ _ _ _ _ Hstem Hf')
      as (p & _ & (f & conts & Hf & _ & _ & _ & Hb & _)).
    apply nth_error_In in Hf.
    destruct (@BBoxOutput.pages_loop_origin _ _ _ _ _ _ _ Hloop Hf)
      as [[] | (k & page & Hk & Hpage)].
    exists doc, k, page, (bbox f).
    split; [reflexivity|]. split; [exact Hk|]. split.
    + exact (@BBoxOutput.page_geometry _ _ _ _ _ Hpage).
    + unfold PDFFigures2Python.to_output, BBoxOutput.plain.
      cbn [PDFFigures2Python.o_bbox]. now rewrite Hb.
  - intros out Hin. unfold PyMuPDFExtractor.extract in Hin.
    destruct pdf as [e|doc]; [destruct Hin|].
    assert (Hfst : In out (fst (PyMuPDFExtractor.pages_loop re_finditer
                                  pil_base64 crop_base64 0 doc []))).
    { destruct (PyMuPDFExtractor.pages_loop _ _ _ 0 doc [])
        as [figs [e|]]; exact Hin. }
    destruct (@BBoxOutputPyMuPDF.records_loop_origin _ _ _ _ _ _ _ Hfst)
      as [[] | (k & page & Hk & Hpage)].
    destruct (@BBoxOutputPyMuPDF.records_geometry _ _ _ _ _ _ Hpage)
      as (r & Hr & Hb).
    exists doc, k, page, r. now repeat split.
Qed.

(** C8 on a one-page document with the photograph. *)
Lemma C8_bbox_round_trip_witness :
  let pdf := Return [Return (Examples.page_of [Examples.photo])] in
  (exists doc k page b,
      pdf = Return doc /\ nth_error doc k = Some (Return page) /\
      BBoxOutput.from_geometry Examples.no_match page b /\
      PDFFigures2Python.mkOutBBox 72 100 272 250 (272 - 72) (250 - 100)
      = BBoxOutput.plain (x1 b) (y1 b) (x2 b) (y2 b)) /\
  (exists doc k page r,
      pdf = Return doc /\ nth_error doc k = Some (Return page) /\
      BBoxOutputPyMuPDF.from_geometry page r /\
      PyMuPDFExtractor.mkOutBBox 72 100 272 250 (272 - 72) (250 - 100)
      = BBoxOutput.plain' (fitz.x0 r) (fitz.y0 r) (fitz.x1 r) (fitz.y1 r)).
Proof.
  intros pdf.
  destruct (C8_bbox_round_trip Examples.no_match Examples.no_render
              (fun _ _ => []) (fun _ => "cG5n"%string)
              (fun _ _ _ => ""%string) pdf) as [H1 H2].
  split.
  - apply (H1 (PDFFigures2Python.mkOutFigure "figure" 1 "Figure 1" ""
                 (PDFFigures2Python.mkOutBBox 72 100 272 250
                                              (272 - 72) (250 - 100))
                 (Some "data:image/png;base64,UE5H"%string)
                 "pdffigures2-python")).
    left. reflexivity.
  - apply (H2 (PyMuPDFExtractor.mkOutFigure "figure" 1 "Figure on page 1"
                 (PyMuPDFExtractor.mkOutBBox 72 100 272 250
                                             (272 - 72) (250 - 100))
                 "data:image/png;base64,cG5n" "pymupdf")).
    left. reflexivity.
Defined.

(** ** Outcome of a run of the extractor scripts *)

Module Runs.
Local Open Scope string_scope.

(** Extraction raises the exception [e]: [fitz.open] raises it, or the
    pages [before] are processed and the next one raises it. *)
Definition raises (pdf : exc (list (exc fitz.Page))) (e : string)
  (before : list fitz.Page) : Prop :=
  (pdf = Raise e /\ before = []) \/
  exists after, pdf = Return (map Return before ++ Raise e :: after)%list.

(** Extraction completes on the pages [pages]. *)
Definition completes (pdf : exc (list (exc fitz.Page)))
  (pages : list fitz.Page) : Prop :=
  pdf = Return (map Return pages).

Section Facts.
Variable re_match : bool -> string -> string -> option string.
Variable render_base64 : fitz.Page -> Q -> fitz.Rect -> string.
Variable re_finditer : string -> string -> list (string * nat * nat).
Variable pil_base64 : fitz.Image -> string.
Variable crop_base64 : fitz.Page -> Q -> fitz.Rect -> string.

(** The figures of the pages, page after page. *)
Definition all_figures (page_num : nat) (pages : list fitz.Page)
  : list Figure :=
  flat_map (fun kp => PDFFigures2Python._extract_from_page
                        re_match render_base64 (snd kp) (fst kp))
           (enumerate_from page_num pages).

Definition all_records (page_num : nat) (pages : list fitz.Page)
  : list PyMuPDFExtractor.OutFigure :=
  flat_map (fun kp => PyMuPDFExtractor.page_records
                        re_finditer pil_base64 crop_base64 (snd kp) (fst kp))
           (enumerate_from page_num pages).

Lemma loop_raises : forall before page_num acc e after,
  PDFFigures2Python.pages_loop re_match render_base64 page_num
    (map Return before ++ Raise e :: after) acc = Raise e.
Proof.
  induction before as [|p before IH]; intros page_num acc e after.
  - reflexivity.
  - cbn [map app PDFFigures2Python.pages_loop bind]. apply IH.
Qed.

Lemma loop_completes : forall pages page_num acc,
  PDFFigures2Python.pages_loop re_match render_base64 page_num
    (map Return pages) acc
  = Return (acc ++ all_figures page_num pages)%list.
Proof.
  induction pages as [|p pages IH]; intros page_num acc.
  - cbn. now rewrite app_nil_r.
  - cbn [map PDFFigures2Python.pages_loop bind]. rewrite IH.
    unfold all_figures. cbn [enumerate_from flat_map fst snd].
    now rewrite app_assoc.
Qed.

Lemma loop_raises' : forall before page_num acc e after,
  PyMuPDFExtractor.pages_loop re_finditer pil_base64 crop_base64 page_num
    (map Return before ++ Raise e :: after) acc
  = ((acc ++ all_records page_num before)%list, Some e).
Proof.
  induction before as [|p before IH]; intros page_num acc e after.
  - cbn. now rewrite app_nil_r.
  - cbn [map app PyMuPDFExtractor.pages_loop]. rewrite IH.
    unfold all_records. cbn [enumerate_from flat_map fst snd].
    now rewrite app_assoc.
Qed.

Lemma loop_completes' : forall pages page_num acc,
  PyMuPDFExtractor.pages_loop re_finditer pil_base64 crop_base64 page_num
    (map Return pages) acc
  = ((acc ++ all_records page_num pages)%list, None).
Proof.
  induction pages as [|p pages IH]; intros page_num acc.
  - cbn. now rewrite app_nil_r.
  - cbn [map PyMuPDFExtractor.pages_loop]. rewrite IH.
    unfold all_records. cbn [enumerate_from flat_map fst snd].
    now rewrite app_assoc.
Qed.

End Facts.
End Runs.

(** C4, as stated, fails: when [fitz.open] raises, either script prints
    the object with [success] false and the error text, and then ends
    with exit code 0, not 1. *)
Lemma C4_exit_code_counterexample :
  PDFFigures2Python.main Examples.no_match Examples.no_render
    (Raise "no such file: paper.pdf")
  = ([PDFFigures2Python.mkResults false []
        (Some "no such file: paper.pdf"%string)], 0%Z) /\
  PyMuPDFExtractor.main (fun _ _ => []) (fun _ => ""%string)
    (fun _ _ _ => ""%string) (Raise "no such file: paper.pdf")
  = ([PyMuPDFExtractor.mkResults false []
        (Some "no such file: paper.pdf"%string)], 0%Z) /\
  snd (PDFFigures2Python.main Examples.no_match Examples.no_render
         (Raise "no such file: paper.pdf")) <> 1%Z.
Proof.
  split; [reflexivity|]. split; [reflexivity|]. discriminate.
Qed.

(** C4, amended.  For every invocation of [pdffigures2-python.py] or
    [pymupdf-extractor.py]: when an exception is raised during extraction
    the process prints one JSON object with [success] false and the text
    of the exception as [error]; when extraction completes it prints one
    object with [success] true, no error and the figures payload; in both
    cases the process exits with code 0 (failure is reported by the
    [success] field alone). *)
Theorem C4_extractor_outcome
  (re_match : bool -> string -> string -> option string)
  (render_base64 : fitz.Page -> Q -> fitz.Rect -> string)
  (re_finditer : string -> string -> list (string * nat * nat))
  (pil_base64 : fitz.Image -> string)
  (crop_base64 : fitz.Page -> Q -> fitz.Rect -> string)
  (pdf : exc (list (exc fitz.Page))) :
  (forall e before,
      Runs.raises pdf e before ->
      PDFFigures2Python.main re_match render_base64 pdf
      = ([PDFFigures2Python.mkResults false [] (Some e)], 0%Z) /\
      PyMuPDFExtractor.main re_finditer pil_base64 crop_base64 pdf
      = ([PyMuPDFExtractor.mkResults false
            (Runs.all_records re_finditer pil_base64 crop_base64 0 before)
            (Some e)], 0%Z)) /\
  (forall pages,
      Runs.completes pdf pages ->
      PDFFigures2Python.main re_match render_base64 pdf
      = ([PDFFigures2Python.mkResults true
            (map PDFFigures2Python.to_output
               (PDFFigures2Python._merge_multipage_elements
                  (Runs.all_figures re_match render_base64 0 pages)))
            None], 0%Z) /\
      PyMuPDFExtractor.main re_finditer pil_base64 crop_base64 pdf
      = ([PyMuPDFExtractor.mkResults true
            (Runs.all_records re_finditer pil_base64 crop_base64 0 pages)
            None], 0%Z)).
Proof.
  split.
  - intros e before [[-> ->] | (after & ->)].
    + split; reflexivity.
    + unfold PDFFigures2Python.main, PDFFigures2Python.extract,
        PyMuPDFExtractor.main, PyMuPDFExtractor.extract.
      cbn [bind]. rewrite Runs.loop_raises, Runs.loop_raises'.
      split; reflexivity.
  - intros pages ->.
    unfold PDFFigures2Python.main, PDFFigures2Python.extract,
      PyMuPDFExtractor.main, PyMuPDFExtractor.extract.
    cbn [bind]. rewrite Runs.loop_completes, Runs.loop_completes'.
    split; reflexivity.
Qed.

(** C4, amended, on a document whose second page raises and on one that
    is processed to the end. *)
Lemma C4_extractor_outcome_witness :
  snd (PDFFigures2Python.main Examples.no_match Examples.no_render
         (Return [Return (Examples.page_of [Examples.photo]);
                  Raise "cannot load image"])) = 0%Z /\
  map PDFFigures2Python.success
    (fst (PDFFigures2Python.main Examples.no_match Examples.no_render
            (Return [Return (Examples.page_of [Examples.photo])])))
  = [true].
Proof.
  split.
  - destruct (C4_extractor_outcome Examples.no_match Examples.no_render
                (fun _ _ => []) (fun _ => ""%string) (fun _ _ _ => ""%string)
                (Return [Return (Examples.page_of [Examples.photo]);
                         Raise "cannot load image"])) as [Hfail _].
    destruct (Hfail "cannot load image"%string
                [Examples.page_of [Examples.photo]]) as [H _].
    + right. exists []. reflexivity.
    + rewrite H. reflexivity.
  - destruct (C4_extractor_outcome Examples.no_match Examples.no_render
                (fun _ _ => []) (fun _ => ""%string) (fun _ _ _ => ""%string)
                (Return [Return (Examples.page_of [Examples.photo])]))
      as [_ Hok].
    destruct (Hok [Examples.page_of [Examples.photo]] eq_refl) as [H _].
    rewrite H. reflexivity.
Defined.

(** ** The source loop of the PDF fetcher *)

Module FetcherFacts.
Import PdfFetcher.
Local Open Scope string_scope.

(** A source fails: it raises, returns [None], or returns a result that is
    not successful. *)
Definition fails (r : fetched) : Prop :=
  match r with
  | ReturnsDict true _ _ => False
  | _ => True
  end.

Definition failsb (r : fetched) : bool :=
  match r with
  | ReturnsDict true _ _ => false
  | _ => true
  end.

Lemma failsb_fails r : failsb r = true <-> fails r.
Proof. destruct r as [| |[|] ? ?]; simpl; intuition congruence. Qed.

Section Loop.
Variable b64encode : string -> string.

Lemma try_all_fail doi : forall srcs called,
  (forall s, In s srcs -> fails (snd s doi)) ->
  try_sources b64encode srcs doi called
  = mkRun (called ++ map fst srcs)
          [Failure "All Python fallback sources failed"] 1.
Proof.
  induction srcs as [|[nm f] srcs IH]; intros called Hall.
  - cbn. now rewrite app_nil_r.
  - cbn [try_sources map fst].
    pose proof (Hall (nm, f) (or_introl eq_refl)) as Hf. cbn [snd] in Hf.
    replace (called ++ nm :: map fst srcs)%list
      with ((called ++ [nm]) ++ map fst srcs)%list
      by (rewrite <- app_assoc; reflexivity).
    destruct (f doi) as [| |[|] pdf source]; try contradiction;
      apply IH; intros s Hs; apply Hall; now right.
Qed.

Lemma try_first_success doi : forall before called nm f after pdf source,
  (forall s, In s before -> fails (snd s doi)) ->
  f doi = ReturnsDict true pdf source ->
  try_sources b64encode (before ++ (nm, f) :: after) doi called
  = mkRun (called ++ map fst before ++ [nm])
          [Success source (b64encode pdf)] 0.
Proof.
  induction before as [|[nm0 f0] before IH];
    intros called nm f after pdf source Hall Hf.
  - cbn [app try_sources map]. now rewrite Hf.
  - cbn [app try_sources map fst].
    pose proof (Hall (nm0, f0) (or_introl eq_refl)) as Hf0. cbn [snd] in Hf0.
    replace (called ++ nm0 :: map fst before ++ [nm])%list
      with ((called ++ [nm0]) ++ map fst before ++ [nm])%list
      by (rewrite <- app_assoc; reflexivity).
    destruct (f0 doi) as [| |[|] pdf0 source0]; try contradiction;
      apply IH; try assumption; intros s Hs; apply Hall; now right.
Qed.

(** Either every source fails, or some source is the first to succeed. *)
Lemma first_success_or_none doi : forall srcs : list (string * (string -> fetched)),
  (forall s, In s srcs -> fails (snd s doi)) \/
  exists before nm f after pdf source,
    srcs = (before ++ (nm, f) :: after)%list /\
    (forall s, In s before -> fails (snd s doi)) /\
    f doi = ReturnsDict true pdf source.
Proof.
  induction srcs as [|[nm f] srcs IH].
  - left. intros s [].
  - destruct (f doi) as [| |[|] pdf source] eqn:Hf.
    3:{ right. exists [], nm, f, srcs, pdf, source.
        split; [reflexivity|]. split; [intros s []|exact Hf]. }
    all: destruct IH as [Hall | (before & nm1 & f1 & after & pdf1 & src1
                                  & -> & Hb & Hf1)];
      [ left; intros s [<- | Hs]; [cbn [snd]; now rewrite Hf | now apply Hall]
      | right; exists ((nm, f) :: before), nm1, f1, after, pdf1, src1;
        split; [reflexivity|]; split; [|exact Hf1];
        intros s [<- | Hs]; [cbn [snd]; now rewrite Hf | now apply Hb] ].
Qed.

End Loop.
End FetcherFacts.

(** C7.  For a DOI argument, [main] of [pdf-fetcher-python-fallback.py]
    calls its sources in the fixed order.  Sources that raise, return
    [None] or return an unsuccessful result print nothing and are followed
    by the next source.  The first source that succeeds makes the process
    print the single object with [success] true, the source and the PDF in
    base64, and exit with code 0; the sources after it are not called.
    When every source fails the process prints the single object with
    the error "All Python fallback sources failed" and exits with code 1;
    and that error is printed only when every source has failed. *)
Theorem C7_fetcher_fallthrough
  (b64encode : string -> string)
  (f1 f2 f3 f4 f5 f6 f7 f8 f9 : string -> PdfFetcher.fetched)
  (script doi : string) (more : list string) :
  let srcs := PdfFetcher.sources f1 f2 f3 f4 f5 f6 f7 f8 f9 in
  let run := PdfFetcher.main b64encode f1 f2 f3 f4 f5 f6 f7 f8 f9
               (script :: doi :: more) in
  map fst srcs
  = [ "Unpaywall"; "LibKey Resolver"; "PubMed Central"; "PMC Direct API";
      "Europe PMC"; "bioRxiv/medRxiv"; "DOI.org redirect";
      "PMC HTML Full Text"; "Universal Journal HTML" ]%string /\
  (forall before nm f after pdf source,
      srcs = before ++ (nm, f) :: after ->
      (forall s, In s before -> FetcherFacts.fails (snd s doi)) ->
      f doi = PdfFetcher.ReturnsDict true pdf source ->
      run = PdfFetcher.mkRun (map fst before ++ [nm])
              [PdfFetcher.Success source (b64encode pdf)] 0) /\
  ((forall s, In s srcs -> FetcherFacts.fails (snd s doi)) ->
   run = PdfFetcher.mkRun (map fst srcs)
           [PdfFetcher.Failure "All Python fallback sources failed"] 1) /\
  (PdfFetcher.exit_code run = 1%Z ->
   forall s, In s srcs -> FetcherFacts.fails (snd s doi)).
Proof.
  intros srcs run. split; [reflexivity|].
  unfold run, PdfFetcher.main. fold srcs. split; [|split].
  - intros before nm f after pdf source -> Hall Hf.
    now apply FetcherFacts.try_first_success.
  - intros Hall. now apply FetcherFacts.try_all_fail.
  - intros Hexit.
    destruct (FetcherFacts.first_success_or_none doi srcs)
      as [Hall | (before & nm & f & after & pdf & source & Hs & Hb & Hf)];
      [exact Hall|].
    exfalso. rewrite Hs in Hexit.
    rewrite (FetcherFacts.try_first_success b64encode doi before []
               nm f after Hb Hf) in Hexit.
    discriminate Hexit.
Qed.

(** C7 on a run where the third source is the first to succeed, and on
    one where every source fails. *)
Lemma C7_fetcher_fallthrough_witness :
  let raising := fun _ : string => PdfFetcher.Raises in
  let nothing := fun _ : string => PdfFetcher.ReturnsNone in
  let found := fun _ : string =>
                 PdfFetcher.ReturnsDict true "%PDF-1.7" "PMC-Python" in
  PdfFetcher.main (fun b => b) raising nothing found raising raising raising
    raising raising raising ["fetch.py"; "10.1000/j.1"]%string
  = PdfFetcher.mkRun ["Unpaywall"; "LibKey Resolver"; "PubMed Central"]%string
      [PdfFetcher.Success "PMC-Python" "%PDF-1.7"] 0 /\
  PdfFetcher.main (fun b => b) raising nothing nothing raising raising raising
    raising raising raising ["fetch.py"; "10.1000/j.1"]%string
  = PdfFetcher.mkRun
      [ "Unpaywall"; "LibKey Resolver"; "PubMed Central"; "PMC Direct API";
        "Europe PMC"; "bioRxiv/medRxiv"; "DOI.org redirect";
        "PMC HTML Full Text"; "Universal Journal HTML" ]%string
      [PdfFetcher.Failure "All Python fallback sources failed"] 1.
Proof.
  intros raising nothing found. split.
  - destruct (C7_fetcher_fallthrough (fun b => b) raising nothing found
                raising raising raising raising raising raising
                "fetch.py" "10.1000/j.1" []) as (_ & Hfirst & _).
    apply (Hfirst [("Unpaywall"%string, raising);
                   ("LibKey Resolver"%string, nothing)]
                  "PubMed Central"%string found
                  [("PMC Direct API"%string, raising);
                   ("Europe PMC"%string, raising);
                   ("bioRxiv/medRxiv"%string, raising);
                   ("DOI.org redirect"%string, raising);
                   ("PMC HTML Full Text"%string, raising);
                   ("Universal Journal HTML"%string, raising)]
                  "%PDF-1.7"%string "PMC-Python"%string).
    + reflexivity.
    + intros s [<- | [<- | []]]; exact I.
    + reflexivity.
  - destruct (C7_fetcher_fallthrough (fun b => b) raising nothing nothing
                raising raising raising raising raising raising
                "fetch.py" "10.1000/j.1" []) as (_ & _ & Hnone & _).
    apply Hnone.
    intros s Hs. cbn in Hs.
    repeat (destruct Hs as [<- | Hs]; [exact I|]). destruct Hs.
Defined.

(** ** The character filter of the sanitizer *)

Module SanitizerFacts.
Import UniversalTextSanitizer.
Local Open Scope N_scope.

(** The characters the claim allows in a sanitized title or content. *)
Definition allowed (c : N) : Prop :=
  (32 <= c <= 126) \/ (160 <= c <= 255) \/ c = 10 \/ c = 13 \/ c = 9.

Lemma xml_safe_allowed c : xml_safe c = true <-> allowed c.
Proof.
  unfold xml_safe, allowed.
  rewrite !orb_true_iff, !andb_true_iff, !N.leb_le, !N.eqb_eq. tauto.
Qed.

Lemma allowed_not_surrogate c : allowed c -> is_surrogate c = false.
Proof.
  unfold allowed, is_surrogate. intros H.
  apply andb_false_iff. left. apply N.leb_gt. lia.
Qed.

Lemma xml_clean_allowed text : Forall allowed (xml_clean text).
Proof.
  unfold xml_clean. apply Forall_forall. intros c Hc.
  apply in_map_iff in Hc. destruct Hc as (c0 & <- & _).
  destruct (xml_safe c0) eqn:E.
  - now apply xml_safe_allowed.
  - left. lia.
Qed.

Lemma no_surrogate text :
  Forall allowed text -> existsb is_surrogate text = false.
Proof.
  induction 1 as [|c text Hc _ IH]; [reflexivity|].
  cbn [existsb]. now rewrite (allowed_not_surrogate Hc), IH.
Qed.

End SanitizerFacts.

(** C10.  For the contexts ['title'] and ['content'], [sanitize] returns a
    string (it does not raise) every character of which has its code
    point in [32, 126] or in [160, 255], or is a newline, a carriage
    return or a tab; and for [None] or the empty string it returns the
    empty string, in every context. *)
Theorem C10_sanitize_characters
  (ftfy_fix_text unicodedata_normalize_NFC html_unescape :
     UniversalTextSanitizer.pystr -> option UniversalTextSanitizer.pystr)
  (re_word : N -> bool)
  (text : option UniversalTextSanitizer.pystr) (context : string) :
  let sanitize :=
    UniversalTextSanitizer.sanitize ftfy_fix_text unicodedata_normalize_NFC
      html_unescape re_word in
  (context = "title"%string \/ context = "content"%string ->
   exists s, sanitize text context = Return s /\
             Forall SanitizerFacts.allowed s) /\
  sanitize None context = Return [] /\
  sanitize (Some []) context = Return [].
Proof.
  intros sanitize. split; [|split; reflexivity].
  intros Hctx. unfold sanitize, UniversalTextSanitizer.sanitize.
  destruct text as [[|c text]|].
  - exists []. split; [reflexivity | constructor].
  - assert (Hclean : (String.eqb context "title"
                      || String.eqb context "content") = true).
    { destruct Hctx as [-> | ->]; reflexivity. }
    rewrite Hclean.
    match goal with
    | |- context [UniversalTextSanitizer.xml_clean ?t] =>
        pose proof (SanitizerFacts.xml_clean_allowed t) as Hall;
        set (cleaned := UniversalTextSanitizer.xml_clean t) in *
    end.
    rewrite (SanitizerFacts.no_surrogate Hall).
    exists cleaned. split; [reflexivity | exact Hall].
  - exists []. split; [reflexivity | constructor].
Qed.

(** C10 on a text with a CJK character, an em dash, a beta, a tab and an
    emoji. *)
Lemma C10_sanitize_characters_witness :
  UniversalTextSanitizer.sanitize (fun t => Some t) (fun _ => None)
    (fun t => Some t) (fun c => N.leb 65 c && N.leb c 122)
    (Some [0x4E2D; 65; 0x2014; 0x03B2; 9; 0x1F600]%N) "content"
  = Return [32; 65; 45; 45; 98; 101; 116; 97; 32; 32]%N /\
  exists s,
    UniversalTextSanitizer.sanitize (fun t => Some t) (fun _ => None)
      (fun t => Some t) (fun c => N.leb 65 c && N.leb c 122)
      (Some [0x4E2D; 65; 0x2014; 0x03B2; 9; 0x1F600]%N) "content"
    = Return s /\ Forall SanitizerFacts.allowed s.
Proof.
  split; [vm_compute; reflexivity|].
  apply (C10_sanitize_characters (fun t => Some t) (fun _ => None)
           (fun t => Some t) (fun c => N.leb 65 c && N.leb c 122)
           (Some [0x4E2D; 65; 0x2014; 0x03B2; 9; 0x1F600]%N) "content").
  right. reflexivity.
Defined.

(** ** The grouping of drawings *)

Module Groups.
Import QB QBFacts PDFFigures2Python.
Local Open Scope Q_scope.

(** The drawing carries a rectangle that counts as true. *)
Definition has_rect (d : fitz.Drawing) : bool :=
  match true_rect d with
  | Some _ => true
  | None => false
  end.

(** The drawing can join the group of a seed with rectangle [rect1]. *)
Definition joinable (rect1 : fitz.Rect) (d : fitz.Drawing) : bool :=
  match true_rect d with
  | Some rect2 => close_enough rect1 rect2
  | None => false
  end.

(** A group as [_group_drawings] builds it: a seed with a rectangle,
    followed by drawings whose rectangle's top-left corner is less than
    200 units from the seed's in x and in y. *)
Definition well_grouped (g : list fitz.Drawing) : Prop :=
  exists seed rect1 members,
    g = seed :: members /\ true_rect seed = Some rect1 /\
    Forall (fun m => exists rect2,
                true_rect m = Some rect2 /\
                Qabs (fitz.x0 rect1 - fitz.x0 rect2) < 200 /\
                Qabs (fitz.y0 rect1 - fitz.y0 rect2) < 200)
           members.

(** The entries the inner loop selects for the seed at position [i]. *)
Definition sel (i : nat) (rect1 : fitz.Rect) (used : list nat)
  (js : list (nat * fitz.Drawing)) : list (nat * fitz.Drawing) :=
  filter (fun jd => negb (mem (fst jd) used || Nat.eqb (fst jd) i)
                    && joinable rect1 (snd jd))
         js.

(** The entries that still await a group. *)
Definition waiting (used : list nat) (todo : list (nat * fitz.Drawing))
  : list (nat * fitz.Drawing) :=
  filter (fun jd => negb (mem (fst jd) used) && has_rect (snd jd)) todo.

Lemma mem_In k l : mem k l = true <-> In k l.
Proof.
  unfold mem. rewrite existsb_exists. split.
  - intros (x & Hx & E). apply Nat.eqb_eq in E. now subst.
  - intros H. exists k. split; [exact H | apply Nat.eqb_refl].
Qed.

Lemma bool_ext (a b : bool) : (a = true <-> b = true) -> a = b.
Proof. destruct a, b; intuition congruence. Qed.

Lemma mem_cons k j l : mem k (j :: l) = Nat.eqb k j || mem k l.
Proof. reflexivity. Qed.

Lemma mem_app k l l' : mem k (l ++ l') = mem k l || mem k l'.
Proof. apply existsb_app. Qed.

Lemma mem_rev k l : mem k (rev l) = mem k l.
Proof. apply bool_ext. rewrite !mem_In. symmetry. apply in_rev. Qed.

Lemma joinable_has_rect r d : joinable r d = true -> has_rect d = true.
Proof. unfold joinable, has_rect. now destruct (true_rect d). Qed.

Lemma fst_inj (l : list (nat * fitz.Drawing)) :
  NoDup (map fst l) ->
  forall a b, In a l -> In b l -> fst a = fst b -> a = b.
Proof.
  induction l as [|x l IH]; intros Hnd a b Ha Hb E; [destruct Ha|].
  cbn [map] in Hnd. inversion Hnd as [|? ? Hnotin Hnd']; subst.
  destruct Ha as [<- | Ha], Hb as [<- | Hb].
  - reflexivity.
  - exfalso. apply Hnotin. rewrite E. now apply in_map.
  - exfalso. apply Hnotin. rewrite <- E. now apply in_map.
  - now apply IH.
Qed.

Lemma sel_ext i r used used' js :
  (forall jd, In jd js -> mem (fst jd) used = mem (fst jd) used') ->
  sel i r used js = sel i r used' js.
Proof.
  intros H. unfold sel. apply filter_ext_in. intros jd Hjd.
  now rewrite (H jd Hjd).
Qed.

(** The inner loop appends the selected entries to the group and marks
    them as used. *)
Lemma group_inner_spec i r : forall js group used,
  NoDup (map fst js) ->
  group_inner i r js group used
  = (group ++ map snd (sel i r used js),
     rev (map fst (sel i r used js)) ++ used).
Proof.
  induction js as [|[j other] js IH]; intros group used Hnd.
  - cbn. now rewrite app_nil_r.
  - cbn [map fst] in Hnd. inversion Hnd as [|? ? Hnotin Hnd']; subst.
    cbn [group_inner]. unfold sel. cbn [filter fst snd].
    fold (sel i r used js). unfold joinable.
    destruct (mem j used || Nat.eqb j i) eqn:Eskip; cbn [negb andb].
    + now apply IH.
    + destruct (true_rect other) as [rect2|]; [|now apply IH].
      destruct (close_enough r rect2); [|now apply IH].
      rewrite IH by exact Hnd'.
      assert (Hsame : sel i r (j :: used) js = sel i r used js).
      { apply sel_ext. intros jd Hjd. rewrite mem_cons.
        destruct (Nat.eqb_spec (fst jd) j) as [E | _]; [|reflexivity].
        exfalso. apply Hnotin. rewrite <- E. now apply in_map. }
      rewrite Hsame. cbn [map fst snd rev].
      now rewrite <- !app_assoc.
Qed.

(** The members the inner loop adds can all join the seed. *)
Lemma sel_joinable i r used js :
  Forall (fun m => joinable r m = true) (map snd (sel i r used js)).
Proof.
  apply Forall_forall. intros m Hm. apply in_map_iff in Hm.
  destruct Hm as (jd & <- & Hjd). unfold sel in Hjd.
  apply filter_In in Hjd. destruct Hjd as [_ H].
  now apply andb_true_iff in H.
Qed.

Lemma joinable_close r m :
  joinable r m = true ->
  exists rect2, true_rect m = Some rect2 /\
                Qabs (fitz.x0 r - fitz.x0 rect2) < 200 /\
                Qabs (fitz.y0 r - fitz.y0 rect2) < 200.
Proof.
  unfold joinable, close_enough.
  destruct (true_rect m) as [rect2|]; [|discriminate].
  intros H. apply andb_true_iff in H. destruct H as [Hx Hy].
  exists rect2. split; [reflexivity|]. split; now apply ltb_lt.
Qed.

Lemma filter_split {A} (pa pb pc : A -> bool) (l : list A) :
  (forall x, In x l -> pc x = pa x || pb x) ->
  (forall x, In x l -> pa x && pb x = false) ->
  Permutation (filter pa l ++ filter pb l) (filter pc l).
Proof.
  induction l as [|x l IH]; intros Hc Hd; [constructor|].
  cbn [filter].
  pose proof (Hc x (or_introl eq_refl)) as Hcx.
  pose proof (Hd x (or_introl eq_refl)) as Hdx.
  assert (IH' : Permutation (filter pa l ++ filter pb l) (filter pc l)).
  { apply IH; intros y Hy; [apply Hc | apply Hd]; now right. }
  destruct (pa x), (pb x); cbn in Hcx, Hdx; try discriminate;
    rewrite Hcx.
  - cbn [app]. now constructor.
  - apply Permutation_sym, Permutation_cons_app, Permutation_sym, IH'.
  - exact IH'.
Qed.

Lemma filter_none {A} (p : A -> bool) (l : list A) :
  (forall x, In x l -> p x = false) -> filter p l = [].
Proof.
  induction l as [|x l IH]; intros H; [reflexivity|].
  cbn [filter]. rewrite (H x (or_introl eq_refl)).
  apply IH. intros y Hy. apply H. now right.
Qed.

Lemma later_indices (prefix rest : list (nat * fitz.Drawing)) i d :
  NoDup (map fst (prefix ++ (i, d) :: rest)) ->
  NoDup (map fst rest) /\ forall jd, In jd rest -> fst jd <> i.
Proof.
  rewrite map_app. cbn [map fst]. intros Hnd. split.
  - apply NoDup_app_remove_l in Hnd. now inversion Hnd.
  - intros jd Hjd E. apply NoDup_remove_2 in Hnd. apply Hnd.
    apply in_or_app. right. rewrite <- E. now apply in_map.
Qed.

(** The members selected for a seed, seen from the entries after it. *)
Lemma sel_after prefix rest i d r used :
  NoDup (map fst (prefix ++ (i, d) :: rest)) ->
  (forall jd, In jd prefix -> mem (fst jd) used = true) ->
  sel i r (i :: used) (prefix ++ (i, d) :: rest)
  = filter (fun jd => negb (mem (fst jd) used) && joinable r (snd jd)) rest.
Proof.
  intros Hnd Hused. destruct (later_indices _ _ _ _ Hnd) as [_ Hne].
  unfold sel. rewrite filter_app. cbn [filter fst snd].
  rewrite filter_none.
  2:{ intros jd Hjd. rewrite mem_cons, (Hused jd Hjd), orb_true_r.
      reflexivity. }
  rewrite mem_cons, Nat.eqb_refl. cbn [orb negb andb app].
  apply filter_ext_in. intros jd Hjd. rewrite mem_cons.
  replace (Nat.eqb (fst jd) i) with false
    by (symmetry; apply Nat.eqb_neq; now apply Hne).
  now rewrite orb_false_r.
Qed.

(** What awaits a group once a seed has taken its members. *)
Lemma waiting_after rest r used :
  NoDup (map fst rest) ->
  let taken := filter (fun jd => negb (mem (fst jd) used)
                                 && joinable r (snd jd)) rest in
  forall i, (forall jd, In jd rest -> fst jd <> i) ->
  Permutation
    (map snd taken
     ++ map snd (waiting (rev (map fst taken) ++ i :: used) rest))
    (map snd (waiting used rest)).
Proof.
  intros Hnd taken i Hne. rewrite <- map_app. apply Permutation_map.
  unfold waiting. apply filter_split.
  - intros jd Hjd.
    rewrite mem_app, mem_rev, mem_cons.
    replace (Nat.eqb (fst jd) i) with false
      by (symmetry; apply Nat.eqb_neq; now apply Hne).
    cbn [orb].
    assert (Htaken : mem (fst jd) (map fst taken)
                     = negb (mem (fst jd) used) && joinable r (snd jd)).
    { apply bool_ext. rewrite mem_In, in_map_iff. split.
      - intros (jd' & E & Hjd'). unfold taken in Hjd'.
        apply filter_In in Hjd'. destruct Hjd' as [Hin Hp].
        now rewrite <- (fst_inj _ Hnd jd' jd Hin Hjd E).
      - intros Hp. exists jd. split; [reflexivity|].
        unfold taken. apply filter_In. now split. }
    rewrite Htaken.
    destruct (mem (fst jd) used); cbn; [reflexivity|].
    destruct (joinable r (snd jd)) eqn:Ej; cbn; [|reflexivity].
    now rewrite (joinable_has_rect _ _ Ej).
  - intros jd Hjd.
    rewrite mem_app, mem_rev, mem_cons.
    replace (Nat.eqb (fst jd) i) with false
      by (symmetry; apply Nat.eqb_neq; now apply Hne).
    cbn [orb].
    destruct (mem (fst jd) used) eqn:Eu; cbn; [reflexivity|].
    destruct (joinable r (snd jd)) eqn:Ej; cbn; [|reflexivity].
    assert (Hin : mem (fst jd) (map fst taken) = true).
    { apply mem_In, in_map. unfold taken. apply filter_In.
      split; [exact Hjd|]. now rewrite Eu, Ej. }
    now rewrite Hin.
Qed.

Lemma waiting_skip used i d rest :
  (mem i used = true \/ has_rect d = false) ->
  waiting used ((i, d) :: rest) = waiting used rest.
Proof.
  intros H. unfold waiting. cbn [filter fst snd].
  destruct H as [-> | ->]; [reflexivity | now rewrite andb_false_r].
Qed.

Lemma waiting_keep used i d rest :
  mem i used = false -> has_rect d = true ->
  waiting used ((i, d) :: rest) = (i, d) :: waiting used rest.
Proof.
  intros Hu Hr. unfold waiting. cbn [filter fst snd].
  now rewrite Hu, Hr.
Qed.

Lemma waiting_mark used i rest :
  (forall jd, In jd rest -> fst jd <> i) ->
  waiting (i :: used) rest = waiting used rest.
Proof.
  intros Hne. unfold waiting. apply filter_ext_in. intros jd Hjd.
  rewrite mem_cons.
  replace (Nat.eqb (fst jd) i) with false
    by (symmetry; apply Nat.eqb_neq; now apply Hne).
  reflexivity.
Qed.

(** The outer loop distributes the waiting entries over groups. *)
Lemma group_outer_perm all :
  NoDup (map fst all) ->
  forall todo prefix groups used,
    all = prefix ++ todo ->
    (forall jd, In jd prefix -> mem (fst jd) used = true) ->
    Permutation (List.concat (group_outer all todo groups used))
                (List.concat groups ++ map snd (waiting used todo)).
Proof.
  intros Hnd.
  induction todo as [|[i d] rest IH]; intros prefix groups used Hall Hused.
  - cbn. now rewrite app_nil_r.
  - assert (Hall' : all = (prefix ++ [(i, d)]) ++ rest)
      by (rewrite <- app_assoc; exact Hall).
    pose proof Hnd as Hnd2. rewrite Hall in Hnd2.
    destruct (later_indices _ _ _ _ Hnd2) as [Hndrest Hne].
    cbn [group_outer].
    destruct (mem i used) eqn:Eused.
    + rewrite waiting_skip by now left.
      apply (IH (prefix ++ [(i, d)])); [exact Hall'|].
      intros jd Hjd. apply in_app_or in Hjd.
      destruct Hjd as [Hjd | [<- | []]]; [now apply Hused | exact Eused].
    + assert (Hused' : forall used', 
                 (forall k, mem k (i :: used) = true -> mem k used' = true) ->
                 forall jd, In jd (prefix ++ [(i, d)]) ->
                            mem (fst jd) used' = true).
      { intros used' Hsub jd Hjd. apply Hsub. rewrite mem_cons.
        apply in_app_or in Hjd. destruct Hjd as [Hjd | [<- | []]].
        - rewrite (Hused jd Hjd). apply orb_true_r.
        - cbn [fst]. now rewrite Nat.eqb_refl. }
      destruct (true_rect d) as [rect1|] eqn:Erect.
      * rewrite (group_inner_spec i rect1 all [d] (i :: used) Hnd).
        rewrite Hall at 2 3.
        rewrite (sel_after prefix rest i d rect1 used Hnd2 Hused).
        set (taken := filter (fun jd => negb (mem (fst jd) used)
                                        && joinable rect1 (snd jd)) rest).
        eapply Permutation_trans.
        { apply (IH (prefix ++ [(i, d)])); [exact Hall'|].
          apply Hused'. intros k Hk. rewrite mem_app, Hk.
          apply orb_true_r. }
        rewrite concat_app. cbn [List.concat]. rewrite app_nil_r.
        rewrite <- app_assoc. apply Permutation_app_head.
        rewrite waiting_keep
          by (try exact Eused; unfold has_rect; now rewrite Erect).
        cbn [map snd app]. constructor.
        apply waiting_after; assumption.
      * rewrite waiting_skip by (right; unfold has_rect; now rewrite Erect).
        rewrite <- (@waiting_mark used i rest Hne).
        apply (IH (prefix ++ [(i, d)])); [exact Hall'|].
        apply Hused'. auto.
Qed.

(** Every group the outer loop adds is a seed with joinable members. *)
Lemma group_outer_wf all :
  NoDup (map fst all) ->
  forall todo groups used,
    Forall well_grouped groups ->
    Forall well_grouped (group_outer all todo groups used).
Proof.
  intros Hnd.
  induction todo as [|[i d] rest IH]; intros groups used Hwf.
  - exact Hwf.
  - cbn [group_outer]. destruct (mem i used); [now apply IH|].
    destruct (true_rect d) as [rect1|] eqn:Erect; [|now apply IH].
    rewrite (group_inner_spec i rect1 all [d] (i :: used) Hnd).
    apply IH. apply Forall_app. split; [exact Hwf|].
    constructor; [|constructor].
    exists d, rect1, (map snd (sel i rect1 (i :: used) all)).
    split; [reflexivity|]. split; [exact Erect|].
    eapply Forall_impl; [|apply sel_joinable].
    intros m Hm. now apply joinable_close.
Qed.

Lemma enumerate_fst {A} (l : list A) : forall k,
  map fst (enumerate_from k l) = seq k (List.length l).
Proof.
  induction l as [|a l IH]; intros k; cbn; [reflexivity|].
  now rewrite IH.
Qed.

Lemma enumerate_snd {A} (l : list A) : forall k,
  map snd (enumerate_from k l) = l.
Proof.
  induction l as [|a l IH]; intros k; cbn; [reflexivity|].
  now rewrite IH.
Qed.

Lemma filter_snd {A B} (p : B -> bool) (l : list (A * B)) :
  map snd (filter (fun x => p (snd x)) l) = filter p (map snd l).
Proof.
  induction l as [|x l IH]; cbn; [reflexivity|].
  destruct (p (snd x)); cbn; now rewrite IH.
Qed.

(** The groups hold the drawings that carry a rectangle, each once. *)
Lemma group_drawings_partition drawings :
  Permutation (List.concat (_group_drawings drawings))
              (filter has_rect drawings).
Proof.
  unfold _group_drawings. destruct drawings as [|d0 ds0]; [constructor|].
  set (ds := d0 :: ds0).
  assert (Hnd : NoDup (map fst (enumerate ds))).
  { unfold enumerate. rewrite enumerate_fst. apply seq_NoDup. }
  pose proof (@group_outer_perm (enumerate ds) Hnd (enumerate ds) [] [] []
                eq_refl ltac:(intros ? [])) as H.
  cbn [List.concat app] in H.
  replace (map snd (waiting [] (enumerate ds))) with (filter has_rect ds)
    in H; [exact H|].
  unfold waiting. cbn [mem existsb negb andb].
  rewrite (filter_snd has_rect). unfold enumerate.
  now rewrite enumerate_snd.
Qed.

Lemma group_drawings_wf drawings :
  Forall well_grouped (_group_drawings drawings).
Proof.
  unfold _group_drawings. destruct drawings as [|d0 ds0]; [constructor|].
  apply group_outer_wf; [|constructor].
  unfold enumerate. rewrite enumerate_fst. apply seq_NoDup.
Qed.

End Groups.

(** ** The records of [_extract_vector_graphics] *)

Module Vector.
Import QB QBFacts PDFFigures2Python.
Local Open Scope Q_scope.
Local Open Scope string_scope.

(** The box of a drawing's rectangle. *)
Definition drawing_box (page : fitz.Page) (d : fitz.Drawing) : BoundingBox :=
  ImageLoop.placement (rect_or page d).

Lemma group_bbox_union page d ds :
  Union.union_of (group_bbox page d ds) (map (drawing_box page) (d :: ds)).
Proof.
  replace (group_bbox page d ds)
    with (Union.union_bbox (drawing_box page d)
            (map (drawing_box page) ds)).
  - apply Union.union_bbox_is_union.
  - unfold group_bbox, Union.union_bbox, drawing_box, ImageLoop.placement.
    cbn [x1 y1 x2 y2]. now rewrite !map_map.
Qed.

(** Six overlapping strokes of a chart and the caption under them. *)
Definition stroke (k : Q) : fitz.Drawing :=
  fitz.mkDrawing
    (Some (fitz.mkRect (100 + k) (100 + k) (300 + k) (300 + k))) None.

Definition chart : list fitz.Drawing :=
  [stroke 0; stroke 10; stroke 20; stroke 30; stroke 40; stroke 50].

(** A rule far from the chart, which forms a group of its own. *)
Definition rule : fitz.Drawing :=
  fitz.mkDrawing (Some (fitz.mkRect 72 700 540 701)) None.

Definition chart_caption : Caption :=
  mkCaption "Figure" "Figure 3. Survival" (mkBoundingBox 100 360 300 372)
            "Figure 3. ".

Definition chart_page : fitz.Page :=
  fitz.mkPage [] "" [] (rule :: chart) (fitz.mkRect 0 0 612 792).

End Vector.

(** C6.  [_group_drawings] partitions the drawings that carry a rectangle
    into groups: every such drawing is in exactly one group, and a group
    is a seed followed by drawings whose rectangle's top-left corner is
    less than 200 units from the seed's in x and in y.
    [_extract_vector_graphics] handles the groups one by one.  A group
    with fewer than 5 drawings, or whose union bounding box has an area
    below 10000, or for which no caption satisfies the nearest-caption
    rule, yields no record; any other group yields exactly one record,
    whose bounding box is the union of the rectangles of its members and
    whose type is that of the caption chosen by the nearest-caption
    rule. *)
Theorem C6_vector_groups
  (re_match : bool -> string -> string -> option string)
  (render_base64 : fitz.Page -> Q -> fitz.Rect -> string)
  (page : fitz.Page) (captions : list PDFFigures2Python.Caption)
  (page_num : nat) :
  let groups := PDFFigures2Python._group_drawings (fitz.drawings page) in
  let record := PDFFigures2Python.vector_figure re_match render_base64 page
                  captions page_num in
  Permutation (List.concat groups)
              (filter Groups.has_rect (fitz.drawings page)) /\
  Forall Groups.well_grouped groups /\
  PDFFigures2Python._extract_vector_graphics re_match render_base64 page
    captions page_num
  = flat_map record groups /\
  forall d ds,
    In (d :: ds) groups ->
    let u := PDFFigures2Python.group_bbox page d ds in
    Union.union_of u (map (Vector.drawing_box page) (d :: ds)) /\
    ((List.length (d :: ds) < 5)%nat \/
     (PDFFigures2Python.area u < 10000)%Q \/
     PDFFigures2Python._find_nearest_caption u captions = None ->
     record (d :: ds) = []) /\
    ((5 <= List.length (d :: ds))%nat ->
     (10000 <= PDFFigures2Python.area u)%Q ->
     forall c,
       PDFFigures2Python._find_nearest_caption u captions = Some c ->
       NearestCaption.nearest_in u captions c /\
       exists f, record (d :: ds) = [f] /\ bbox f = u /\
                 figure_type f = PDFFigures2Python.ctype c).
Proof.
  intros groups record.
  split; [apply Groups.group_drawings_partition|].
  split; [apply Groups.group_drawings_wf|].
  split.
  { unfold PDFFigures2Python._extract_vector_graphics, groups.
    destruct (fitz.drawings page); reflexivity. }
  intros d ds Hin u.
  split; [apply Vector.group_bbox_union|].
  unfold record, PDFFigures2Python.vector_figure. fold u.
  split.
  - intros [Hlen | [Harea | Hnone]].
    + apply Nat.ltb_lt in Hlen. now rewrite Hlen.
    + destruct (List.length (d :: ds) <? 5)%nat; [reflexivity|].
      apply QBFacts.ltb_lt in Harea. now rewrite Harea.
    + destruct (List.length (d :: ds) <? 5)%nat; [reflexivity|].
      destruct (QB.ltb _ _); [reflexivity|]. now rewrite Hnone.
  - intros Hlen Harea c Hc.
    apply Nat.ltb_ge in Hlen. rewrite Hlen.
    apply QBFacts.ltb_ge in Harea. rewrite Harea, Hc.
    split.
    + pose proof (NearestCaption.find_nearest_caption_spec u captions) as H.
      now rewrite Hc in H.
    + eexists. split; [reflexivity|]. split; reflexivity.
Qed.

(** C6 on the example page: the rule stays alone and yields nothing, the
    six strokes form one group and yield one record. *)
Lemma C6_vector_groups_witness :
  PDFFigures2Python._group_drawings (Vector.rule :: Vector.chart)
  = [[Vector.rule]; Vector.chart] /\
  PDFFigures2Python.vector_figure Examples.no_match Examples.no_render
    Vector.chart_page [Vector.chart_caption] 0 [Vector.rule] = [] /\
  exists f,
    PDFFigures2Python.vector_figure Examples.no_match Examples.no_render
      Vector.chart_page [Vector.chart_caption] 0 Vector.chart = [f] /\
    bbox f = mkBoundingBox 100 100 350 350 /\
    figure_type f = "Figure"%string.
Proof.
  destruct (C6_vector_groups Examples.no_match Examples.no_render
              Vector.chart_page [Vector.chart_caption] 0)
    as (_ & _ & _ & Hgroup).
  split; [reflexivity|]. split.
  - destruct (Hgroup Vector.rule []) as (_ & Hnone & _).
    + left. reflexivity.
    + apply Hnone. left. cbn. lia.
  - destruct (Hgroup (Vector.stroke 0)
                [Vector.stroke 10; Vector.stroke 20; Vector.stroke 30;
                 Vector.stroke 40; Vector.stroke 50])
      as (_ & _ & Hone).
    + right. left. reflexivity.
    + destruct (Hone ltac:(cbn; lia) ltac:(vm_compute; discriminate)
                  Vector.chart_caption eq_refl)
        as (_ & f & Hf & Hb & Ht).
      exists f. split; [exact Hf|]. split; [|exact Ht].
      rewrite Hb. vm_compute. reflexivity.
Defined.

(* ================================================================== *)
(** * Further properties of the scripts *)

Unset Implicit Arguments.

(** ** Captions found by [_find_captions] *)

Module CaptionScan.
Import QB QBFacts PDFFigures2Python.
Local Open Scope Q_scope.

(** The rectangle [b] covers the rectangle [s]. *)
Definition covers (b s : fitz.Rect) : Prop :=
  fitz.x0 b <= fitz.x0 s /\ fitz.y0 b <= fitz.y0 s /\
  fitz.x1 s <= fitz.x1 b /\ fitz.y1 s <= fitz.y1 b.

(** The texts of the spans of a line, joined. *)
Definition line_text (ss : list fitz.Span) : string :=
  PyStr.join (map (fun sp => match fitz.span_text sp with
                             | Some t => t
                             | None => EmptyString
                             end) ss).

Lemma covers_refl b : covers b b.
Proof. unfold covers. repeat split; apply Qle_refl. Qed.

Lemma covers_trans a b c : covers a b -> covers b c -> covers a c.
Proof.
  unfold covers. intros (A1 & A2 & A3 & A4) (B1 & B2 & B3 & B4).
  repeat split; eapply Qle_trans; eassumption.
Qed.

(** The box built from [b] and [s] in the loop covers both. *)
Lemma extend_covers b s :
  let e := fitz.mkRect (Qmin (fitz.x0 b) (fitz.x0 s))
                       (Qmin (fitz.y0 b) (fitz.y0 s))
                       (Qmax (fitz.x1 b) (fitz.x1 s))
                       (Qmax (fitz.y1 b) (fitz.y1 s)) in
  covers e b /\ covers e s.
Proof.
  unfold covers. cbn.
  repeat split;
    first [ apply Q.le_min_l | apply Q.le_min_r
          | apply Q.le_max_l | apply Q.le_max_r ].
Qed.

Lemma scan_spans_from_box : forall ss text b,
  exists b',
    scan_spans ss text (Some b)
    = ((text ++ line_text ss)%string, Some b') /\
    covers b' b /\
    forall sp s, In sp ss -> fitz.span_bbox sp = Some s -> covers b' s.
Proof.
  induction ss as [|sp0 ss IH]; intros text b.
  - exists b. cbn. rewrite Merge.append_empty_r.
    split; [reflexivity|]. split; [apply covers_refl | intros ? ? []].
  - cbn [scan_spans].
    set (s0 := match fitz.span_bbox sp0 with
               | Some s => s
               | None => fitz.mkRect (fitz.x1 b) (fitz.y0 b)
                                     (fitz.x1 b) (fitz.y1 b)
               end).
    destruct (extend_covers b s0) as [Hb Hs0].
    destruct (IH (text ++ match fitz.span_text sp0 with
                          | Some t => t | None => EmptyString end)%string
                 (fitz.mkRect (Qmin (fitz.x0 b) (fitz.x0 s0))
                              (Qmin (fitz.y0 b) (fitz.y0 s0))
                              (Qmax (fitz.x1 b) (fitz.x1 s0))
                              (Qmax (fitz.y1 b) (fitz.y1 s0))))
      as (b' & Heq & Hcov & Hall).
    exists b'. split; [|split].
    + rewrite Heq. unfold line_text. cbn [map PyStr.join fold_right].
      now rewrite Merge.append_assoc.
    + eapply covers_trans; eassumption.
    + intros sp s [<- | Hin] Hs.
      * assert (E : s0 = s) by (unfold s0; now rewrite Hs).
        rewrite <- E. eapply covers_trans; eassumption.
      * now apply (Hall sp).
Qed.

Lemma scan_spans_from_none : forall ss text,
  fst (scan_spans ss text None) = (text ++ line_text ss)%string /\
  match snd (scan_spans ss text None) with
  | Some b' =>
      forall sp s, In sp ss -> fitz.span_bbox sp = Some s -> covers b' s
  | None => forall sp, In sp ss -> fitz.span_bbox sp = None
  end.
Proof.
  induction ss as [|sp0 ss IH]; intros text.
  - cbn. rewrite Merge.append_empty_r. split; [reflexivity | intros ? []].
  - cbn [scan_spans].
    destruct (fitz.span_bbox sp0) as [s0|] eqn:Hs0.
    + destruct (scan_spans_from_box ss
                  (text ++ match fitz.span_text sp0 with
                           | Some t => t | None => EmptyString end)%string
                  s0) as (b' & Heq & Hcov & Hall).
      rewrite Heq. cbn [fst snd]. split.
      * unfold line_text. cbn [map PyStr.join fold_right].
        now rewrite Merge.append_assoc.
      * intros sp s [<- | Hin] Hs.
        -- rewrite Hs0 in Hs. injection Hs as <-. exact Hcov.
        -- now apply (Hall sp).
    + destruct (IH (text ++ match fitz.span_text sp0 with
                            | Some t => t | None => EmptyString end)%string)
        as [Hfst Hsnd].
      split.
      * rewrite Hfst. unfold line_text. cbn [map PyStr.join fold_right].
        now rewrite Merge.append_assoc.
      * destruct (snd (scan_spans ss _ None)) as [b'|].
        -- intros sp s [<- | Hin] Hs; [congruence | now apply (Hsnd sp)].
        -- intros sp [<- | Hin]; [exact Hs0 | now apply Hsnd].
Qed.

Section Matcher.
Variable re_match : bool -> string -> string -> option string.

(** [first_match] returns the match of the first pattern that matches. *)
Lemma first_match_some ignorecase text : forall patterns m,
  first_match re_match ignorecase patterns text = Some m ->
  exists before p after,
    patterns = before ++ p :: after /\
    re_match ignorecase p text = Some m /\
    forall q, In q before -> re_match ignorecase q text = None.
Proof.
  induction patterns as [|p ps IH]; intros m H; cbn in H; [discriminate|].
  destruct (re_match ignorecase p text) as [m0|] eqn:Hp.
  - injection H as <-. exists [], p, ps.
    split; [reflexivity|]. split; [exact Hp | intros ? []].
  - destruct (IH m H) as (before & q & after & -> & Hq & Hnone).
    exists (p :: before), q, after.
    split; [reflexivity|]. split; [exact Hq|].
    intros r [<- | Hr]; [exact Hp | now apply Hnone].
Qed.

(** What [line_captions] says of each caption of a line. *)
Definition caption_of_line (line : fitz.Line) (c : Caption) : Prop :=
  ctext c = line_text (fitz.spans line) /\
  ctext c <> EmptyString /\
  ((ctype c = "Figure"%string /\
    first_match re_match true figure_patterns (ctext c) = Some (cmatch c)) \/
   (ctype c = "Table"%string /\
    first_match re_match true table_patterns (ctext c) = Some (cmatch c))) /\
  forall sp s, In sp (fitz.spans line) -> fitz.span_bbox sp = Some s ->
               covers (fitz.mkRect (x1 (cbbox c)) (y1 (cbbox c))
                                   (x2 (cbbox c)) (y2 (cbbox c))) s.

Lemma line_captions_sound line c :
  In c (line_captions re_match line) -> caption_of_line line c.
Proof.
  unfold line_captions.
  destruct (scan_spans_from_none (fitz.spans line) EmptyString)
    as [Hfst Hsnd].
  destruct (scan_spans (fitz.spans line) "" None) as [text [bb|]];
    cbn [fst snd] in *; [|intros []].
  cbn [append] in Hfst. subst text.
  destruct (String.eqb (line_text (fitz.spans line)) "") eqn:Hempty;
    [intros []|].
  apply String.eqb_neq in Hempty.
  intros Hin. apply in_app_or in Hin.
  assert (Hcov : forall sp s, In sp (fitz.spans line) ->
                   fitz.span_bbox sp = Some s ->
                   covers (fitz.mkRect (fitz.x0 bb) (fitz.y0 bb)
                                       (fitz.x1 bb) (fitz.y1 bb)) s).
  { intros sp s Hsp Hs. destruct bb. now apply (Hsnd sp). }
  destruct Hin as [Hin | Hin].
  - destruct (first_match re_match true figure_patterns _) as [m|] eqn:Hm;
      [|destruct Hin].
    destruct Hin as [<- | []].
    split; [reflexivity|]. split; [exact Hempty|]. split; [|exact Hcov].
    left. split; [reflexivity | exact Hm].
  - destruct (first_match re_match true table_patterns _) as [m|] eqn:Hm;
      [|destruct Hin].
    destruct Hin as [<- | []].
    split; [reflexivity|]. split; [exact Hempty|]. split; [|exact Hcov].
    right. split; [reflexivity | exact Hm].
Qed.

Lemma find_captions_sound blocks c :
  In c (_find_captions re_match blocks) ->
  exists block line,
    In block blocks /\ fitz.block_type block = 0%Z /\
    In line (fitz.lines block) /\ caption_of_line line c.
Proof.
  unfold _find_captions. intros Hin.
  apply in_flat_map in Hin. destruct Hin as (block & Hblock & Hin).
  destruct (Z.eqb_spec (fitz.block_type block) 0) as [Htype|];
    [|destruct Hin].
  apply in_flat_map in Hin. destruct Hin as (line & Hline & Hin).
  exists block, line.
  split; [exact Hblock|]. split; [exact Htype|]. split; [exact Hline|].
  now apply line_captions_sound.
Qed.

Lemma find_captions_type blocks c :
  In c (_find_captions re_match blocks) ->
  ctype c = "Figure"%string \/ ctype c = "Table"%string.
Proof.
  intros Hin.
  destruct (find_captions_sound _ _ Hin)
    as (_ & _ & _ & _ & _ & _ & _ & [[H _] | [H _]] & _); auto.
Qed.

End Matcher.




End CaptionScan.



(** ** Shape of the records of [pdffigures2-python.py] *)

Module OutputFacts.
Import QB QBFacts PDFFigures2Python.
Local Open Scope string_scope.

(** A figure as the page functions create it for page [k]. *)
Definition created_on (k : nat) (f : Figure) : Prop :=
  page f = k /\
  (figure_type f = "Figure" \/ figure_type f = "Table") /\
  exists b64, image_data f = Some (data_uri b64).

Lemma nearest_in_captions b captions c :
  _find_nearest_caption b captions = Some c -> In c captions.
Proof.
  intros H.
  pose proof (NearestCaption.find_nearest_caption_spec b captions) as Hs.
  rewrite H in Hs. destruct Hs as [_ (before & after & -> & _)].
  apply in_or_app. right. now left.
Qed.

Section Facts.
Variable re_match : bool -> string -> string -> option string.
Variable render_base64 : fitz.Page -> Q -> fitz.Rect -> string.

Lemma images_created page captions k :
  (forall c, In c captions -> ctype c = "Figure" \/ ctype c = "Table") ->
  forall imgs start f,
    In f (extract_images_from re_match page captions k start imgs) ->
    created_on k f.
Proof.
  intros Htypes.
  induction imgs as [|img imgs IH]; intros start f Hin;
    cbn [extract_images_from] in Hin; [destruct Hin|].
  destruct (fitz.image_rects img) as [|rect more]; [now apply (IH (S start))|].
  destruct (ltb _ _); [now apply (IH (S start))|].
  destruct (_ || _); [now apply (IH (S start))|].
  destruct (_find_nearest_caption _ captions) as [c|] eqn:Hc;
    (destruct Hin as [<- | Hin]; [|now apply (IH (S start))]).
  - split; [reflexivity|]. split; [|eexists; reflexivity].
    apply Htypes. now apply nearest_in_captions in Hc.
  - split; [reflexivity|]. split; [now left | eexists; reflexivity].
Qed.

Lemma page_created page k f :
  In f (_extract_from_page re_match render_base64 page k) ->
  created_on k f.
Proof.
  unfold _extract_from_page. intros Hin.
  assert (Htypes : forall c,
             In c (_find_captions re_match (fitz.blocks page)) ->
             ctype c = "Figure" \/ ctype c = "Table").
  { intros c Hc. now apply CaptionScan.find_captions_type in Hc. }
  apply in_app_or in Hin. destruct Hin as [Hin | Hin].
  - now apply (images_created _ _ _ Htypes) in Hin.
  - apply in_app_or in Hin. destruct Hin as [Hin | Hin].
    + unfold _extract_tables in Hin.
      apply in_flat_map in Hin. destruct Hin as (c & _ & Hin).
      unfold table_figure in Hin.
      destruct (table_blocks _ _); [destruct Hin|].
      destruct Hin as [<- | []].
      split; [reflexivity|]. split; [now right | eexists; reflexivity].
    + unfold _extract_vector_graphics in Hin.
      destruct (fitz.drawings page) as [|d0 ds0]; [destruct Hin|].
      apply in_flat_map in Hin. destruct Hin as (g & _ & Hin).
      unfold vector_figure in Hin.
      destruct (List.length g <? 5)%nat; [destruct Hin|].
      destruct g as [|d ds]; [destruct Hin|].
      destruct (ltb _ _); [destruct Hin|].
      destruct (_find_nearest_caption _ _) as [c|] eqn:Hc; [|destruct Hin].
      destruct Hin as [<- | []].
      split; [reflexivity|]. split; [|eexists; reflexivity].
      apply Htypes. now apply nearest_in_captions in Hc.
Qed.

End Facts.
End OutputFacts.

(** Every record that [extract] of [pdffigures2-python.py] writes for a
    document that opens has a page number between 1 and the number of
    pages, the type ["figure"] or ["table"], the source
    ["pdffigures2-python"] and an image that is a PNG data URI. *)
Theorem X2_output_record_shape
  (re_match : bool -> string -> string -> option string)
  (render_base64 : fitz.Page -> Q -> fitz.Rect -> string)
  (doc : list (exc fitz.Page)) (out : PDFFigures2Python.OutFigure) :
  In out (PDFFigures2Python.figures
            (PDFFigures2Python.extract re_match render_base64 (Return doc))) ->
  (1 <= PDFFigures2Python.o_pageNumber out <= List.length doc)%nat /\
  (PDFFigures2Python.o_type out = "figure"%string \/
   PDFFigures2Python.o_type out = "table"%string) /\
  PDFFigures2Python.o_source out = "pdffigures2-python"%string /\
  exists b64,
    PDFFigures2Python.o_image out
    = Some ("data:image/png;base64," ++ b64)%string.
Proof.
  intros Hin. unfold PDFFigures2Python.extract in Hin. cbn [bind] in Hin.
  destruct (PDFFigures2Python.pages_loop re_match render_base64 0 doc [])
    as [e|figs] eqn:Hloop; cbn [PDFFigures2Python.figures] in Hin;
    [destruct Hin|].
  apply in_map_iff in Hin. destruct Hin as (f' & <- & Hf').
  destruct (MergeFrame.merge_stems figs) as (positions & _ & Hstem).
  destruct (@BBoxOutput.Forall2_in_r _ _ _ _ _ _ Hstem Hf')
    as (p & _ & (f & conts & Hf & Hty & _ & Hpg & _ & Himg & _)).
  apply nth_error_In in Hf.
  destruct (@BBoxOutput.pages_loop_origin _ _ _ _ _ _ _ Hloop Hf)
    as [[] | (k & pg & Hk & Hpage)].
  apply OutputFacts.page_created in Hpage.
  destruct Hpage as (Hp & Ht & b64 & Hi). cbn [Nat.add] in Hp.
  assert (Hlen : (k < List.length doc)%nat).
  { apply nth_error_Some. rewrite Hk. discriminate. }
  unfold PDFFigures2Python.to_output.
  cbn [PDFFigures2Python.o_pageNumber PDFFigures2Python.o_type
       PDFFigures2Python.o_source PDFFigures2Python.o_image].
  rewrite Hpg, Hp, Hty, Himg, Hi.
  split; [lia|]. split.
  - destruct Ht as [-> | ->]; [left | right]; reflexivity.
  - split; [reflexivity | exists b64; reflexivity].
Qed.

(** X2 on a one-page document with the photograph. *)
Lemma X2_output_record_shape_witness :
  (1 <= 1 <= 1)%nat /\
  PDFFigures2Python.o_source
    (PDFFigures2Python.mkOutFigure "figure" 1 "Figure 1" ""
       (PDFFigures2Python.mkOutBBox 72 100 272 250 (272 - 72) (250 - 100))
       (Some "data:image/png;base64,UE5H"%string) "pdffigures2-python")
  = "pdffigures2-python"%string.
Proof.
  destruct (X2_output_record_shape Examples.no_match Examples.no_render
              [Return (Examples.page_of [Examples.photo])]
              (PDFFigures2Python.mkOutFigure "figure" 1 "Figure 1" ""
                 (PDFFigures2Python.mkOutBBox 72 100 272 250
                                              (272 - 72) (250 - 100))
                 (Some "data:image/png;base64,UE5H"%string)
                 "pdffigures2-python"))
    as (Hpage & _ & Hsrc & _).
  - left. reflexivity.
  - split; [exact Hpage | exact Hsrc].
Defined.

(** ** More on the merge pass *)

Module MergeMore.
Import PDFFigures2Python.
Local Open Scope string_scope.

Lemma collect_all {A} (l : list A) : forall pre,
  flat_map (fun k => match nth_error (pre ++ l) k with
                     | Some f => [f]
                     | None => []
                     end)
           (seq (List.length pre) (List.length l))
  = l.
Proof.
  induction l as [|a l IH]; intros pre; [reflexivity|].
  cbn [List.length seq flat_map].
  rewrite nth_error_app2 by lia. rewrite Nat.sub_diag. cbn [nth_error app].
  f_equal.
  specialize (IH (pre ++ [a])%list).
  rewrite <- app_assoc in IH. cbn [app] in IH.
  rewrite length_app in IH. cbn [List.length] in IH.
  now rewrite Nat.add_1_r in IH.
Qed.

Lemma filter_all {A} (p : A -> bool) (l : list A) :
  (forall x, In x l -> p x = true) -> filter p l = l.
Proof.
  induction l as [|x l IH]; intros H; [reflexivity|].
  cbn [filter]. rewrite (H x (or_introl eq_refl)). f_equal.
  apply IH. intros y Hy. apply H. now right.
Qed.

Lemma filter_nil_iff {A} (p : A -> bool) (l : list A) :
  (forall x, In x l -> p x = false) -> filter p l = [].
Proof.
  induction l as [|x l IH]; intros H; [reflexivity|].
  cbn [filter]. rewrite (H x (or_introl eq_refl)).
  apply IH. intros y Hy. apply H. now right.
Qed.

(** One record per kept position. *)
Lemma spec_length figures : forall ks,
  Forall (fun k => (k < List.length figures)%nat) ks ->
  List.length
    (flat_map (fun k => match nth_error figures k with
                        | Some f =>
                            [Merge.final_figure figures
                               (List.length figures) k f]
                        | None => []
                        end) ks)
  = List.length ks.
Proof.
  induction ks as [|k ks IH]; intros Hall; [reflexivity|].
  inversion Hall as [|? ? Hk Hks]; subst. cbn [flat_map].
  destruct (nth_error figures k) eqn:Hf.
  - cbn [app List.length]. now rewrite IH.
  - apply nth_error_None in Hf. lia.
Qed.

Lemma filter_partition_length {A} (p : A -> bool) (l : list A) :
  (List.length (filter (fun x => negb (p x)) l)
   + List.length (filter p l))%nat = List.length l.
Proof.
  induction l as [|x l IH]; [reflexivity|].
  cbn [filter]. destruct (p x); cbn [negb List.length]; lia.
Qed.

End MergeMore.

(** When no record is the continuation of an earlier one (for every
    record, either its caption has no continuation marker or no earlier
    record has its name with ["continued"] removed and white space
    stripped), [_merge_multipage_elements] returns its input list
    unchanged. *)
Theorem X3_merge_identity (figures : list Figure) :
  (forall i fig,
      nth_error figures i = Some fig ->
      PDFFigures2Python.is_continuation (caption fig) = false \/
      forall j g, (j < i)%nat -> nth_error figures j = Some g ->
                  name g <> Merge.target_name fig) ->
  PDFFigures2Python._merge_multipage_elements figures = figures.
Proof.
  intros Hno.
  assert (Horig : forall i, Merge.original_of figures i = None).
  { intros i. unfold Merge.original_of.
    destruct (nth_error figures i) as [fig|] eqn:Hfig; [|reflexivity].
    destruct (Hno i fig Hfig) as [-> | Hnames]; [reflexivity|].
    destruct (PDFFigures2Python.is_continuation (caption fig));
      [|reflexivity].
    pose proof (Merge.find_original_spec figures (Merge.target_name fig) i)
      as Hs.
    destruct (PDFFigures2Python.find_original figures
                (Merge.target_name fig) i) as [j|]; [|reflexivity].
    destruct Hs as [Hj [(g & Hg & Hname) _]].
    exfalso. exact (Hnames j g Hj Hg Hname). }
  rewrite Merge.merge_refines. unfold Merge.merge_spec, Merge.kept.
  rewrite MergeMore.filter_all.
  2:{ intros k _. unfold Merge.dropped. now rewrite Horig. }
  etransitivity; [|exact (MergeMore.collect_all figures [])].
  cbn [app List.length].
  apply flat_map_ext. intros k.
  destruct (nth_error figures k) as [f|]; [|reflexivity].
  unfold Merge.final_figure, Merge.continuations_of.
  rewrite MergeMore.filter_nil_iff.
  2:{ intros m _. unfold Merge.merges_into. now rewrite Horig. }
  cbn [Merge.appended fold_right].
  now rewrite Merge.append_empty_r, Merge.set_caption_same.
Qed.

(** X3 on two records without continuation. *)
Lemma X3_merge_identity_witness :
  PDFFigures2Python._merge_multipage_elements
    [MergeExamples.figure1; MergeExamples.table3]
  = [MergeExamples.figure1; MergeExamples.table3].
Proof.
  apply X3_merge_identity.
  intros i fig H. left.
  destruct i as [|[|i]]; cbn in H.
  - injection H as <-. reflexivity.
  - injection H as <-. reflexivity.
  - destruct i; discriminate H.
Defined.

(** [_merge_multipage_elements] returns one record for every input record
    that is not merged into an earlier one, so never more records than it
    is given; and the first record of a list is never dropped: the output
    starts with it, its caption followed by the text of the continuations
    merged into it. *)
Theorem X4_merge_size (figures : list Figure) :
  (List.length (PDFFigures2Python._merge_multipage_elements figures)
   + List.length (filter (Merge.dropped figures)
                         (seq 0 (List.length figures))))%nat
  = List.length figures /\
  match figures with
  | [] => PDFFigures2Python._merge_multipage_elements figures = []
  | f :: _ =>
      exists rest,
        PDFFigures2Python._merge_multipage_elements figures
        = Merge.final_figure figures (List.length figures) 0 f :: rest
  end.
Proof.
  rewrite Merge.merge_refines. unfold Merge.merge_spec. split.
  - rewrite MergeMore.spec_length.
    + unfold Merge.kept. rewrite MergeMore.filter_partition_length.
      apply length_seq.
    + apply Forall_forall. intros k Hk. now apply Merge.kept_iff in Hk.
  - destruct figures as [|f rest]; [reflexivity|].
    unfold Merge.kept. cbn [List.length seq filter].
    assert (Hfirst : Merge.dropped (f :: rest) 0 = false).
    { unfold Merge.dropped, Merge.original_of. cbn [nth_error].
      destruct (PDFFigures2Python.is_continuation (caption f));
        reflexivity. }
    rewrite Hfirst. cbn [negb flat_map nth_error app].
    eexists. reflexivity.
Qed.

(** The bounding box of a table record stays within the search window of
    its caption: it starts no further left than 50 units before the
    caption's x1, ends no further right than 200 units after its x2 and no
    lower than 500 units under its bottom edge, and its top edge is the
    caption's. *)
Theorem X5_table_within_search
  (re_match : bool -> string -> string -> option string)
  (render_base64 : fitz.Page -> Q -> fitz.Rect -> string)
  (page : fitz.Page) (blocks : list fitz.Block) (page_num : nat)
  (c : PDFFigures2Python.Caption) (f : Figure) :
  In f (PDFFigures2Python.table_figure re_match render_base64 page blocks
          page_num c) ->
  let cb := PDFFigures2Python.cbbox c in
  (x1 cb - 50 <= x1 (bbox f))%Q /\
  (x2 (bbox f) <= x2 cb + 200)%Q /\
  (y2 (bbox f) <= y2 cb + 500)%Q /\
  y1 (bbox f) = y1 cb.
Proof.
  intros Hin cb. unfold PDFFigures2Python.table_figure in Hin. fold cb in Hin.
  destruct (PDFFigures2Python.table_blocks blocks cb) as [|b bs] eqn:Hb;
    [destruct Hin|].
  destruct Hin as [<- | []]. cbn [bbox x1 y1 x2 y2].
  set (box := fun b => PDFFigures2Python.BoundingBox_of (fitz.block_bbox b)).
  destruct (Union.union_bbox_is_union (box b) (map box bs))
    as (_ & (bx & Hbx & Ex) & _ & (bx2 & Hbx2 & Ex2) & (by2 & Hby2 & Ey2)).
  change (box b :: map box bs) with (map box (b :: bs)) in *.
  rewrite <- Hb in Hbx, Hbx2, Hby2.
  apply in_map_iff in Hbx, Hbx2, Hby2.
  destruct Hbx as (k1 & <- & Hk1), Hbx2 as (k2 & <- & Hk2),
           Hby2 as (k3 & <- & Hk3).
  apply Tables.table_blocks_spec in Hk1, Hk2, Hk3.
  change (QB.min_list
            (x1 (PDFFigures2Python.BoundingBox_of (fitz.block_bbox b)))
            (map x1 (map box bs)))
    with (x1 (Union.union_bbox (box b) (map box bs))).
  change (QB.max_list
            (x2 (PDFFigures2Python.BoundingBox_of (fitz.block_bbox b)))
            (map x2 (map box bs)))
    with (x2 (Union.union_bbox (box b) (map box bs))).
  change (QB.max_list
            (y2 (PDFFigures2Python.BoundingBox_of (fitz.block_bbox b)))
            (map y2 (map box bs)))
    with (y2 (Union.union_bbox (box b) (map box bs))).
  rewrite <- Ex, <- Ex2, <- Ey2.
  unfold box, PDFFigures2Python.BoundingBox_of. cbn [x1 x2 y2].
  repeat split; tauto.
Qed.

(** X5 on the example page of the table search. *)
Lemma X5_table_within_search_witness :
  (100 - 50 <= 90)%Q /\ (380 <= 200 + 200)%Q /\ (400 <= 110 + 500)%Q.
Proof.
  destruct (X5_table_within_search Examples.no_match Examples.no_render
              Tables.page Tables.blocks 0 Tables.caption
              (mkFigure "Table" "Table 2." "Table 2. Outcomes" 0
                 (mkBoundingBox 90 100 380 400)
                 (Some "data:image/png;base64,"%string)))
    as (H1 & H2 & H3 & _).
  - left. reflexivity.
  - split; [exact H1|]. split; [exact H2 | exact H3].
Defined.

(** ** Seeds of the groups of drawings *)

Module Seeds.
Import QB QBFacts PDFFigures2Python Groups.
Local Open Scope Q_scope.

(** The rectangle of the seed of a group. *)
Definition seed_rect (g : list fitz.Drawing) : option fitz.Rect :=
  match g with
  | seed :: _ => true_rect seed
  | [] => None
  end.

(** The seed of the later group could not join the earlier group. *)
Definition apart (g1 g2 : list fitz.Drawing) : Prop :=
  forall r1 r2, seed_rect g1 = Some r1 -> seed_rect g2 = Some r2 ->
                close_enough r1 r2 = false.

(** No waiting entry can join one of the groups. *)
Definition settled (groups : list (list fitz.Drawing)) (used : list nat)
  (todo : list (nat * fitz.Drawing)) : Prop :=
  forall g r jd, In g groups -> seed_rect g = Some r ->
                 In jd (waiting used todo) -> joinable r (snd jd) = false.

Lemma pairs_snoc {A} (R : A -> A -> Prop) (l : list A) (x : A) :
  ForallOrdPairs R l -> Forall (fun y => R y x) l ->
  ForallOrdPairs R (l ++ [x]).
Proof.
  induction 1 as [|a l Ha Hl IH]; intros Hx; cbn [app].
  - constructor; constructor.
  - inversion Hx as [|? ? Hax Hlx]; subst.
    constructor; [|now apply IH].
    apply Forall_app. split; [exact Ha | now constructor].
Qed.

Lemma waiting_in used todo jd :
  In jd (waiting used todo) <->
  In jd todo /\ mem (fst jd) used = false /\ has_rect (snd jd) = true.
Proof.
  unfold waiting. rewrite filter_In, andb_true_iff, negb_true_iff. tauto.
Qed.

Lemma group_outer_apart all :
  NoDup (map fst all) ->
  forall todo prefix groups used,
    all = prefix ++ todo ->
    (forall jd, In jd prefix -> mem (fst jd) used = true) ->
    ForallOrdPairs apart groups ->
    settled groups used todo ->
    ForallOrdPairs apart (group_outer all todo groups used).
Proof.
  intros Hnd.
  induction todo as [|[i d] rest IH];
    intros prefix groups used Hall Hused Hpairs Hsettled.
  - exact Hpairs.
  - assert (Hall' : all = (prefix ++ [(i, d)]) ++ rest)
      by (rewrite <- app_assoc; exact Hall).
    pose proof Hnd as Hnd2. rewrite Hall in Hnd2.
    destruct (later_indices _ _ _ _ Hnd2) as [Hndrest Hne].
    assert (Hmono : forall used',
               (forall k, mem k used' = false -> mem k used = false) ->
               settled groups used' rest).
    { intros used' Hsub g r jd Hg Hr Hjd.
      apply (Hsettled g r jd Hg Hr).
      apply waiting_in in Hjd. destruct Hjd as (Hin & Hm & Hh).
      apply waiting_in. split; [now right|]. split; [now apply Hsub | exact Hh]. }
    assert (Hused' : forall used',
               (forall k, mem k (i :: used) = true -> mem k used' = true) ->
               forall jd, In jd (prefix ++ [(i, d)]) ->
                          mem (fst jd) used' = true).
    { intros used' Hsub jd Hjd. apply Hsub. rewrite mem_cons.
      apply in_app_or in Hjd. destruct Hjd as [Hjd | [<- | []]].
      - rewrite (Hused jd Hjd). apply orb_true_r.
      - cbn [fst]. now rewrite Nat.eqb_refl. }
    cbn [group_outer].
    destruct (mem i used) eqn:Eused.
    + apply (IH (prefix ++ [(i, d)])); try assumption.
      * intros jd Hjd. apply in_app_or in Hjd.
        destruct Hjd as [Hjd | [<- | []]]; [now apply Hused | exact Eused].
      * apply Hmono. auto.
    + destruct (true_rect d) as [rect1|] eqn:Erect.
      * rewrite (group_inner_spec i rect1 all [d] (i :: used) Hnd).
        rewrite Hall at 2 3.
        rewrite (sel_after prefix rest i d rect1 used Hnd2 Hused).
        set (taken := filter (fun jd => negb (mem (fst jd) used)
                                        && joinable rect1 (snd jd)) rest).
        apply (IH (prefix ++ [(i, d)])); try assumption.
        -- apply Hused'. intros k Hk. rewrite mem_app, Hk.
           apply orb_true_r.
        -- apply pairs_snoc; [exact Hpairs|].
           apply Forall_forall. intros g Hg r0 r1 Hr0 Hr1.
           cbn [app seed_rect] in Hr1. rewrite Erect in Hr1.
           injection Hr1 as <-.
           pose proof (Hsettled g r0 (i, d) Hg Hr0) as Hj.
           unfold joinable in Hj. cbn [snd] in Hj. rewrite Erect in Hj.
           apply Hj. apply waiting_in.
           split; [now left|]. split; [exact Eused|].
           unfold has_rect. cbn [snd]. now rewrite Erect.
        -- intros g r jd Hg Hr Hjd.
           apply in_app_or in Hg. destruct Hg as [Hg | [<- | []]].
           ++ apply (Hmono (rev (map fst taken) ++ i :: used) ) with (g := g);
                try assumption.
              intros k Hk. rewrite mem_app, mem_cons in Hk.
              apply orb_false_iff in Hk. destruct Hk as [_ Hk].
              apply orb_false_iff in Hk. tauto.
           ++ cbn [app seed_rect] in Hr. rewrite Erect in Hr.
              injection Hr as <-.
              apply waiting_in in Hjd. destruct Hjd as (Hin & Hm & Hh).
              rewrite mem_app, mem_rev, mem_cons in Hm.
              apply orb_false_iff in Hm. destruct Hm as [Htaken Hm].
              apply orb_false_iff in Hm. destruct Hm as [_ Hm].
              destruct (joinable rect1 (snd jd)) eqn:Ej; [|reflexivity].
              exfalso.
              assert (Hin' : In (fst jd) (map fst taken)).
              { apply in_map. unfold taken. apply filter_In.
                split; [exact Hin|]. now rewrite Hm, Ej. }
              apply mem_In in Hin'. congruence.
      * apply (IH (prefix ++ [(i, d)])); try assumption.
        -- apply Hused'. auto.
        -- apply Hmono. intros k Hk. rewrite mem_cons in Hk.
           apply orb_false_iff in Hk. tauto.
Qed.

Lemma group_drawings_apart drawings :
  ForallOrdPairs apart (_group_drawings drawings).
Proof.
  unfold _group_drawings. destruct drawings as [|d0 ds0]; [constructor|].
  refine (@group_outer_apart (enumerate (d0 :: ds0)) _
            (enumerate (d0 :: ds0)) [] [] [] eq_refl _ _ _).
  - unfold enumerate. rewrite enumerate_fst. apply seq_NoDup.
  - intros ? [].
  - constructor.
  - intros g r jd [].
Qed.

End Seeds.

(** The seeds of the groups of [_group_drawings] are pairwise apart: for
    two groups, the earlier one first, the top-left corners of the
    rectangles of their seeds differ by 200 units or more in x or in y
    (otherwise the later seed would have joined the earlier group). *)
Theorem X6_group_seeds_apart (drawings : list fitz.Drawing) :
  ForallOrdPairs
    (fun g1 g2 =>
       forall r1 r2,
         Seeds.seed_rect g1 = Some r1 -> Seeds.seed_rect g2 = Some r2 ->
         (200 <= Qabs (fitz.x0 r1 - fitz.x0 r2))%Q \/
         (200 <= Qabs (fitz.y0 r1 - fitz.y0 r2))%Q)
    (PDFFigures2Python._group_drawings drawings).
Proof.
  pose proof (Seeds.group_drawings_apart drawings) as H.
  induction H as [|g gs Hg Hgs IH]; constructor; [|exact IH].
  eapply Forall_impl; [|exact Hg].
  intros g2 Hap r1 r2 H1 H2.
  specialize (Hap r1 r2 H1 H2).
  unfold PDFFigures2Python.close_enough in Hap.
  apply andb_false_iff in Hap.
  destruct Hap as [E | E]; apply QBFacts.ltb_ge in E; [left | right]; exact E.
Qed.

(** ** [BoundingBox.overlaps] and [BoundingBox.expand] *)

Module BoundingBoxOps.
Import QB QBFacts.
Local Open Scope Q_scope.

(** [BoundingBox.overlaps]: the boolean it returns, or the
    [ZeroDivisionError] of the division by the smaller area. *)
Definition overlaps (self other : BoundingBox) (threshold : Q) : exc bool :=
  if ltb (x2 self) (x1 other) || ltb (x2 other) (x1 self) then Return false
  else if ltb (y2 self) (y1 other) || ltb (y2 other) (y1 self)
  then Return false
  else
    let inter_x1 := Qmax (x1 self) (x1 other) in
    let inter_y1 := Qmax (y1 self) (y1 other) in
    let inter_x2 := Qmin (x2 self) (x2 other) in
    let inter_y2 := Qmin (y2 self) (y2 other) in
    if ltb inter_x2 inter_x1 || ltb inter_y2 inter_y1 then Return false
    else
      let inter_area := (inter_x2 - inter_x1) * (inter_y2 - inter_y1) in
      let smaller := Qmin (PDFFigures2Python.area self)
                          (PDFFigures2Python.area other) in
      if Qeq_bool smaller 0 then Raise "float division by zero"
      else Return (gtb (inter_area / smaller) threshold).

(** The box is written with its corners in order. *)
Definition well_formed (b : BoundingBox) : Prop :=
  x1 b <= x2 b /\ y1 b <= y2 b.

(** The boxes are separated along x or along y. *)
Definition separated (a b : BoundingBox) : Prop :=
  x2 a < x1 b \/ x2 b < x1 a \/ y2 a < y1 b \/ y2 b < y1 a.

Lemma ltb_compat x x' y y' : x == x' -> y == y' -> ltb x y = ltb x' y'.
Proof.
  intros Hx Hy. apply Groups.bool_ext. rewrite !ltb_lt.
  now rewrite Hx, Hy.
Qed.

Lemma Qeq_bool_compat x x' y y' :
  x == x' -> y == y' -> Qeq_bool x y = Qeq_bool x' y'.
Proof.
  intros Hx Hy. apply Groups.bool_ext. rewrite !Qeq_bool_iff.
  now rewrite Hx, Hy.
Qed.

Lemma area_nonneg b : well_formed b -> 0 <= PDFFigures2Python.area b.
Proof.
  intros [Hx Hy]. unfold PDFFigures2Python.area.
  apply Qmult_le_0_compat; lra.
Qed.

Lemma overlaps_sym a b t : overlaps a b t = overlaps b a t.
Proof.
  unfold overlaps.
  rewrite (orb_comm (ltb (x2 a) (x1 b))), (orb_comm (ltb (y2 a) (y1 b))).
  destruct (ltb (x2 b) (x1 a) || ltb (x2 a) (x1 b)); [reflexivity|].
  destruct (ltb (y2 b) (y1 a) || ltb (y2 a) (y1 b)); [reflexivity|].
  assert (Ex1 : Qmax (x1 a) (x1 b) == Qmax (x1 b) (x1 a)) by apply Q.max_comm.
  assert (Ey1 : Qmax (y1 a) (y1 b) == Qmax (y1 b) (y1 a)) by apply Q.max_comm.
  assert (Ex2 : Qmin (x2 a) (x2 b) == Qmin (x2 b) (x2 a)) by apply Q.min_comm.
  assert (Ey2 : Qmin (y2 a) (y2 b) == Qmin (y2 b) (y2 a)) by apply Q.min_comm.
  assert (Em : Qmin (PDFFigures2Python.area a) (PDFFigures2Python.area b)
               == Qmin (PDFFigures2Python.area b) (PDFFigures2Python.area a))
    by apply Q.min_comm.
  rewrite (ltb_compat _ _ _ _ Ex2 Ex1), (ltb_compat _ _ _ _ Ey2 Ey1).
  destruct (_ || _); [reflexivity|].
  rewrite (Qeq_bool_compat _ _ 0 0 Em (Qeq_refl 0)).
  destruct (Qeq_bool _ 0); [reflexivity|].
  f_equal. unfold gtb. apply ltb_compat; [reflexivity|].
  now rewrite Ex1, Ey1, Ex2, Ey2, Em.
Qed.

End BoundingBoxOps.

(** [BoundingBox.overlaps] does not depend on the order of the two boxes:
    with the arguments exchanged it returns the same boolean, or raises
    the same error. *)
Theorem X7_overlaps_symmetric (a b : BoundingBox) (threshold : Q) :
  BoundingBoxOps.overlaps a b threshold
  = BoundingBoxOps.overlaps b a threshold.
Proof.
  intros. rewrite (BoundingBoxOps.overlaps_sym a b threshold). reflexivity.
Qed.

(** For two boxes written with their corners in order,
    [BoundingBox.overlaps] returns False when they are separated along x
    or y; when they are not separated it raises the division by zero if
    one of them has area 0 (a line or a point), and returns a boolean if
    both areas are positive. *)
Theorem X8_overlaps_outcomes (a b : BoundingBox) (threshold : Q) :
  BoundingBoxOps.well_formed a -> BoundingBoxOps.well_formed b ->
  (BoundingBoxOps.separated a b ->
   BoundingBoxOps.overlaps a b threshold = Return false) /\
  (~ BoundingBoxOps.separated a b ->
   (PDFFigures2Python.area a == 0 \/ PDFFigures2Python.area b == 0)%Q ->
   BoundingBoxOps.overlaps a b threshold = Raise "float division by zero") /\
  (~ BoundingBoxOps.separated a b ->
   (0 < PDFFigures2Python.area a)%Q -> (0 < PDFFigures2Python.area b)%Q ->
   exists r, BoundingBoxOps.overlaps a b threshold = Return r).
Proof.
  intros Ha Hb.
  pose proof (BoundingBoxOps.area_nonneg a Ha) as Hna.
  pose proof (BoundingBoxOps.area_nonneg b Hb) as Hnb.
  destruct Ha as [Hax Hay], Hb as [Hbx Hby].
  assert (Hmeet : ~ BoundingBoxOps.separated a b ->
            QB.ltb (x2 a) (x1 b) || QB.ltb (x2 b) (x1 a) = false /\
            QB.ltb (y2 a) (y1 b) || QB.ltb (y2 b) (y1 a) = false /\
            QB.ltb (Qmin (x2 a) (x2 b)) (Qmax (x1 a) (x1 b))
            || QB.ltb (Qmin (y2 a) (y2 b)) (Qmax (y1 a) (y1 b)) = false).
  { intros Hns. unfold BoundingBoxOps.separated in Hns.
    assert (H1 : (x1 b <= x2 a)%Q) by (apply Qnot_lt_le; tauto).
    assert (H2 : (x1 a <= x2 b)%Q) by (apply Qnot_lt_le; tauto).
    assert (H3 : (y1 b <= y2 a)%Q) by (apply Qnot_lt_le; tauto).
    assert (H4 : (y1 a <= y2 b)%Q) by (apply Qnot_lt_le; tauto).
    rewrite !orb_false_iff, !QBFacts.ltb_ge.
    repeat split; try assumption.
    - apply Q.min_glb; apply Q.max_lub; assumption.
    - apply Q.min_glb; apply Q.max_lub; assumption. }
  split; [|split].
  - intros Hsep. unfold BoundingBoxOps.overlaps.
    destruct (QB.ltb (x2 a) (x1 b) || QB.ltb (x2 b) (x1 a)) eqn:E1;
      [reflexivity|].
    destruct (QB.ltb (y2 a) (y1 b) || QB.ltb (y2 b) (y1 a)) eqn:E2;
      [reflexivity|].
    exfalso. rewrite orb_false_iff, !QBFacts.ltb_ge in E1, E2.
    destruct Hsep as [H | [H | [H | H]]]; lra.
  - intros Hns Hzero. destruct (Hmeet Hns) as (E1 & E2 & E3).
    unfold BoundingBoxOps.overlaps. rewrite E1, E2, E3.
    replace (Qeq_bool (Qmin (PDFFigures2Python.area a)
                            (PDFFigures2Python.area b)) 0) with true;
      [reflexivity|].
    symmetry. apply Qeq_bool_iff.
    destruct (Q.min_spec (PDFFigures2Python.area a)
                         (PDFFigures2Python.area b)) as [[Hlt E] | [Hle E]];
      rewrite E; destruct Hzero as [Hz | Hz]; lra.
  - intros Hns Hpa Hpb. destruct (Hmeet Hns) as (E1 & E2 & E3).
    unfold BoundingBoxOps.overlaps. rewrite E1, E2, E3.
    replace (Qeq_bool (Qmin (PDFFigures2Python.area a)
                            (PDFFigures2Python.area b)) 0) with false;
      [eexists; reflexivity|].
    symmetry. apply not_true_iff_false. rewrite Qeq_bool_iff.
    destruct (Q.min_spec (PDFFigures2Python.area a)
                         (PDFFigures2Python.area b)) as [[Hlt E] | [Hle E]];
      rewrite E; lra.
Qed.

(** X8 on a page-sized box and a point inside it, and on two boxes that
    share a quarter. *)
Lemma X8_overlaps_outcomes_witness :
  BoundingBoxOps.overlaps (mkBoundingBox 0 0 10 10) (mkBoundingBox 5 5 5 5)
    (1 # 10)
  = Raise "float division by zero" /\
  BoundingBoxOps.overlaps (mkBoundingBox 0 0 10 10)
    (mkBoundingBox 5 5 15 15) (1 # 10)
  = Return true.
Proof.
  split.
  - apply (X8_overlaps_outcomes (mkBoundingBox 0 0 10 10)
             (mkBoundingBox 5 5 5 5) (1 # 10)).
    + split; vm_compute; discriminate.
    + split; vm_compute; discriminate.
    + intros [H | [H | [H | H]]]; vm_compute in H; discriminate.
    + right. vm_compute. reflexivity.
  - destruct (X8_overlaps_outcomes (mkBoundingBox 0 0 10 10)
                (mkBoundingBox 5 5 15 15) (1 # 10)) as (_ & _ & Hret).
    + split; vm_compute; discriminate.
    + split; vm_compute; discriminate.
    + destruct Hret as [r Hr].
      * intros [H | [H | [H | H]]]; vm_compute in H; discriminate.
      * vm_compute. reflexivity.
      * vm_compute. reflexivity.
      * rewrite Hr. vm_compute in Hr. injection Hr as <-. reflexivity.
Defined.

(** ** Records of [pymupdf-extractor.py] *)

Module PyMuPDFFacts.
Import QB QBFacts PyMuPDFExtractor.
Local Open Scope Q_scope.
Local Open Scope string_scope.

Section Facts.
Variable re_finditer : string -> string -> list (string * nat * nat).
Variable pil_base64 : fitz.Image -> string.
Variable crop_base64 : fitz.Page -> Q -> fitz.Rect -> string.




End Facts.
End PyMuPDFFacts.





(** ** Every run of the fetcher *)

Module FetcherRuns.
Import PdfFetcher.
Local Open Scope string_scope.

(** A run that has printed one object, success with exit code 0 or
    failure with exit code 1. *)
Definition well_reported (run : Run) : Prop :=
  (exists source pdf_base64,
      stdout run = [Success source pdf_base64] /\ exit_code run = 0%Z) \/
  (exists error, stdout run = [Failure error] /\ exit_code run = 1%Z).

Lemma try_sources_reported b64encode doi : forall srcs called0,
  well_reported (try_sources b64encode srcs doi called0) /\
  exists k,
    called (try_sources b64encode srcs doi called0)
    = (called0 ++ map fst (firstn k srcs))%list.
Proof.
  induction srcs as [|[nm f] srcs IH]; intros called0.
  - cbn. split.
    + right. eexists. split; reflexivity.
    + exists 0%nat. cbn. now rewrite app_nil_r.
  - cbn [try_sources].
    assert (Hnext : well_reported
                      (try_sources b64encode srcs doi (called0 ++ [nm])%list) /\
                    exists k,
                      called (try_sources b64encode srcs doi
                                (called0 ++ [nm])%list)
                      = (called0 ++ map fst (firstn k ((nm, f) :: srcs)))%list).
    { destruct (IH (called0 ++ [nm])%list) as [Hrep [k Hk]].
      split; [exact Hrep|]. exists (S k). rewrite Hk.
      cbn [firstn map fst]. now rewrite <- app_assoc. }
    destruct (f doi) as [| |[|] pdf source]; try exact Hnext.
    split.
    + left. eexists. eexists. split; reflexivity.
    + exists 1%nat. reflexivity.
Qed.

End FetcherRuns.

(** Whatever the arguments and whatever the sources do, [main] of
    [pdf-fetcher-python-fallback.py] prints exactly one JSON object and
    exits with code 0 when that object reports success and with code 1
    when it reports an error; the sources it has called are the first ones
    of its list, in order.  Without a DOI argument it calls no source and
    reports the error "No DOI provided". *)
Theorem X11_fetcher_every_run
  (b64encode : string -> string)
  (f1 f2 f3 f4 f5 f6 f7 f8 f9 : string -> PdfFetcher.fetched)
  (argv : list string) :
  let run := PdfFetcher.main b64encode f1 f2 f3 f4 f5 f6 f7 f8 f9 argv in
  FetcherRuns.well_reported run /\
  (exists k,
      PdfFetcher.called run
      = map fst (firstn k (PdfFetcher.sources f1 f2 f3 f4 f5 f6 f7 f8 f9))) /\
  ((List.length argv < 2)%nat ->
   run = PdfFetcher.mkRun [] [PdfFetcher.Failure "No DOI provided"] 1).
Proof.
  intros run. unfold run, PdfFetcher.main.
  destruct argv as [|script [|doi more]].
  - split; [right; eexists; split; reflexivity|].
    split; [exists 0%nat; reflexivity | reflexivity].
  - split; [right; eexists; split; reflexivity|].
    split; [exists 0%nat; reflexivity | reflexivity].
  - destruct (FetcherRuns.try_sources_reported b64encode doi
                (PdfFetcher.sources f1 f2 f3 f4 f5 f6 f7 f8 f9) [])
      as [Hrep [k Hk]].
    split; [exact Hrep|]. split; [exists k; exact Hk|].
    cbn [List.length]. lia.
Qed.

(** X11 on a call without DOI. *)
Lemma X11_fetcher_every_run_witness :
  PdfFetcher.main (fun b => b)
    (fun _ => PdfFetcher.Raises) (fun _ => PdfFetcher.Raises)
    (fun _ => PdfFetcher.Raises) (fun _ => PdfFetcher.Raises)
    (fun _ => PdfFetcher.Raises) (fun _ => PdfFetcher.Raises)
    (fun _ => PdfFetcher.Raises) (fun _ => PdfFetcher.Raises)
    (fun _ => PdfFetcher.Raises) ["fetch.py"%string]
  = PdfFetcher.mkRun [] [PdfFetcher.Failure "No DOI provided"] 1.
Proof.
  apply (X11_fetcher_every_run (fun b => b)
           (fun _ => PdfFetcher.Raises) (fun _ => PdfFetcher.Raises)
           (fun _ => PdfFetcher.Raises) (fun _ => PdfFetcher.Raises)
           (fun _ => PdfFetcher.Raises) (fun _ => PdfFetcher.Raises)
           (fun _ => PdfFetcher.Raises) (fun _ => PdfFetcher.Raises)
           (fun _ => PdfFetcher.Raises) ["fetch.py"%string]).
  cbn. lia.
Defined.

(** ** More on the sanitizer *)

Module SanitizerMore.
Import UniversalTextSanitizer.
Local Open Scope N_scope.

(** The character is a key of the table. *)
Definition in_keys (table : list (N * pystr)) (c : N) : bool :=
  existsb (fun kv => N.eqb c (fst kv)) table.

(** No replacement text of the table contains a key of [keys]. *)
Definition values_free (keys table : list (N * pystr)) : bool :=
  forallb (fun kv => forallb (fun c => negb (in_keys keys c)) (snd kv)) table.

(** A character that [sanitize] removes or rewrites: a key of the
    replacement table, a ligature, or a control character. *)
Definition forbidden (c : N) : bool :=
  in_keys replacements c || in_keys ligatures c || is_control c.

(** [text.rstrip('. ')]. *)
Fixpoint rstrip_dot_space (t : pystr) : pystr :=
  match t with
  | [] => []
  | c :: r =>
      match rstrip_dot_space r with
      | [] => if (c =? 46) || (c =? 32) then [] else [c]
      | r' => c :: r'
      end
  end.

(** White space is normalised from the left: every white-space character
    is a single space that follows a character which is not white space;
    [prev_space] tells that the text is preceded by white space. *)
Fixpoint spaced (prev_space : bool) (t : pystr) : bool :=
  match t with
  | [] => true
  | c :: r =>
      if isspace c
      then (c =? 32) && negb prev_space && spaced true r
      else spaced false r
  end.

Section Preserve.
Variable P : N -> Prop.

Lemma replace_char_keeps old new text :
  Forall P new -> Forall P text -> Forall P (replace_char old new text).
Proof.
  intros Hnew Htext. unfold replace_char.
  induction Htext as [|c text Hc _ IH]; cbn [flat_map]; [constructor|].
  apply Forall_app. split; [|exact IH].
  destruct (c =? old); [exact Hnew | now constructor].
Qed.

Lemma replace_all_keeps table : forall text,
  (forall kv, In kv table -> Forall P (snd kv)) ->
  Forall P text -> Forall P (replace_all table text).
Proof.
  unfold replace_all.
  induction table as [|kv table IH]; intros text Hvals Htext; [exact Htext|].
  cbn [fold_left]. apply IH.
  - intros kv' Hkv'. apply Hvals. now right.
  - apply replace_char_keeps; [|exact Htext]. apply Hvals. now left.
Qed.

Lemma filter_keeps (p : N -> bool) text :
  Forall P text -> Forall P (filter p text).
Proof.
  intros H. apply Forall_forall. intros c Hc.
  apply filter_In in Hc. destruct Hc as [Hc _].
  revert c Hc. now apply Forall_forall.
Qed.

Lemma sub_bounded_keeps re_word ch new : forall text prev,
  Forall P new -> Forall P text ->
  Forall P (sub_bounded re_word ch new prev text).
Proof.
  induction text as [|c text IH]; intros prev Hnew Htext; [constructor|].
  inversion Htext as [|? ? Hc Hrest]; subst.
  cbn [sub_bounded]. apply Forall_app. split; [|now apply IH].
  destruct (_ && _); [exact Hnew | now constructor].
Qed.

Lemma collapse_keeps : forall text in_run,
  P 32 -> Forall P text -> Forall P (collapse_spaces in_run text).
Proof.
  induction text as [|c text IH]; intros in_run H32 Htext; [constructor|].
  inversion Htext as [|? ? Hc Hrest]; subst. cbn [collapse_spaces].
  destruct (isspace c).
  - destruct in_run; [now apply IH | constructor; [exact H32 | now apply IH]].
  - constructor; [exact Hc | now apply IH].
Qed.

Lemma lstrip_keeps text : Forall P text -> Forall P (lstrip text).
Proof.
  induction 1 as [|c text Hc Htext IH]; cbn [lstrip]; [constructor|].
  destruct (isspace c); [exact IH | now constructor].
Qed.

Lemma rstrip_keeps text : Forall P text -> Forall P (rstrip text).
Proof.
  induction 1 as [|c text Hc Htext IH]; cbn [rstrip]; [constructor|].
  destruct (rstrip text) as [|c' r'].
  - destruct (isspace c); constructor; [exact Hc | constructor].
  - now constructor.
Qed.

Lemma strip_keeps text : Forall P text -> Forall P (strip text).
Proof. intros H. now apply rstrip_keeps, lstrip_keeps. Qed.

Lemma xml_clean_keeps text :
  P 32 -> Forall P text -> Forall P (xml_clean text).
Proof.
  intros H32 Htext. unfold xml_clean.
  induction Htext as [|c text Hc _ IH]; cbn [map]; constructor; [|exact IH].
  now destruct (xml_safe c).
Qed.

Lemma rstrip_dot_space_keeps text :
  Forall P text -> Forall P (rstrip_dot_space text).
Proof.
  induction 1 as [|c text Hc Htext IH]; cbn [rstrip_dot_space]; [constructor|].
  destruct (rstrip_dot_space text) as [|c' r'].
  - destruct (_ || _); constructor; [exact Hc | constructor].
  - now constructor.
Qed.

End Preserve.

(** A replacement removes its key when the new text does not contain it. *)
Lemma replace_char_removes old new text :
  Forall (fun c => c <> old) new ->
  Forall (fun c => c <> old) (replace_char old new text).
Proof.
  intros Hnew. unfold replace_char.
  induction text as [|c text IH]; cbn [flat_map]; [constructor|].
  apply Forall_app. split; [|exact IH].
  destruct (N.eqb_spec c old); [exact Hnew | now constructor].
Qed.

Lemma in_keys_app t1 t2 c : in_keys (t1 ++ t2) c = in_keys t1 c || in_keys t2 c.
Proof. apply existsb_app. Qed.

Lemma values_free_spec keys table kv c :
  values_free keys table = true -> In kv table -> In c (snd kv) ->
  in_keys keys c = false.
Proof.
  unfold values_free. intros H Hkv Hc.
  rewrite forallb_forall in H. specialize (H kv Hkv).
  rewrite forallb_forall in H. specialize (H c Hc).
  now apply negb_true_iff in H.
Qed.

(** After the replacements of a table none of its keys is left, provided
    no replacement text contains a key. *)
Lemma replace_all_removes all : forall rest done text,
  all = (done ++ rest)%list ->
  values_free all all = true ->
  Forall (fun c => in_keys done c = false) text ->
  Forall (fun c => in_keys all c = false) (replace_all rest text).
Proof.
  unfold replace_all.
  induction rest as [|[k v] rest IH]; intros done text Hall Hfree Htext.
  - cbn [fold_left]. rewrite app_nil_r in Hall. now subst.
  - cbn [fold_left fst snd].
    apply (IH (done ++ [(k, v)])%list).
    + rewrite <- app_assoc. exact Hall.
    + exact Hfree.
    + assert (Hv : Forall (fun c => in_keys (done ++ [(k, v)]) c = false) v).
      { apply Forall_forall. intros c Hc.
        assert (Hin : In (k, v) all)
          by (rewrite Hall; apply in_or_app; right; now left).
        pose proof (values_free_spec all all (k, v) c Hfree Hin Hc) as Hc'.
        rewrite Hall, in_keys_app in Hc'.
        apply orb_false_iff in Hc'. destruct Hc' as [Hd Hr].
        rewrite in_keys_app, Hd. cbn [in_keys existsb fst orb] in *.
        apply orb_false_iff in Hr. destruct Hr as [Hr _].
        now rewrite Hr. }
      unfold replace_char.
      induction Htext as [|c text Hc _ IHt]; cbn [flat_map]; [constructor|].
      apply Forall_app. split; [|exact IHt].
      destruct (N.eqb_spec c k) as [-> | Hne]; [exact Hv|].
      constructor; [|constructor].
      rewrite in_keys_app, Hc. cbn [in_keys existsb fst orb].
      apply orb_false_iff. split; [now apply N.eqb_neq | reflexivity].
Qed.

End SanitizerMore.

Module SanitizerOutput.
Import UniversalTextSanitizer SanitizerMore.
Local Open Scope N_scope.

(** The character is none of those [sanitize] removes or rewrites. *)
Definition clean (c : N) : Prop := forbidden c = false.

Lemma clean_text_of (t : pystr) :
  forallb (fun c => negb (forbidden c)) t = true -> Forall clean t.
Proof.
  intros H. apply Forall_forall. intros c Hc.
  rewrite forallb_forall in H. apply negb_true_iff. now apply H.
Qed.

Lemma clean_values (table : list (N * pystr)) :
  forallb (fun kv => forallb (fun c => negb (forbidden c)) (snd kv)) table
  = true ->
  forall kv, In kv table -> Forall clean (snd kv).
Proof.
  intros H kv Hkv. rewrite forallb_forall in H.
  apply clean_text_of. now apply H.
Qed.

Section Steps.
Variable ftfy_fix_text unicodedata_normalize_NFC html_unescape :
  pystr -> option pystr.
Variable re_word : N -> bool.

(** The text after step 6 holds no forbidden character. *)
Lemma clean_after_ligatures (t3 : pystr) :
  Forall clean
    (replace_all ligatures
       (filter (fun c => negb (is_control c))
          (replace_all replacements t3))).
Proof.
  set (t4 := replace_all replacements t3).
  assert (H4 : Forall (fun c => in_keys replacements c = false) t4).
  { apply (replace_all_removes replacements replacements [] t3);
      [reflexivity | vm_compute; reflexivity|].
    apply Forall_forall. reflexivity. }
  set (t5 := filter (fun c => negb (is_control c)) t4).
  assert (H5 : Forall (fun c => in_keys replacements c = false
                                /\ is_control c = false) t5).
  { apply Forall_forall. intros c Hc. unfold t5 in Hc.
    apply filter_In in Hc. destruct Hc as [Hc Hctl].
    split; [|apply negb_true_iff; exact Hctl].
    exact (proj1 (Forall_forall _ t4) H4 c Hc). }
  assert (H6a : Forall (fun c => in_keys replacements c = false
                                 /\ is_control c = false)
                       (replace_all ligatures t5)).
  { apply replace_all_keeps; [|exact H5].
    intros kv Hkv. apply Forall_forall. intros c Hc.
    assert (Hok : forallb (fun kv => forallb
                     (fun c => negb (in_keys replacements c)
                               && negb (is_control c)) (snd kv)) ligatures
                  = true) by (vm_compute; reflexivity).
    rewrite forallb_forall in Hok. specialize (Hok kv Hkv).
    rewrite forallb_forall in Hok. specialize (Hok c Hc).
    apply andb_true_iff in Hok. destruct Hok as [A B].
    split; apply negb_true_iff; assumption. }
  assert (H6b : Forall (fun c => in_keys ligatures c = false)
                       (replace_all ligatures t5)).
  { apply (replace_all_removes ligatures ligatures [] t5);
      [reflexivity | vm_compute; reflexivity|].
    apply Forall_forall. reflexivity. }
  apply Forall_forall. intros c Hc.
  destruct (proj1 (Forall_forall _ _) H6a c Hc) as [A B].
  pose proof (proj1 (Forall_forall _ _) H6b c Hc) as C.
  unfold clean, forbidden. rewrite A, B, C. reflexivity.
Qed.

Lemma sanitize_clean (text : option pystr) (context : string) (s : pystr) :
  sanitize ftfy_fix_text unicodedata_normalize_NFC html_unescape re_word
    text context = Return s ->
  Forall clean s.
Proof.
  unfold sanitize. intros H.
  destruct text as [[|c0 text0]|].
  - injection H as <-. constructor.
  - cbv zeta in H.
    match type of H with
    | context [existsb is_surrogate ?T] => set (final := T) in H
    end.
    assert (Hfinal : Forall clean final).
    { unfold final.
      assert (H32 : clean 32) by (vm_compute; reflexivity).
      assert (Hstrip : forall t, Forall clean t ->
                Forall clean
                  (if String.eqb context "title"
                      || String.eqb context "content"
                   then xml_clean (strip (collapse_spaces false t))
                   else strip (collapse_spaces false t))).
      { intros t Ht.
        assert (Hs : Forall clean (strip (collapse_spaces false t))).
        { apply strip_keeps, collapse_keeps; assumption. }
        destruct (_ || _); [apply xml_clean_keeps; assumption | exact Hs]. }
      apply Hstrip.
      destruct (String.eqb context "title").
      - apply clean_after_ligatures.
      - unfold ocr_fixes.
        apply replace_char_keeps;
          [apply clean_text_of; vm_compute; reflexivity|].
        apply replace_char_keeps;
          [apply clean_text_of; vm_compute; reflexivity|].
        apply sub_bounded_keeps;
          [apply clean_text_of; vm_compute; reflexivity|].
        apply sub_bounded_keeps;
          [apply clean_text_of; vm_compute; reflexivity|].
        apply clean_after_ligatures. }
    destruct (existsb is_surrogate final); [discriminate H|].
    injection H as <-. exact Hfinal.
  - injection H as <-. constructor.
Qed.

End Steps.
End SanitizerOutput.

(** Whatever the context, a string returned by [sanitize] contains none of
    the characters of the replacement table (special spaces, zero-width
    characters, dashes, curly quotes, mathematical signs, fractions,
    arrows, ...), no ligature of the ligature table and no control
    character of [\x00-\x08\x0B\x0C\x0E-\x1F\x7F-\x9F]. *)
Theorem X12_sanitize_removes
  (ftfy_fix_text unicodedata_normalize_NFC html_unescape :
     UniversalTextSanitizer.pystr -> option UniversalTextSanitizer.pystr)
  (re_word : N -> bool)
  (text : option UniversalTextSanitizer.pystr) (context : string)
  (s : UniversalTextSanitizer.pystr) :
  UniversalTextSanitizer.sanitize ftfy_fix_text unicodedata_normalize_NFC
    html_unescape re_word text context = Return s ->
  forall c, In c s ->
    SanitizerMore.in_keys UniversalTextSanitizer.replacements c = false /\
    SanitizerMore.in_keys UniversalTextSanitizer.ligatures c = false /\
    UniversalTextSanitizer.is_control c = false.
Proof.
  intros H c Hc.
  pose proof (SanitizerOutput.sanitize_clean _ _ _ _ _ _ _ H) as Hclean.
  rewrite Forall_forall in Hclean. specialize (Hclean c Hc).
  unfold SanitizerOutput.clean, SanitizerMore.forbidden in Hclean.
  apply orb_false_iff in Hclean. destruct Hclean as [Hclean Hctl].
  apply orb_false_iff in Hclean. tauto.
Qed.

(** X12 on a text with a thin space, an en dash, a ligature and a bell
    character, in a context that is neither title nor content. *)
Lemma X12_sanitize_removes_witness :
  UniversalTextSanitizer.sanitize (fun t => Some t) (fun t => Some t)
    (fun _ => None) (fun c => N.leb 48 c)
    (Some [0x2009; 0xFB01; 110; 7; 0x2013; 0x4E2D]%N) "figure_caption"
  = Return [102; 105; 110; 45; 0x4E2D]%N /\
  forall c, In c [102; 105; 110; 45; 0x4E2D]%N ->
    SanitizerMore.in_keys UniversalTextSanitizer.replacements c = false /\
    SanitizerMore.in_keys UniversalTextSanitizer.ligatures c = false /\
    UniversalTextSanitizer.is_control c = false.
Proof.
  split; [vm_compute; reflexivity|].
  apply (X12_sanitize_removes (fun t => Some t) (fun t => Some t)
           (fun _ => None) (fun c => N.leb 48 c)
           (Some [0x2009; 0xFB01; 110; 7; 0x2013; 0x4E2D]%N)
           "figure_caption").
  vm_compute. reflexivity.
Defined.

(** ** File names and white space *)

Module SanitizerShape.
Import UniversalTextSanitizer SanitizerMore.
Local Open Scope N_scope.

(** The characters [sanitize_for_filename] replaces by an underscore. *)
Definition invalid_chars : list N := [60; 62; 58; 34; 47; 92; 124; 63; 42].

Definition underscores : list (N * pystr) :=
  map (fun c => (c, [95])) invalid_chars.

Lemma in_keys_false table c :
  in_keys table c = false -> ~ In c (map fst table).
Proof.
  unfold in_keys. intros H Hin. apply in_map_iff in Hin.
  destruct Hin as (kv & <- & Hkv).
  assert (Ht : existsb (fun kv0 => fst kv =? fst kv0) table = true).
  { apply existsb_exists. exists kv. split; [exact Hkv | apply N.eqb_refl]. }
  congruence.
Qed.

Lemma rstrip_dot_space_length t :
  (List.length (rstrip_dot_space t) <= List.length t)%nat.
Proof.
  induction t as [|c t IH]; cbn [rstrip_dot_space]; [apply Nat.le_refl|].
  destruct (rstrip_dot_space t) as [|c' r'].
  - destruct (_ || _); cbn [List.length]; lia.
  - cbn [List.length] in *. lia.
Qed.

Lemma rstrip_dot_space_last : forall t pre c,
  rstrip_dot_space t = (pre ++ [c])%list -> c <> 46 /\ c <> 32.
Proof.
  induction t as [|a t IH]; intros pre c H; cbn [rstrip_dot_space] in H.
  - destruct pre; discriminate H.
  - destruct (rstrip_dot_space t) as [|x xs] eqn:Hr.
    + destruct ((a =? 46) || (a =? 32)) eqn:E.
      * destruct pre; discriminate H.
      * destruct pre as [|p pre].
        -- injection H as <-. apply orb_false_iff in E.
           destruct E as [E1 E2]. split; now apply N.eqb_neq.
        -- destruct pre; discriminate H.
    + destruct pre as [|p pre].
      * discriminate H.
      * injection H as _ H. now apply (IH pre c).
Qed.

Lemma spaced_collapse : forall t in_run,
  spaced in_run (collapse_spaces in_run t) = true.
Proof.
  induction t as [|c t IH]; intros in_run; [reflexivity|].
  cbn [collapse_spaces]. destruct (isspace c) eqn:Ec.
  - destruct in_run; [apply IH|].
    cbn [spaced]. replace (isspace 32) with true by reflexivity.
    rewrite N.eqb_refl. cbn [negb andb]. apply IH.
  - cbn [spaced]. rewrite Ec. apply IH.
Qed.

Lemma spaced_lstrip : forall t b,
  spaced b t = true -> spaced false (lstrip t) = true.
Proof.
  induction t as [|c t IH]; intros b H; [reflexivity|].
  cbn [spaced] in H. cbn [lstrip]. destruct (isspace c) eqn:Ec.
  - apply andb_true_iff in H. destruct H as [_ H]. now apply (IH true).
  - cbn [spaced]. now rewrite Ec.
Qed.

Lemma spaced_rstrip : forall t b,
  spaced b t = true -> spaced b (rstrip t) = true.
Proof.
  induction t as [|c t IH]; intros b H; [reflexivity|].
  cbn [spaced] in H. cbn [rstrip].
  destruct (rstrip t) as [|x xs] eqn:Hr.
  - destruct (isspace c) eqn:Ec; [reflexivity|].
    cbn [spaced]. now rewrite Ec.
  - cbn [spaced]. destruct (isspace c) eqn:Ec.
    + apply andb_true_iff in H. destruct H as [H1 H2].
      rewrite H1. cbn [andb]. now apply (IH true).
    + now apply (IH false).
Qed.

Lemma spaced_is_space : forall t b c,
  spaced b t = true -> In c t -> isspace c = true -> c = 32.
Proof.
  induction t as [|a t IH]; intros b c H Hin Hc; [destruct Hin|].
  cbn [spaced] in H. destruct Hin as [<- | Hin].
  - rewrite Hc in H. apply andb_true_iff in H. destruct H as [H _].
    apply andb_true_iff in H. destruct H as [H _]. now apply N.eqb_eq.
  - destruct (isspace a).
    + apply andb_true_iff in H. destruct H as [_ H]. now apply (IH true).
    + now apply (IH false).
Qed.

Lemma spaced_no_double : forall pre b c d post,
  spaced b (pre ++ c :: d :: post) = true ->
  isspace c = true -> isspace d = false.
Proof.
  induction pre as [|a pre IH]; intros b c d post H Hc.
  - cbn [app spaced] in H. rewrite Hc in H.
    apply andb_true_iff in H. destruct H as [_ H].
    destruct (isspace d); [|reflexivity].
    apply andb_true_iff in H. destruct H as [H _].
    apply andb_true_iff in H. destruct H as [_ H]. discriminate H.
  - cbn [app spaced] in H. destruct (isspace a).
    + apply andb_true_iff in H. destruct H as [_ H]. now apply (IH true c d post).
    + now apply (IH false c d post).
Qed.

Lemma lstrip_head : forall t c r, lstrip t = c :: r -> isspace c = false.
Proof.
  induction t as [|a t IH]; intros c r H; cbn [lstrip] in H; [discriminate H|].
  destruct (isspace a) eqn:Ea; [now apply (IH c r)|].
  now injection H as <- _.
Qed.

Lemma rstrip_head : forall t c r,
  rstrip t = c :: r -> exists r', t = c :: r'.
Proof.
  intros [|a t] c r H; cbn [rstrip] in H; [discriminate H|].
  destruct (rstrip t).
  - destruct (isspace a); [discriminate H|]. injection H as <- _. now exists t.
  - injection H as <- _. now exists t.
Qed.

Lemma rstrip_last : forall t pre c,
  rstrip t = (pre ++ [c])%list -> isspace c = false.
Proof.
  induction t as [|a t IH]; intros pre c H; cbn [rstrip] in H.
  - destruct pre; discriminate H.
  - destruct (rstrip t) as [|x xs] eqn:Hr.
    + destruct (isspace a) eqn:Ea.
      * destruct pre; discriminate H.
      * destruct pre as [|p pre].
        -- now injection H as <-.
        -- destruct pre; discriminate H.
    + destruct pre as [|p pre].
      * discriminate H.
      * injection H as _ H. now apply (IH pre c).
Qed.

End SanitizerShape.

Module SanitizerFilename.
Import UniversalTextSanitizer SanitizerMore SanitizerShape.
Local Open Scope N_scope.

Section Facts.
Variable ftfy_fix_text unicodedata_normalize_NFC html_unescape :
  pystr -> option pystr.
Variable re_word : N -> bool.

(** In the context ['title'] the sanitizer returns a text of allowed
    characters. *)
Lemma sanitize_title (text : option pystr) :
  exists t,
    sanitize ftfy_fix_text unicodedata_normalize_NFC html_unescape re_word
      text "title" = Return t /\
    Forall SanitizerFacts.allowed t.
Proof.
  unfold sanitize. destruct text as [[|c0 text0]|].
  - exists []. split; [reflexivity | constructor].
  - cbv zeta.
    replace (String.eqb "title" "title" || String.eqb "title" "content")
      with true by reflexivity.
    match goal with
    | |- context [xml_clean ?u] =>
        pose proof (SanitizerFacts.xml_clean_allowed u) as Hall;
        set (cleaned := xml_clean u) in *
    end.
    rewrite (SanitizerFacts.no_surrogate Hall).
    exists cleaned. split; [reflexivity | exact Hall].
  - exists []. split; [reflexivity | constructor].
Qed.

(** [sanitize_for_filename] by its steps. *)
Lemma filename_steps (text : option pystr) (t : pystr) :
  sanitize ftfy_fix_text unicodedata_normalize_NFC html_unescape re_word
    text "title" = Return t ->
  sanitize_for_filename ftfy_fix_text unicodedata_normalize_NFC
    html_unescape re_word text
  = Return (rstrip_dot_space (firstn 200 (replace_all underscores t))).
Proof.
  intros H. unfold sanitize_for_filename. rewrite H. reflexivity.
Qed.

End Facts.
End SanitizerFilename.

(** [sanitize_for_filename] never raises.  The name it returns has at most
    200 characters, contains none of the nine characters that are not
    safe in a file name (the angle brackets, the colon, the double quote,
    the slash, the backslash, the bar, the question mark and the
    asterisk), consists of characters that [sanitize] allows in a title,
    and does not end with a dot or a space. *)
Theorem X13_filename_safe
  (ftfy_fix_text unicodedata_normalize_NFC html_unescape :
     UniversalTextSanitizer.pystr -> option UniversalTextSanitizer.pystr)
  (re_word : N -> bool)
  (text : option UniversalTextSanitizer.pystr) :
  exists s,
    UniversalTextSanitizer.sanitize_for_filename ftfy_fix_text
      unicodedata_normalize_NFC html_unescape re_word text = Return s /\
    (List.length s <= 200)%nat /\
    (forall c, In c s ->
               ~ In c SanitizerShape.invalid_chars /\
               SanitizerFacts.allowed c) /\
    (forall pre c, s = pre ++ [c] -> c <> 46%N /\ c <> 32%N).
Proof.
  destruct (SanitizerFilename.sanitize_title ftfy_fix_text
              unicodedata_normalize_NFC html_unescape re_word text)
    as (t & Ht & Hall).
  rewrite (SanitizerFilename.filename_steps _ _ _ _ _ _ Ht).
  set (replaced := UniversalTextSanitizer.replace_all
                     SanitizerShape.underscores t).
  exists (SanitizerMore.rstrip_dot_space (firstn 200 replaced)).
  split; [reflexivity|]. split; [|split].
  - eapply Nat.le_trans; [apply SanitizerShape.rstrip_dot_space_length|].
    apply firstn_le_length.
  - assert (Hvalid : Forall
              (fun c => SanitizerMore.in_keys SanitizerShape.underscores c
                        = false) replaced).
    { apply (SanitizerMore.replace_all_removes SanitizerShape.underscores
               SanitizerShape.underscores [] t);
        [reflexivity | vm_compute; reflexivity|].
      apply Forall_forall. reflexivity. }
    assert (Hallowed : Forall SanitizerFacts.allowed replaced).
    { apply SanitizerMore.replace_all_keeps; [|exact Hall].
      intros kv Hkv. unfold SanitizerShape.underscores in Hkv.
      apply in_map_iff in Hkv. destruct Hkv as (k & <- & _).
      constructor; [|constructor]. left. lia. }
    assert (Hboth : Forall
              (fun c => SanitizerMore.in_keys SanitizerShape.underscores c
                        = false /\ SanitizerFacts.allowed c)
              (SanitizerMore.rstrip_dot_space (firstn 200 replaced))).
    { apply SanitizerMore.rstrip_dot_space_keeps.
      apply Forall_forall. intros c Hc.
      assert (Hc' : In c replaced).
      { rewrite <- (firstn_skipn 200 replaced). apply in_or_app. now left. }
      split.
      - exact (proj1 (Forall_forall _ replaced) Hvalid c Hc').
      - exact (proj1 (Forall_forall _ replaced) Hallowed c Hc'). }
    intros c Hc.
    destruct (proj1 (Forall_forall _ _) Hboth c Hc) as [Hk Ha].
    split; [|exact Ha].
    apply SanitizerShape.in_keys_false in Hk.
    unfold SanitizerShape.underscores in Hk.
    rewrite map_map in Hk. cbn [fst] in Hk. now rewrite map_id in Hk.
  - intros pre c Hs.
    exact (SanitizerShape.rstrip_dot_space_last _ pre c Hs).
Qed.

(** In a context other than ['title'] and ['content'], the string that
    [sanitize] returns has its white space normalised: it neither starts
    nor ends with a white-space character, every white-space character in
    it is a plain space, and no two white-space characters follow each
    other. *)
Theorem X14_whitespace_normalised
  (ftfy_fix_text unicodedata_normalize_NFC html_unescape :
     UniversalTextSanitizer.pystr -> option UniversalTextSanitizer.pystr)
  (re_word : N -> bool)
  (text : option UniversalTextSanitizer.pystr) (context : string)
  (s : UniversalTextSanitizer.pystr) :
  context <> "title"%string -> context <> "content"%string ->
  UniversalTextSanitizer.sanitize ftfy_fix_text unicodedata_normalize_NFC
    html_unescape re_word text context = Return s ->
  (forall c r, s = c :: r -> UniversalTextSanitizer.isspace c = false) /\
  (forall pre c, s = pre ++ [c] ->
                 UniversalTextSanitizer.isspace c = false) /\
  (forall c, In c s -> UniversalTextSanitizer.isspace c = true -> c = 32%N) /\
  (forall pre c d post,
      s = pre ++ c :: d :: post ->
      UniversalTextSanitizer.isspace c = true ->
      UniversalTextSanitizer.isspace d = false).
Proof.
  intros Htitle Hcontent H.
  unfold UniversalTextSanitizer.sanitize in H.
  destruct text as [[|c0 text0]|].
  1,3: injection H as <-;
    (split; [intros ? ? E; discriminate E|]);
    (split; [intros [|? ?] ? E; discriminate E|]);
    (split; [intros ? []|]);
    intros [|? ?] ? ? ? E; discriminate E.
  cbv zeta in H.
  apply String.eqb_neq in Htitle, Hcontent.
  rewrite Htitle, Hcontent in H. cbn [orb] in H.
  match type of H with
  | context [UniversalTextSanitizer.strip ?u] =>
      set (collapsed := u) in H
  end.
  destruct (existsb UniversalTextSanitizer.is_surrogate
              (UniversalTextSanitizer.strip collapsed));
    [discriminate H|].
  injection H as <-.
  assert (Hsp : SanitizerMore.spaced false collapsed = true).
  { unfold collapsed. apply SanitizerShape.spaced_collapse. }
  assert (Hl : SanitizerMore.spaced false
                 (UniversalTextSanitizer.lstrip collapsed) = true)
    by (apply (SanitizerShape.spaced_lstrip collapsed false Hsp)).
  assert (Hs : SanitizerMore.spaced false
                 (UniversalTextSanitizer.strip collapsed) = true)
    by (apply SanitizerShape.spaced_rstrip; exact Hl).
  split; [|split; [|split]].
  - intros c r E. unfold UniversalTextSanitizer.strip in E.
    destruct (SanitizerShape.rstrip_head _ c r E) as [r' E'].
    exact (SanitizerShape.lstrip_head collapsed c r' E').
  - intros pre c E.
    exact (SanitizerShape.rstrip_last _ pre c E).
  - intros c Hc Hspace.
    exact (SanitizerShape.spaced_is_space _ false c Hs Hc Hspace).
  - intros pre c d post E Hc. rewrite E in Hs.
    exact (SanitizerShape.spaced_no_double pre false c d post Hs Hc).
Qed.

(** X14 on a text with a tab, a no-break space and trailing blanks, in the
    context ['figure_caption']. *)
Lemma X14_whitespace_normalised_witness :
  UniversalTextSanitizer.sanitize (fun t => Some t) (fun t => Some t)
    (fun t => Some t) (fun c => N.leb 48 c)
    (Some [32; 9; 70; 105; 103; 0xA0; 32; 10; 50; 32; 32]%N) "figure_caption"
  = Return [70; 105; 103; 32; 50]%N /\
  (forall pre c, [70; 105; 103; 32; 50]%N = pre ++ [c] ->
                 UniversalTextSanitizer.isspace c = false).
Proof.
  split; [vm_compute; reflexivity|].
  apply (X14_whitespace_normalised (fun t => Some t) (fun t => Some t)
           (fun t => Some t) (fun c => N.leb 48 c)
           (Some [32; 9; 70; 105; 103; 0xA0; 32; 10; 50; 32; 32]%N)
           "figure_caption").
  - discriminate.
  - discriminate.
  - vm_compute. reflexivity.
Defined.

(** ** Captions in full and figures by size *)

Module FullCaption.
Import QB QBFacts PDFFigures2Python.
Local Open Scope Q_scope.
Local Open Scope string_scope.







Section Facts.
Variable re_match : bool -> string -> string -> option string.



End Facts.
End FullCaption.



(** ** Captions that do not qualify, and the yield of a page *)

Module NearestMore.
Import QB QBFacts PDFFigures2Python.
Local Open Scope Q_scope.

(** A caption that does not qualify leaves the state of the loop of
    [_find_nearest_caption] as it is. *)
Lemma step_skip fb st c :
  ~ NearestCaption.qualifies fb c -> nearest_step fb st c = st.
Proof.
  intros Hno. unfold nearest_step.
  destruct (gtb (Qabs (x1 (cbbox c) - x1 fb)) 100) eqn:Ea; [reflexivity|].
  apply gtb_le in Ea.
  destruct (ltb (vertical_distance fb (cbbox c)) 100) eqn:Ed.
  - exfalso. apply Hno. split; [exact Ea|]. now apply ltb_lt in Ed.
  - now rewrite andb_false_r.
Qed.

Lemma fold_skip fb : forall others st,
  (forall c, In c others -> ~ NearestCaption.qualifies fb c) ->
  fold_left (nearest_step fb) others st = st.
Proof.
  induction others as [|c others IH]; intros st Hno; [reflexivity|].
  cbn [fold_left]. rewrite step_skip by (apply Hno; now left).
  apply IH. intros c' Hc'. apply Hno. now right.
Qed.

End NearestMore.

Module PageYield.
Import QB QBFacts PDFFigures2Python.

Section Facts.
Variable re_match : bool -> string -> string -> option string.
Variable render_base64 : fitz.Page -> Q -> fitz.Rect -> string.

Lemma images_yield page captions page_num : forall image_list img_index,
  (List.length (extract_images_from re_match page captions page_num
                                    img_index image_list)
   <= List.length image_list)%nat.
Proof.
  induction image_list as [|img rest IH]; intros k; [apply Nat.le_refl|].
  cbn [extract_images_from List.length].
  specialize (IH (S k)).
  destruct (fitz.image_rects img) as [|rect rects]; [lia|].
  destruct (ltb _ _); [lia|].
  destruct (_ || _); [lia|].
  destruct (_find_nearest_caption _ captions); cbn [List.length]; lia.
Qed.

Lemma flat_map_yield {A B} (f : A -> list B) : forall l,
  (forall a, List.length (f a) <= 1)%nat ->
  (List.length (flat_map f l) <= List.length l)%nat.
Proof.
  intros l Hf. induction l as [|a l IH]; [apply Nat.le_refl|].
  cbn [flat_map List.length]. rewrite length_app.
  specialize (Hf a). lia.
Qed.

Lemma table_yield page blocks page_num caption_info :
  (List.length (table_figure re_match render_base64 page blocks page_num
                             caption_info) <= 1)%nat.
Proof.
  unfold table_figure. destruct (table_blocks _ _); cbn [List.length]; lia.
Qed.

(** A group gives a record only when it has five drawings. *)
Lemma group_yield page captions page_num group :
  (5 * List.length (vector_figure re_match render_base64 page captions
                                  page_num group)
   <= List.length group)%nat.
Proof.
  unfold vector_figure.
  destruct (Nat.ltb_spec (List.length group) 5) as [|Hlen];
    [cbn [List.length]; lia|].
  destruct group as [|d ds]; [cbn [List.length]; lia|].
  destruct (ltb _ _); [cbn [List.length]; lia|].
  destruct (_find_nearest_caption _ captions); cbn [List.length] in *; lia.
Qed.

Lemma groups_yield page captions page_num : forall groups,
  (5 * List.length (flat_map (vector_figure re_match render_base64 page
                                            captions page_num) groups)
   <= List.length (List.concat groups))%nat.
Proof.
  induction groups as [|g groups IH]; [cbn; lia|].
  cbn [flat_map List.concat]. rewrite !length_app.
  pose proof (group_yield page captions page_num g). lia.
Qed.

Lemma filter_length_le {A} (p : A -> bool) (l : list A) :
  (List.length (filter p l) <= List.length l)%nat.
Proof.
  induction l as [|a l IH]; [apply Nat.le_refl|].
  cbn [filter]. destruct (p a); cbn [List.length]; lia.
Qed.

End Facts.
End PageYield.

(** [_find_nearest_caption] depends on the qualifying captions only: a
    caption whose start is more than 100 units from the element's left
    edge, or whose vertical gap is 100 or more, can be removed from the
    list, wherever it stands, without changing the caption chosen. *)
Theorem X16_nearest_ignores_others
  (figure_bbox : BoundingBox)
  (before after : list PDFFigures2Python.Caption)
  (c : PDFFigures2Python.Caption) :
  ~ NearestCaption.qualifies figure_bbox c ->
  PDFFigures2Python._find_nearest_caption figure_bbox (before ++ c :: after)
  = PDFFigures2Python._find_nearest_caption figure_bbox (before ++ after).
Proof.
  intros Hno. unfold PDFFigures2Python._find_nearest_caption.
  rewrite !fold_left_app. cbn [fold_left].
  now rewrite NearestMore.step_skip.
Qed.

(** X16 on the captions of the photograph: the caption far to the right
    does not count. *)
Lemma X16_nearest_ignores_others_witness :
  PDFFigures2Python._find_nearest_caption (mkBoundingBox 72 100 272 250)
    ([Examples.cap_far; Examples.cap_near] ++ Examples.cap_aside :: [])
  = PDFFigures2Python._find_nearest_caption (mkBoundingBox 72 100 272 250)
      ([Examples.cap_far; Examples.cap_near] ++ []).
Proof.
  apply X16_nearest_ignores_others.
  intros [Ha _]. vm_compute in Ha. now apply Ha.
Defined.

(** What one page can give: [_extract_images] at most one figure per
    image of the page, [_extract_tables] at most one table per caption of
    type ["Table"], and [_extract_vector_graphics] at most one figure per
    five drawings of the page, since the groups share no drawing and a
    group of fewer than five gives nothing. *)
Theorem X17_page_yield
  (re_match : bool -> string -> string -> option string)
  (render_base64 : fitz.Page -> Q -> fitz.Rect -> string)
  (page : fitz.Page) (blocks : list fitz.Block)
  (captions : list PDFFigures2Python.Caption) (page_num : nat) :
  (List.length (PDFFigures2Python._extract_images re_match page captions
                                                  page_num)
   <= List.length (fitz.images page))%nat /\
  (List.length (PDFFigures2Python._extract_tables re_match render_base64
                  page blocks captions page_num)
   <= List.length (filter (fun c => String.eqb (PDFFigures2Python.ctype c)
                                               "Table") captions))%nat /\
  (5 * List.length (PDFFigures2Python._extract_vector_graphics
                      re_match render_base64 page captions page_num)
   <= List.length (fitz.drawings page))%nat.
Proof.
  split; [|split].
  - apply PageYield.images_yield.
  - unfold PDFFigures2Python._extract_tables.
    apply PageYield.flat_map_yield. intros c.
    apply PageYield.table_yield.
  - unfold PDFFigures2Python._extract_vector_graphics.
    destruct (fitz.drawings page) as [|d0 ds0] eqn:Hd;
      [cbn [List.length]; lia|].
    eapply Nat.le_trans; [apply PageYield.groups_yield|].
    rewrite (Permutation_length (Groups.group_drawings_partition (d0 :: ds0))).
    apply PageYield.filter_length_le.
Qed.

(** ** The sanitizer of the book generator *)

(** [sanitize_text] of [educational_word_generator_book.py], which the
    clean and final generators repeat word for word. *)
Module BookGenerator.
Import UniversalTextSanitizer.
Local Open Scope N_scope.

(** The dictionary [replacements], in insertion order. *)
Definition replacements : list (N * pystr) :=
  [ (0x202F, cp " ");
    (0x2011, cp "-");
    (0x00A0, cp " ");
    (0x200B, []);
    (0x2009, cp " ");
    (0x200A, cp " ");
    (0xFEFF, []);
    (0x2028, [10]);
    (0x2029, [10; 10]) ].

(** [ord(char) >= 32 or char in '\n\r\t']. *)
Definition kept (char : N) : bool :=
  (32 <=? char) || (char =? 10) || (char =? 13) || (char =? 9).

(** [sanitize_text(text, context)]; [context] is not used.  [text] is a
    string or [None]. *)
Definition sanitize_text (text : option pystr) : pystr :=
  match text with
  | None => []
  | Some [] => []
  | Some text =>
      let text := replace_all replacements text in
      let text := filter kept text in
      strip text
  end.

End BookGenerator.

Module BookGeneratorFacts.
Import UniversalTextSanitizer SanitizerMore BookGenerator.
Local Open Scope N_scope.

(** A text without keys of the table is left as it is. *)
Lemma replace_char_absent old new : forall text,
  Forall (fun c => (c =? old) = false) text ->
  replace_char old new text = text.
Proof.
  unfold replace_char.
  induction 1 as [|c text Hc _ IH]; cbn [flat_map]; [reflexivity|].
  rewrite Hc, IH. reflexivity.
Qed.

Lemma replace_all_absent : forall table text,
  Forall (fun c => in_keys table c = false) text ->
  replace_all table text = text.
Proof.
  unfold replace_all.
  induction table as [|[k v] table IH]; intros text H; [reflexivity|].
  cbn [fold_left fst snd]. rewrite replace_char_absent.
  - apply IH. eapply Forall_impl; [|exact H].
    intros c Hc. cbn [in_keys existsb fst] in Hc.
    now apply orb_false_iff in Hc.
  - eapply Forall_impl; [|exact H].
    intros c Hc. cbn [in_keys existsb fst] in Hc.
    now apply orb_false_iff in Hc.
Qed.

Lemma rstrip_idem : forall t, rstrip (rstrip t) = rstrip t.
Proof.
  induction t as [|c t IH]; [reflexivity|].
  cbn [rstrip]. destruct (rstrip t) as [|x xs] eqn:Hr.
  - destruct (isspace c) eqn:Ec; [reflexivity|].
    cbn [rstrip]. now rewrite Ec.
  - change (rstrip (c :: x :: xs))
      with (match rstrip (x :: xs) with
            | [] => if isspace c then [] else [c]
            | r' => c :: r'
            end).
    now rewrite IH.
Qed.

Lemma strip_idem t : strip (strip t) = strip t.
Proof.
  unfold strip.
  assert (Hl : lstrip (rstrip (lstrip t)) = rstrip (lstrip t)).
  { destruct (rstrip (lstrip t)) as [|c r] eqn:Hr; [reflexivity|].
    destruct (SanitizerShape.rstrip_head _ c r Hr) as [r' Hr'].
    pose proof (SanitizerShape.lstrip_head t c r' Hr') as Hc.
    cbn [lstrip]. now rewrite Hc. }
  rewrite Hl. apply rstrip_idem.
Qed.

(** The characters after the table and the filter. *)
Lemma body_clean text :
  Forall (fun c => in_keys replacements c = false /\ kept c = true)
         (strip (filter kept (replace_all replacements text))).
Proof.
  apply strip_keeps.
  apply Forall_forall. intros c Hc.
  apply filter_In in Hc. destruct Hc as [Hc Hk]. split; [|exact Hk].
  assert (H : Forall (fun c => in_keys replacements c = false)
                     (replace_all replacements text)).
  { apply (replace_all_removes replacements replacements [] text).
    - reflexivity.
    - vm_compute. reflexivity.
    - apply Forall_forall. reflexivity. }
  exact (proj1 (Forall_forall _ _) H c Hc).
Qed.

Lemma sanitize_text_clean text :
  Forall (fun c => in_keys replacements c = false /\ kept c = true)
         (sanitize_text text).
Proof.
  destruct text as [[|c r]|]; try constructor.
  apply body_clean.
Qed.

End BookGeneratorFacts.

(** The [sanitize_text] of the book generator: the text it returns has
    none of the nine characters of its table and no control character
    below 32 other than line feed, carriage return and tab; it neither
    starts nor ends with white space; and sanitizing it again changes
    nothing. *)
Theorem X18_book_sanitize_text
  (text : option UniversalTextSanitizer.pystr) :
  (forall c, In c (BookGenerator.sanitize_text text) ->
             SanitizerMore.in_keys BookGenerator.replacements c = false /\
             ((32 <= c)%N \/ c = 10%N \/ c = 13%N \/ c = 9%N)) /\
  (forall c r, BookGenerator.sanitize_text text = c :: r ->
               UniversalTextSanitizer.isspace c = false) /\
  (forall pre c, BookGenerator.sanitize_text text = (pre ++ [c])%list ->
                 UniversalTextSanitizer.isspace c = false) /\
  BookGenerator.sanitize_text (Some (BookGenerator.sanitize_text text))
  = BookGenerator.sanitize_text text.
Proof.
  pose proof (BookGeneratorFacts.sanitize_text_clean text) as Hclean.
  split; [|split; [|split]].
  - intros c Hc.
    destruct (proj1 (Forall_forall _ _) Hclean c Hc) as [Hk Hkept].
    split; [exact Hk|]. unfold BookGenerator.kept in Hkept.
    repeat (apply orb_true_iff in Hkept; destruct Hkept as [Hkept|Hkept]).
    + left. now apply N.leb_le.
    + right. left. now apply N.eqb_eq.
    + right. right. left. now apply N.eqb_eq.
    + right. right. right. now apply N.eqb_eq.
  - intros c r H. destruct text as [[|a t]|]; try discriminate H.
    cbn [BookGenerator.sanitize_text] in H.
    unfold UniversalTextSanitizer.strip in H.
    destruct (SanitizerShape.rstrip_head _ c r H) as [r' H'].
    exact (SanitizerShape.lstrip_head _ c r' H').
  - intros pre c H. destruct text as [[|a t]|];
      try (destruct pre; discriminate H).
    cbn [BookGenerator.sanitize_text] in H.
    exact (SanitizerShape.rstrip_last _ pre c H).
  - destruct (BookGenerator.sanitize_text text) as [|c r] eqn:E;
      [reflexivity|].
    rewrite <- E in *. 
    assert (E' : BookGenerator.sanitize_text text
                 = UniversalTextSanitizer.strip
                     (BookGenerator.sanitize_text text)).
    { destruct text as [[|a t]|]; try discriminate E.
      cbn [BookGenerator.sanitize_text].
      symmetry. apply BookGeneratorFacts.strip_idem. }
    replace (BookGenerator.sanitize_text
               (Some (BookGenerator.sanitize_text text)))
      with (UniversalTextSanitizer.strip
              (filter BookGenerator.kept
                 (UniversalTextSanitizer.replace_all
                    BookGenerator.replacements
                    (BookGenerator.sanitize_text text))))
      by (rewrite E; reflexivity).
    rewrite BookGeneratorFacts.replace_all_absent.
    + rewrite MergeMore.filter_all.
      * symmetry. exact E'.
      * intros x Hx.
        exact (proj2 (proj1 (Forall_forall _ _) Hclean x Hx)).
    + eapply Forall_impl; [|exact Hclean]. now intros x [Hx _].
Qed.
